(** * The Aging2 driver, the undirected-update test and the RPC server

    A shallow embedding of
    - [src/experiment/details/aging2_master.cpp] (module [Aging2]),
    - [src/tests/test_updates_undirected.cpp] (module [TestUpdates]),
    - [src/network/server.cpp] (module [Network]),
    followed by the properties established about them.

    Conventions.  A [uint64_t] is a [Z]; where the source can wrap, the
    wrap-around is written out.  A [double] is a primitive binary64 float,
    so comparisons such as [weights[i] <= 0] are the IEEE ones.  The calls a
    thread issues on its collaborators (the library under evaluation, the
    workers, the build service, the standard output) are recorded in
    chronological order in a trace. *)

From Stdlib Require Import ZArith List Bool Lia String Floats.
From stdpp Require Import base list gmap.
Import ListNotations.
Local Open Scope Z_scope.

(** ** Conversions between the arithmetic types of the source *)

Module Cxx.

(** [static_cast<double>(z)]: the integer rounded to the nearest double,
    ties to even. *)
Definition double_of_Z (z : Z) : float :=
  SF2Prim (binary_normalize prec emax z 0 false).

(** [::ceil(x)].  A finite double with a non-negative exponent is already an
    integer; otherwise its magnitude is below 2^53 and the ceiling is exact. *)
Definition ceil (x : float) : float :=
  match Prim2SF x with
  | S754_finite s m e =>
      if 0 <=? e then x
      else
        let q := Z.pos m / 2 ^ (- e) in
        let r := Z.pos m mod 2 ^ (- e) in
        if s then (if q =? 0 then (-0)%float else double_of_Z (- q))
        else double_of_Z (if r =? 0 then q else q + 1)
  | _ => x
  end.

(** [static_cast<uint64_t>(x)]: truncation towards zero; the conversion is
    undefined when the truncated value does not fit (also for infinities and
    NaN), which is [None] here. *)
Definition to_uint64 (x : float) : option Z :=
  match Prim2SF x with
  | S754_zero _ => Some 0
  | S754_finite s m e =>
      let t := if 0 <=? e then Z.pos m * 2 ^ e else Z.pos m / 2 ^ (- e) in
      let v := if s then - t else t in
      if (0 <=? v) && (v <? 2 ^ 64) then Some v else None
  | _ => None
  end.

(** [static_cast<int64_t>(x)]: as [to_uint64], for the signed range. *)
Definition to_int64 (x : float) : option Z :=
  match Prim2SF x with
  | S754_zero _ => Some 0
  | S754_finite s m e =>
      let t := if 0 <=? e then Z.pos m * 2 ^ e else Z.pos m / 2 ^ (- e) in
      let v := if s then - t else t in
      if (- 2 ^ 63 <=? v) && (v <? 2 ^ 63) then Some v else None
  | _ => None
  end.

(** [(int) x] for an unsigned 64-bit [x]: the low 32 bits, read as a signed
    two's complement number. *)
Definition to_int (x : Z) : Z := (x + 2 ^ 31) mod 2 ^ 32 - 2 ^ 31.

End Cxx.

(** ** The Aging2 master ([src/experiment/details/aging2_master.cpp]) *)

Module Aging2.

(** An entry of the EDGES section of the graphlog.  A block of [N] entries
    reaches the master as three lanes of one array: [N] sources, [N]
    destinations, [N] weights. *)
Record WeightedEdge := {
  source : Z;
  destination : Z;
  weight : float;
}.

(** The header of the graphlog, each value as [stoull] returns it. *)
Record LogProperties := {
  internal_vertices_temporary_cardinality : Z;
  internal_vertices_final_cardinality : Z;
  internal_edges_final : Z;
  internal_edges_cardinality : Z;
  internal_edges_block_size : Z;
}.

(** [Aging2Experiment], the configuration ([aging2_experiment.hpp]); the
    defaults are those of the member initialisers. *)
Record Aging2Experiment := {
  m_path_log : string;
  m_num_threads : Z;
  m_worker_granularity : Z;
  m_max_weight : float;
  m_build_frequency : Z;
  m_report_progress : bool;
  m_num_reports_per_operations : Z;
  m_measure_latency : bool;
}.

Definition default_experiment (path : string) : Aging2Experiment :=
  {| m_path_log := path; m_num_threads := 1; m_worker_granularity := 1024;
     m_max_weight := 1%float; m_build_frequency := 0;
     m_report_progress := false; m_num_reports_per_operations := 1;
     m_measure_latency := false |}.

(** Modelled from the spec: [Aging2Result] is declared in
    [aging2_result.hpp], which is not among the sources; the fields are the
    ones the master assigns, all zero (or empty) after construction, as the
    test [m_random_vertex_id == 0] of [load_edges] expects. *)
Module Result.
Record Aging2Result := {
  m_num_artificial_vertices : Z;
  m_num_vertices_load : Z;
  m_num_edges_load : Z;
  m_num_operations_total : Z;
  m_num_vertices_final_graph : Z;
  m_num_edges_final_graph : Z;
  m_completion_time : Z;
  m_num_build_invocations : Z;
  m_reported_times : list Z;
  m_random_vertex_id : Z;
}.

Definition fresh : Aging2Result :=
  {| m_num_artificial_vertices := 0; m_num_vertices_load := 0;
     m_num_edges_load := 0; m_num_operations_total := 0;
     m_num_vertices_final_graph := 0; m_num_edges_final_graph := 0;
     m_completion_time := 0; m_num_build_invocations := 0;
     m_reported_times := []; m_random_vertex_id := 0 |}.

Definition with_properties (p : LogProperties) (r : Aging2Result) : Aging2Result :=
  {| m_num_artificial_vertices := internal_vertices_temporary_cardinality p;
     m_num_vertices_load := internal_vertices_final_cardinality p;
     m_num_edges_load := internal_edges_final p;
     m_num_operations_total := internal_edges_cardinality p;
     m_num_vertices_final_graph := m_num_vertices_final_graph r;
     m_num_edges_final_graph := m_num_edges_final_graph r;
     m_completion_time := m_completion_time r;
     m_num_build_invocations := m_num_build_invocations r;
     m_reported_times := m_reported_times r;
     m_random_vertex_id := m_random_vertex_id r |}.

Definition with_num_artificial_vertices (v : Z) (r : Aging2Result) : Aging2Result :=
  {| m_num_artificial_vertices := v;
     m_num_vertices_load := m_num_vertices_load r;
     m_num_edges_load := m_num_edges_load r;
     m_num_operations_total := m_num_operations_total r;
     m_num_vertices_final_graph := m_num_vertices_final_graph r;
     m_num_edges_final_graph := m_num_edges_final_graph r;
     m_completion_time := m_completion_time r;
     m_num_build_invocations := m_num_build_invocations r;
     m_reported_times := m_reported_times r;
     m_random_vertex_id := m_random_vertex_id r |}.

Definition with_final_graph (v e : Z) (r : Aging2Result) : Aging2Result :=
  {| m_num_artificial_vertices := m_num_artificial_vertices r;
     m_num_vertices_load := m_num_vertices_load r;
     m_num_edges_load := m_num_edges_load r;
     m_num_operations_total := m_num_operations_total r;
     m_num_vertices_final_graph := v;
     m_num_edges_final_graph := e;
     m_completion_time := m_completion_time r;
     m_num_build_invocations := m_num_build_invocations r;
     m_reported_times := m_reported_times r;
     m_random_vertex_id := m_random_vertex_id r |}.

Definition with_completion_time (v : Z) (r : Aging2Result) : Aging2Result :=
  {| m_num_artificial_vertices := m_num_artificial_vertices r;
     m_num_vertices_load := m_num_vertices_load r;
     m_num_edges_load := m_num_edges_load r;
     m_num_operations_total := m_num_operations_total r;
     m_num_vertices_final_graph := m_num_vertices_final_graph r;
     m_num_edges_final_graph := m_num_edges_final_graph r;
     m_completion_time := v;
     m_num_build_invocations := m_num_build_invocations r;
     m_reported_times := m_reported_times r;
     m_random_vertex_id := m_random_vertex_id r |}.

Definition with_num_build_invocations (v : Z) (r : Aging2Result) : Aging2Result :=
  {| m_num_artificial_vertices := m_num_artificial_vertices r;
     m_num_vertices_load := m_num_vertices_load r;
     m_num_edges_load := m_num_edges_load r;
     m_num_operations_total := m_num_operations_total r;
     m_num_vertices_final_graph := m_num_vertices_final_graph r;
     m_num_edges_final_graph := m_num_edges_final_graph r;
     m_completion_time := m_completion_time r;
     m_num_build_invocations := v;
     m_reported_times := m_reported_times r;
     m_random_vertex_id := m_random_vertex_id r |}.

Definition with_reported_times (v : list Z) (r : Aging2Result) : Aging2Result :=
  {| m_num_artificial_vertices := m_num_artificial_vertices r;
     m_num_vertices_load := m_num_vertices_load r;
     m_num_edges_load := m_num_edges_load r;
     m_num_operations_total := m_num_operations_total r;
     m_num_vertices_final_graph := m_num_vertices_final_graph r;
     m_num_edges_final_graph := m_num_edges_final_graph r;
     m_completion_time := m_completion_time r;
     m_num_build_invocations := m_num_build_invocations r;
     m_reported_times := v;
     m_random_vertex_id := m_random_vertex_id r |}.

Definition with_random_vertex_id (v : Z) (r : Aging2Result) : Aging2Result :=
  {| m_num_artificial_vertices := m_num_artificial_vertices r;
     m_num_vertices_load := m_num_vertices_load r;
     m_num_edges_load := m_num_edges_load r;
     m_num_operations_total := m_num_operations_total r;
     m_num_vertices_final_graph := m_num_vertices_final_graph r;
     m_num_edges_final_graph := m_num_edges_final_graph r;
     m_completion_time := m_completion_time r;
     m_num_build_invocations := m_num_build_invocations r;
     m_reported_times := m_reported_times r;
     m_random_vertex_id := v |}.
End Result.

(** *** What the master's thread does to its collaborators *)

(** The text sent to the log or to [cout], one item per [<<]. *)
Inductive token :=
| Str (s : string)
| Num (n : Z)
| Dbl (x : float)
| Elapsed.   (* a [Timer] printed: the elapsed time, unknown to the model *)

Inductive timer := InitWorkers | LoadEdges | Experiment | RemoveVertices.
Inductive section := EDGES | VTX_TEMP.

Inductive event :=
(* library::UpdateInterface *)
| is_directed
| on_main_init (num_threads : Z)
| on_main_destroy
| on_thread_init (thread_id : Z)
| on_thread_destroy (thread_id : Z)
| build
| num_vertices
| num_edges
(* Aging2Worker *)
| worker_new (worker_id : Z)
| worker_delete (worker_id : Z)
| worker_load_edges (worker_id : Z) (num_edges : Z)
| worker_execute_updates (worker_id : Z)
| worker_remove_vertices (worker_id : Z) (num_vertices : Z)
| worker_wait (worker_id : Z)
(* BuildThread *)
| build_service_new (thread_id : Z) (frequency : Z)
| build_service_stop
| build_service_num_invocations
| build_service_delete
(* reader::graphlog *)
| parse_properties
| set_marker (s : section)
| loader_load
(* common::Timer *)
| timer_start (t : timer)
| timer_stop (t : timer)
| timer_microseconds (t : timer)
(* output *)
| LOG (msg : list token)
| cout (line : list token).

(** What the collaborators answer during one run.  The workers
    ([aging2_worker.cpp]) are not among the sources: what they do to the
    master's shared members while they execute the updates is taken as given,
    namely the slots of [m_reported_times] they stamp, in order, and the value
    they leave in [m_last_time_reported]. *)
Record Env := {
  lib_is_directed : bool;
  lib_num_vertices : Z;
  lib_num_edges : Z;
  log_properties : LogProperties;
  log_edges : list (list WeightedEdge);
  log_vtx_temp : list Z;
  worker_stamps : list (nat * Z);
  worker_last_time_reported : Z;
  experiment_microseconds : Z;
  build_invocations : Z;
}.

(** *** The master object and the state of a run *)

Module Master.
Record Aging2Master := {
  m_parameters : Aging2Experiment;
  m_is_directed : bool;
  m_results : Result.Aging2Result;
  m_workers : list Z;
  m_reported_times : list Z;       (* the heap array [new uint64_t[n]()] *)
  m_last_progress_reported : Z;
  m_last_time_reported : Z;
}.

Definition set_results (f : Result.Aging2Result -> Result.Aging2Result)
  (m : Aging2Master) : Aging2Master :=
  {| m_parameters := m_parameters m; m_is_directed := m_is_directed m;
     m_results := f (m_results m); m_workers := m_workers m;
     m_reported_times := m_reported_times m;
     m_last_progress_reported := m_last_progress_reported m;
     m_last_time_reported := m_last_time_reported m |}.

Definition set_workers (ws : list Z) (m : Aging2Master) : Aging2Master :=
  {| m_parameters := m_parameters m; m_is_directed := m_is_directed m;
     m_results := m_results m; m_workers := ws;
     m_reported_times := m_reported_times m;
     m_last_progress_reported := m_last_progress_reported m;
     m_last_time_reported := m_last_time_reported m |}.

Definition set_reported_times (buf : list Z) (m : Aging2Master) : Aging2Master :=
  {| m_parameters := m_parameters m; m_is_directed := m_is_directed m;
     m_results := m_results m; m_workers := m_workers m;
     m_reported_times := buf;
     m_last_progress_reported := m_last_progress_reported m;
     m_last_time_reported := m_last_time_reported m |}.

Definition set_progress (progress time : Z) (m : Aging2Master) : Aging2Master :=
  {| m_parameters := m_parameters m; m_is_directed := m_is_directed m;
     m_results := m_results m; m_workers := m_workers m;
     m_reported_times := m_reported_times m;
     m_last_progress_reported := progress;
     m_last_time_reported := time |}.
End Master.
Import Master.

Record World := {
  self : Aging2Master;
  trace : list event;
}.

(** A computation on the master: it may fault (undefined behaviour of the
    source: an index outside an array, a conversion out of range). *)
Definition M (A : Type) : Type := World -> option (A * World).

Definition ret {A} (a : A) : M A := fun w => Some (a, w).
Definition bind {A B} (c : M A) (k : A -> M B) : M B :=
  fun w => match c w with Some (a, w') => k a w' | None => None end.
Definition fault {A} : M A := fun _ => None.
Definition get : M Aging2Master := fun w => Some (self w, w).
Definition modify (f : Aging2Master -> Aging2Master) : M unit :=
  fun w => Some (tt, {| self := f (self w); trace := trace w |}).
Definition emit (e : event) : M unit :=
  fun w => Some (tt, {| self := self w; trace := trace w ++ [e] |}).
Definition lift {A} (o : option A) : M A :=
  match o with Some a => ret a | None => fault end.

Notation "x <- c ;; k" := (bind c (fun x => k))
  (at level 100, c at next level, right associativity).
Notation "c ;; k" := (bind c (fun _ => k))
  (at level 100, right associativity).

(** [for(auto w: m_workers) ...] *)
Fixpoint for_each {A} (l : list A) (body : A -> M unit) : M unit :=
  match l with
  | [] => ret tt
  | a :: l' => body a ;; for_each l' body
  end.

Definition uint64 (z : Z) : Z := z mod 2 ^ 64.

(** *** Init *)

Definition num_operations_total (m : Aging2Master) : Z :=
  Result.m_num_operations_total (m_results m).

Definition num_edges_final_graph (m : Aging2Master) : Z :=
  Result.m_num_edges_load (m_results m).

(** The number of slots of [m_reported_times], line 76:
    [static_cast<uint64_t>(::ceil(static_cast<double>(num_operations_total())
    / num_edges_final_graph()) + 1)]. *)
Definition reported_times_capacity (m : Aging2Master) : option Z :=
  Cxx.to_uint64
    (Cxx.ceil (Cxx.double_of_Z (num_operations_total m)
                / Cxx.double_of_Z (num_edges_final_graph m)) + 1)%float.

Definition init_workers : M unit :=
  m <- get ;;
  emit (timer_start InitWorkers) ;;
  emit (LOG [Str "[Aging2] Initialising "; Num (m_num_threads (m_parameters m));
             Str " worker threads ... "]) ;;
  for_each (seqZ 0 (m_num_threads (m_parameters m)))
    (fun worker_id =>
       emit (worker_new worker_id) ;;
       modify (fun m => set_workers (m_workers m ++ [worker_id]) m)) ;;
  emit (LOG [Str "[Aging2] Workers initialised in "; Elapsed]).

(** [Aging2Master::Aging2Master]. *)
Definition constructor (env : Env) : M unit :=
  emit parse_properties ;;
  modify (set_results (Result.with_properties (log_properties env))) ;;
  m <- get ;;
  n <- lift (reported_times_capacity m) ;;
  modify (set_reported_times (replicate (Z.to_nat n) 0)) ;;
  emit (on_main_init (Cxx.to_int (uint64 (m_num_threads (m_parameters m) + 2)))) ;;
  init_workers ;;
  emit (on_thread_init (Cxx.to_int (m_num_threads (m_parameters m)))).

(** The object before the body of the constructor runs: the member
    initialisers have asked the library whether the graph is directed. *)
Definition initial (env : Env) (parameters : Aging2Experiment) : World :=
  {| self := {| m_parameters := parameters;
                m_is_directed := lib_is_directed env;
                m_results := Result.fresh;
                m_workers := [];
                m_reported_times := [];
                m_last_progress_reported := 0;
                m_last_time_reported := 0 |};
     trace := [is_directed] |}.

(** [Aging2Master::~Aging2Master]. *)
Definition destructor : M unit :=
  m <- get ;;
  for_each (m_workers m) (fun w => emit (worker_delete w)) ;;
  modify (set_workers []) ;;
  emit (on_thread_destroy (Cxx.to_int (m_num_threads (m_parameters m)))) ;;
  emit on_main_destroy ;;
  modify (set_reported_times []).

(** *** Experiment *)

(** [while(i < num_edges && weights[i] <= 0) i++]; at most [num_edges]
    iterations. *)
Fixpoint skip_deletions (fuel : nat) (weights : list float) (num_edges i : nat) : nat :=
  match fuel with
  | O => i
  | S fuel' =>
      if (i <? num_edges)%nat then
        match weights !! i with
        | Some w => if (w <=? 0)%float
                    then skip_deletions fuel' weights num_edges (S i)
                    else i
        | None => i
        end
      else i
  end.

(** [Aging2Master::set_random_vertex_id]. *)
Definition set_random_vertex_id (edges : list WeightedEdge) (num_edges : nat) : M unit :=
  let sources := source <$> edges in
  let weights := weight <$> edges in
  let i := skip_deletions num_edges weights num_edges 0 in
  if (i <? num_edges)%nat then
    v <- lift (sources !! i) ;;
    modify (set_results (Result.with_random_vertex_id v))
  else ret tt.

(** The loop of [load_edges]: [array1] is the block just read; the loop ends
    when the loader returns 0, at the end of the section or on an empty
    block. *)
Fixpoint load_edges_loop (blocks : list (list WeightedEdge)) : M unit :=
  match blocks with
  | [] => ret tt
  | array1 :: blocks' =>
      let num_edges := length array1 in
      if (0 <? num_edges)%nat then
        m <- get ;;
        for_each (m_workers m)
          (fun w => emit (worker_load_edges w (Z.of_nat num_edges))) ;;
        (if Result.m_random_vertex_id (m_results m) =? 0
         then set_random_vertex_id array1 num_edges else ret tt) ;;
        emit loader_load ;;
        for_each (m_workers m) (fun w => emit (worker_wait w)) ;;
        load_edges_loop blocks'
      else ret tt
  end.

(** [Aging2Master::load_edges]. *)
Definition load_edges (env : Env) : M unit :=
  m <- get ;;
  emit (LOG [Str "[Aging2] Loading the sequence of updates to perform from ";
             Str (m_path_log (m_parameters m)); Str " ..."]) ;;
  emit (timer_start LoadEdges) ;;
  emit parse_properties ;;
  emit (set_marker EDGES) ;;
  emit loader_load ;;
  load_edges_loop (log_edges env) ;;
  emit (timer_stop LoadEdges) ;;
  emit (LOG [Str "[Aging2] Graphlog loaded in "; Elapsed]).

(** A worker stamps slot [i] of the master's array; outside the array the
    write is undefined. *)
Definition stamp (buf : list Z) (s : nat * Z) : option (list Z) :=
  if decide (s.1 < length buf)%nat then Some (<[s.1 := s.2]> buf) else None.

Fixpoint stamps (buf : list Z) (l : list (nat * Z)) : option (list Z) :=
  match l with
  | [] => Some buf
  | s :: l' => match stamp buf s with
               | Some buf' => stamps buf' l'
               | None => None
               end
  end.

(** What the workers have done to the shared members once [wait] has
    returned for each of them. *)
Definition workers_have_run (env : Env) : M unit :=
  m <- get ;;
  buf <- lift (stamps (m_reported_times m) (worker_stamps env)) ;;
  modify (set_reported_times buf) ;;
  modify (fun m => set_progress (m_last_progress_reported m)
                     (worker_last_time_reported env) m).

(** [Aging2Master::do_run_experiment]. *)
Definition do_run_experiment (env : Env) : M unit :=
  emit (LOG [Str "[Aging2] Experiment started ..."]) ;;
  modify (set_progress 0 0) ;;
  m <- get ;;
  let thread_id := Cxx.to_int (m_num_threads (m_parameters m)) + 1 in
  (if thread_id <? 2 ^ 31 then ret tt else fault) ;;
  emit (build_service_new thread_id (m_build_frequency (m_parameters m))) ;;
  emit (timer_start Experiment) ;;
  for_each (m_workers m) (fun w => emit (worker_execute_updates w)) ;;
  for_each (m_workers m) (fun w => emit (worker_wait w)) ;;
  workers_have_run env ;;
  emit build_service_stop ;;
  emit build ;;
  emit (timer_stop Experiment) ;;
  emit (LOG [Str "[Aging2] Experiment completed!"]) ;;
  emit (LOG [Str "[Aging2] Updates performed with ";
             Num (m_num_threads (m_parameters m)); Str " threads in "; Elapsed]) ;;
  emit (timer_microseconds Experiment) ;;
  modify (set_results (Result.with_completion_time (experiment_microseconds env))) ;;
  emit build_service_num_invocations ;;
  modify (set_results (Result.with_num_build_invocations (build_invocations env))) ;;
  emit build_service_delete.

(** [Aging2Master::remove_vertices]. *)
Definition remove_vertices (env : Env) : M unit :=
  emit (LOG [Str "[Aging2] Removing the list of temporary vertices ..."]) ;;
  emit (timer_start RemoveVertices) ;;
  emit parse_properties ;;
  let num_vertices := internal_vertices_temporary_cardinality (log_properties env) in
  emit (set_marker VTX_TEMP) ;;
  emit loader_load ;;
  modify (set_results (Result.with_num_artificial_vertices num_vertices)) ;;
  m <- get ;;
  for_each (m_workers m) (fun w => emit (worker_remove_vertices w num_vertices)) ;;
  for_each (m_workers m) (fun w => emit (worker_wait w)) ;;
  emit build ;;
  let r := m_results m in
  emit (LOG [Str "[Aging2] Number of extra vertices: ";
             Num (Result.m_num_artificial_vertices r);
             Str ", expansion factor: ";
             Dbl (Cxx.double_of_Z (uint64 (Result.m_num_artificial_vertices r
                                            + Result.m_num_vertices_final_graph r))
                  / Cxx.double_of_Z (Result.m_num_vertices_final_graph r))%float]) ;;
  emit (timer_stop RemoveVertices) ;;
  emit (LOG [Str "[Aging2] Temporary vertices removed in "; Elapsed]).

(** The loop of [store_results]: [push_back(m_reported_times[i])] for
    [i] in [[0, sz)]; reading past the array is undefined. *)
Fixpoint copy_reported_times (buf : list Z) (i : nat) (count : nat) (out : list Z)
  : option (list Z) :=
  match count with
  | O => Some out
  | S count' =>
      match buf !! i with
      | Some t => copy_reported_times buf (S i) count' (out ++ [t])
      | None => None
      end
  end.

(** [Aging2Master::store_results]. *)
Definition store_results (env : Env) : M unit :=
  emit num_vertices ;;
  emit num_edges ;;
  modify (set_results (Result.with_final_graph (lib_num_vertices env) (lib_num_edges env))) ;;
  m <- get ;;
  let sz := uint64 (m_last_time_reported m) in
  out <- lift (copy_reported_times (m_reported_times m) 0 (Z.to_nat sz)
                 (Result.m_reported_times (m_results m))) ;;
  modify (set_results (Result.with_reported_times out)).

(** [Aging2Master::log_num_vtx_edges]: one line on the standard output. *)
Definition log_num_vtx_edges : M unit :=
  m <- get ;;
  let r := m_results m in
  emit (cout
    ([Str "[Aging2] Number of stored vertices: ";
      Num (Result.m_num_vertices_final_graph r); Str " [match: "]
     ++ (if Result.m_num_vertices_load r =? Result.m_num_vertices_final_graph r
         then [Str "yes"]
         else [Str "no, expected "; Num (Result.m_num_vertices_load r)])
     ++ [Str "], number of stored edges: ";
         Num (Result.m_num_edges_final_graph r); Str " [match: "]
     ++ (if Result.m_num_edges_load r =? Result.m_num_edges_final_graph r
         then [Str "yes"]
         else [Str "no, expected "; Num (Result.m_num_edges_load r)])
     ++ [Str "]"])).

(** [Aging2Master::execute]. *)
Definition execute (env : Env) : M Result.Aging2Result :=
  load_edges env ;;
  do_run_experiment env ;;
  remove_vertices env ;;
  store_results env ;;
  log_num_vtx_edges ;;
  m <- get ;;
  ret (m_results m).

(** One experiment: the master is created, executed once and destroyed. *)
Definition run (env : Env) (parameters : Aging2Experiment)
  : option (Result.Aging2Result * World) :=
  (constructor env ;;
   r <- execute env ;;
   destructor ;;
   ret r) (initial env parameters).

End Aging2.

(** ** The undirected-update test ([src/tests/test_updates_undirected.cpp]) *)

Module TestUpdates.

Import Aging2 (WeightedEdge, source, destination, weight, uint64).

(** [for(uint64_t j = i + 2; j < max_vector_id; j += 2)], entered with [j];
    the counter is below [max_vector_id] at each iteration, so
    [max_vector_id] iterations are never exceeded. *)
Fixpoint generate_inner (fuel : nat) (max_vector_id i j : Z)
  (edges : list WeightedEdge) : list WeightedEdge :=
  match fuel with
  | O => edges
  | S fuel' =>
      if j <? max_vector_id then
        generate_inner fuel' max_vector_id i (uint64 (j + 2))
          (edges ++ [{| source := i; destination := j;
                        weight := Cxx.double_of_Z (uint64 (j * 1000 + i)) |}])
      else edges
  end.

(** [for(uint64_t i = 1; i < max_vector_id; i++)], entered with [i]. *)
Fixpoint generate_outer (fuel : nat) (max_vector_id i : Z)
  (edges : list WeightedEdge) : list WeightedEdge :=
  match fuel with
  | O => edges
  | S fuel' =>
      if i <? max_vector_id then
        generate_outer fuel' max_vector_id (uint64 (i + 1))
          (generate_inner (Z.to_nat max_vector_id) max_vector_id i
             (uint64 (i + 2)) edges)
      else edges
  end.

(** [generate_edge_stream]; the default bound is 64. *)
Definition generate_edge_stream (max_vector_id : Z) : list WeightedEdge :=
  generate_outer (Z.to_nat max_vector_id) max_vector_id 1 [].

(** What the interface under test answers once [build] has returned. *)
Record Answers := {
  num_edges : Z;
  has_edge : Z -> Z -> bool;
  get_weight : Z -> Z -> float;
}.

(** The body of the inner checking loop of [sequential] for one pair; a
    failed [ASSERT_*] leaves the function, hence the conjunction.
    [expected_value] is a [uint32_t], compared with the [double] weight. *)
Definition check_pair (a : Answers) (i j : Z) : bool :=
  if uint64 (i + j) mod 2 =? 0 then
    let expected_value := uint64 (j * 1000 + i) mod 2 ^ 32 in
    has_edge a i j && has_edge a j i
    && (get_weight a i j =? Cxx.double_of_Z expected_value)%float
    && (get_weight a j i =? Cxx.double_of_Z expected_value)%float
  else
    negb (has_edge a i j) && negb (has_edge a j i).

(** [for(uint64_t j = i + 1; j < edge_list->max_vertex_id(); j++)]. *)
Fixpoint check_inner (fuel : nat) (a : Answers) (max_vertex_id i j : Z) : bool :=
  match fuel with
  | O => true
  | S fuel' =>
      if j <? max_vertex_id then
        check_pair a i j && check_inner fuel' a max_vertex_id i (uint64 (j + 1))
      else true
  end.

(** [for(uint64_t i = 1; i < edge_list->max_vertex_id(); i++)]. *)
Fixpoint check_outer (fuel : nat) (a : Answers) (max_vertex_id i : Z) : bool :=
  match fuel with
  | O => true
  | S fuel' =>
      if i <? max_vertex_id then
        check_inner (Z.to_nat max_vertex_id) a max_vertex_id i (uint64 (i + 1))
        && check_outer fuel' a max_vertex_id (uint64 (i + 1))
      else true
  end.

(** Lines 83 to 97 of [sequential]: true when no assertion fails.  The edge
    stream class is not among the sources: the number of its edges and its
    [max_vertex_id()] are parameters. *)
Definition check_all_edges_inserted (a : Answers)
  (edge_list_num_edges max_vertex_id : Z) : bool :=
  (num_edges a =? edge_list_num_edges)
  && check_outer (Z.to_nat max_vertex_id) a max_vertex_id 1.

(** The calls of the test on the interface, the queries apart. *)
Inductive call :=
| on_main_init (num_threads : Z)
| on_thread_init (thread_id : Z)
| on_thread_destroy (thread_id : Z)
| on_main_destroy
| add_vertex (v : Z)
| remove_vertex (v : Z)
| add_edge (e : WeightedEdge)
| remove_edge (src dst : Z)
| build.

(** [if((edge.m_source + edge.m_destination) % modulus == 0)
    swap(edge.m_source, edge.m_destination)]. *)
Definition swap_if_multiple (modulus : Z) (e : WeightedEdge) : WeightedEdge :=
  if uint64 (source e + destination e) mod modulus =? 0
  then {| source := destination e; destination := source e; weight := weight e |}
  else e.

(** The insertion loop of [sequential] over the edges in the order the
    shuffled stream yields them; [vertices_contained] is the
    [unordered_set], whose [insert] tells whether the vertex was absent. *)
Fixpoint insert_edges (edge_list : list WeightedEdge) (vertices_contained : gset Z)
  : list call * gset Z :=
  match edge_list with
  | [] => ([], vertices_contained)
  | edge :: edge_list' =>
      let p1 := bool_decide (source edge ∉ vertices_contained) in
      let vertices_contained := {[source edge]} ∪ vertices_contained in
      let p2 := bool_decide (destination edge ∉ vertices_contained) in
      let vertices_contained := {[destination edge]} ∪ vertices_contained in
      let '(calls, final) := insert_edges edge_list' vertices_contained in
      ((if p1 then [add_vertex (source edge)] else [])
       ++ (if p2 then [add_vertex (destination edge)] else [])
       ++ add_edge (swap_if_multiple 2 edge) :: calls,
       final)
  end.

(** The removal loop of [sequential]. *)
Definition remove_edges (edge_list : list WeightedEdge) : list call :=
  (fun edge => let e := swap_if_multiple 3 edge in
               remove_edge (source e) (destination e)) <$> edge_list.

(** [for(uint64_t j = i + 1; j < max_vertex_id; j++)] of the check that
    follows the removals. *)
Fixpoint check_removed_inner (fuel : nat) (a : Answers) (max_vertex_id i j : Z) : bool :=
  match fuel with
  | O => true
  | S fuel' =>
      if j <? max_vertex_id then
        negb (has_edge a i j) && negb (has_edge a j i)
        && check_removed_inner fuel' a max_vertex_id i (uint64 (j + 1))
      else true
  end.

Fixpoint check_removed_outer (fuel : nat) (a : Answers) (max_vertex_id i : Z) : bool :=
  match fuel with
  | O => true
  | S fuel' =>
      if i <? max_vertex_id then
        check_removed_inner (Z.to_nat max_vertex_id) a max_vertex_id i (uint64 (i + 1))
        && check_removed_outer fuel' a max_vertex_id (uint64 (i + 1))
      else true
  end.

(** Lines 113 to 120 of [sequential]. *)
Definition check_all_edges_removed (a : Answers) (max_vertex_id : Z) : bool :=
  (num_edges a =? 0) && check_removed_outer (Z.to_nat max_vertex_id) a max_vertex_id 1.

(** [sequential]: the calls issued and whether every assertion held.
    [inserted] and [removed] are the edges in the order of the stream after
    the first and after the second [permute]; [after_insert] and
    [after_remove] are what the interface answers after the two [build].  A
    failed [ASSERT_*] returns from the function. *)
Definition sequential (inserted removed : list WeightedEdge) (max_vertex_id : Z)
  (after_insert after_remove : Answers) (deletions : bool) : list call * bool :=
  let calls :=
    [on_main_init 1; on_thread_init 0]
    ++ (insert_edges inserted ∅).1 ++ [build] in
  if negb (check_all_edges_inserted after_insert
             (Z.of_nat (length inserted)) max_vertex_id)
  then (calls, false)
  else if deletions then
    let calls := calls ++ remove_edges removed ++ [build] in
    if negb (check_all_edges_removed after_remove max_vertex_id)
    then (calls, false)
    else (calls ++ [on_thread_destroy 0; on_main_destroy], true)
  else (calls ++ [on_thread_destroy 0; on_main_destroy], true).

(** The loop of [parallel] that starts the threads: each gets its
    identifier, the position [start] and a [length]. *)
Fixpoint start_threads (fuel : nat) (num_threads thread_id : Z)
  (per_thread odd_threads start : Z) : list (Z * Z * Z) :=
  match fuel with
  | O => []
  | S fuel' =>
      if thread_id <? num_threads then
        let length :=
          uint64 (per_thread + (if thread_id <? odd_threads then 1 else 0)) in
        (thread_id, start, length)
        :: start_threads fuel' num_threads (thread_id + 1) per_thread odd_threads
             (uint64 (start + length))
      else []
  end.

(** The threads [parallel] starts to share [total] positions. *)
Definition threads_of (total num_threads : Z) : list (Z * Z * Z) :=
  start_threads (Z.to_nat num_threads) num_threads 0
    (total / num_threads) (total mod num_threads) 0.

(** A [uint64_t] read as an [int64_t]. *)
Definition int64 (z : Z) : Z := (z + 2 ^ 63) mod 2 ^ 64 - 2 ^ 63.

(** [for(int64_t pos = start, end = start + length; pos < end; pos++)]: the
    positions a thread goes through. *)
Definition positions (thread : Z * Z * Z) : list Z :=
  let pos := int64 thread.1.2 in
  let end_ := int64 (uint64 (thread.1.2 + thread.2)) in
  seqZ pos (end_ - pos).

End TestUpdates.

(** ** The RPC server ([src/network/server.cpp]) *)

Module Network.

(** *** Signal handling *)

Inductive signal := SIGTERM | SIGINT.

(** A [struct sigaction], as far as the handler it names. *)
Inductive sigaction_t :=
| sa_zero                        (* a zero-initialised structure *)
| sa_previous (n : nat)          (* an action installed by someone else *)
| sa_signal_handler_execute.     (* [&signal_handler_execute], [SA_SIGINFO] *)

(** The request types the handler dispatches on; [message.hpp] is not among
    the sources, any other value of the enumeration is [other]. *)
Inductive RequestType :=
| TERMINATE_WORKER | TERMINATE_SERVER | TERMINATE_ON_LAST_CONNECTION
| LIBRARY_NAME
| ON_MAIN_INIT | ON_THREAD_INIT | ON_THREAD_DESTROY | ON_MAIN_DESTROY
| NUM_EDGES | NUM_VERTICES | IS_DIRECTED
| HAS_VERTEX | HAS_EDGE | GET_WEIGHT
| LOAD
| ADD_VERTEX | REMOVE_VERTEX | ADD_EDGE | REMOVE_EDGE
| DUMP_CLIENT
| BFS | PAGERANK | WCC | CDLP | LCC | SSSP
| other (code : Z).

Inductive ResponseType := OK | NOT_SUPPORTED | ERROR.

(** The items of a message, one per [<<]. *)
Inductive token :=
| Str (s : string)
| Num (n : Z)
| Ptr (p : option nat)
| Ty (t : RequestType).

(** The process-wide state: the three statics of the file, the actions the
    kernel holds for the two signals, the descriptors closed so far and the
    lines written to [cerr].  [sigaction_rc] is what [::sigaction] returns
    for a signal; a call that fails changes nothing. *)
Record Process := {
  g_server_instance : option nat;       (* [nullptr] is [None] *)
  g_sigaction_term : sigaction_t;
  g_sigaction_interrupt : sigaction_t;
  action : signal -> sigaction_t;
  sigaction_rc : signal -> Z;
  closed : list Z;
  cerr : list (list token);
}.

Definition set_g_server_instance (g : option nat) (p : Process) : Process :=
  {| g_server_instance := g; g_sigaction_term := g_sigaction_term p;
     g_sigaction_interrupt := g_sigaction_interrupt p; action := action p;
     sigaction_rc := sigaction_rc p; closed := closed p; cerr := cerr p |}.

Definition set_saved (sig : signal) (old : sigaction_t) (p : Process) : Process :=
  {| g_server_instance := g_server_instance p;
     g_sigaction_term :=
       match sig with SIGTERM => old | SIGINT => g_sigaction_term p end;
     g_sigaction_interrupt :=
       match sig with SIGINT => old | SIGTERM => g_sigaction_interrupt p end;
     action := action p;
     sigaction_rc := sigaction_rc p; closed := closed p; cerr := cerr p |}.

Definition set_action (sig : signal) (act : sigaction_t) (p : Process) : Process :=
  {| g_server_instance := g_server_instance p;
     g_sigaction_term := g_sigaction_term p;
     g_sigaction_interrupt := g_sigaction_interrupt p;
     action := fun s => match sig, s with
                        | SIGTERM, SIGTERM | SIGINT, SIGINT => act
                        | _, _ => action p s
                        end;
     sigaction_rc := sigaction_rc p; closed := closed p; cerr := cerr p |}.

Definition close (fd : Z) (p : Process) : Process :=
  {| g_server_instance := g_server_instance p;
     g_sigaction_term := g_sigaction_term p;
     g_sigaction_interrupt := g_sigaction_interrupt p; action := action p;
     sigaction_rc := sigaction_rc p; closed := closed p ++ [fd]; cerr := cerr p |}.

Definition write_cerr (line : list token) (p : Process) : Process :=
  {| g_server_instance := g_server_instance p;
     g_sigaction_term := g_sigaction_term p;
     g_sigaction_interrupt := g_sigaction_interrupt p; action := action p;
     sigaction_rc := sigaction_rc p; closed := closed p; cerr := cerr p ++ [line] |}.

(** [::sigaction(sig, &act, oldact)]: the return code and the new state;
    [save] tells whether [oldact] is one of the statics or [nullptr]. *)
Definition sigaction (sig : signal) (act : sigaction_t) (save : bool)
  (p : Process) : Z * Process :=
  let rc := sigaction_rc p sig in
  if rc =? 0 then
    let p' := if save then set_saved sig (action p sig) p else p in
    (rc, set_action sig act p')
  else (rc, p).

Definition saved (sig : signal) (p : Process) : sigaction_t :=
  match sig with
  | SIGTERM => g_sigaction_term p
  | SIGINT => g_sigaction_interrupt p
  end.

(** A call either returns or throws a [common::Error]; what it did to the
    process before throwing stays done. *)
Inductive result :=
| Returns (p : Process)
| Throws (what : list token) (p : Process).

(** [signal_handler_install]. *)
Definition signal_handler_install (p : Process) : result :=
  let '(rc, p) := sigaction SIGTERM sa_signal_handler_execute true p in
  if negb (rc =? 0) then Throws [Str "sigaction, sigterm [rc: "; Num rc; Str "]"] p
  else
    let '(rc, p) := sigaction SIGINT sa_signal_handler_execute true p in
    if negb (rc =? 0) then Throws [Str "sigaction, sigint"] p
    else Returns p.

(** [signal_handler_uninstall]. *)
Definition signal_handler_uninstall (p : Process) : Process :=
  let '(rc, p) := sigaction SIGTERM (g_sigaction_term p) false p in
  let p := if negb (rc =? 0)
           then write_cerr [Str "ERROR: signal_handler_uninstall, sigaction, sigterm, rc: "; Num rc] p
           else p in
  let '(rc, p) := sigaction SIGINT (g_sigaction_interrupt p) false p in
  if negb (rc =? 0)
  then write_cerr [Str "ERROR: signal_handler_uninstall, sigaction, sigint, rc: "; Num rc] p
  else p.

(** *** Server *)

Record Server := {
  m_port : Z;
  m_server_fd : Z;
  m_server_stop : bool;
  m_terminate_on_last_connection : bool;
  m_num_active_connections : Z;
}.

Definition set_server_fd (fd : Z) (s : Server) : Server :=
  {| m_port := m_port s; m_server_fd := fd; m_server_stop := m_server_stop s;
     m_terminate_on_last_connection := m_terminate_on_last_connection s;
     m_num_active_connections := m_num_active_connections s |}.

Definition set_server_stop (b : bool) (s : Server) : Server :=
  {| m_port := m_port s; m_server_fd := m_server_fd s; m_server_stop := b;
     m_terminate_on_last_connection := m_terminate_on_last_connection s;
     m_num_active_connections := m_num_active_connections s |}.

Definition set_terminate_on_last_connection (b : bool) (s : Server) : Server :=
  {| m_port := m_port s; m_server_fd := m_server_fd s;
     m_server_stop := m_server_stop s;
     m_terminate_on_last_connection := b;
     m_num_active_connections := m_num_active_connections s |}.

(** [Server::~Server], run on the object at address [this]. *)
Definition destructor (this : nat) (s : Server) (p : Process) : Server * Process :=
  let '(s, p) :=
    if 0 <=? m_server_fd s
    then (set_server_fd (-1) s, close (m_server_fd s) p)
    else (s, p) in
  if decide (g_server_instance p = Some this)
  then (s, signal_handler_uninstall (set_g_server_instance None p))
  else (s, p).

(** [Server::stop]. *)
Definition stop (s : Server) : Server := set_server_stop true s.

(** [Server::handle_signals], run on the object at address [this]. *)
Definition handle_signals (this : nat) (p : Process) : result :=
  if decide (g_server_instance p = Some this) then Returns p
  else if decide (g_server_instance p <> None) then
    Throws [Str "A signal handler is already installed for another instance of this class: ";
            Ptr (g_server_instance p)] p
  else signal_handler_install (set_g_server_instance (Some this) p).

(** [signal_handler_execute], the servers of the process being given by
    their addresses.  With the assertion compiled in, a signal that finds no
    server registered ends the process; without it, or when the pointer
    dangles, the call [g_server_instance->stop()] has no defined behaviour:
    both are [None]. *)
Definition signal_handler_execute (p : Process) (servers : gmap nat Server)
  : option (gmap nat Server) :=
  match g_server_instance p with
  | None => None
  | Some a =>
      match servers !! a with
      | Some s => Some (<[a := stop s]> servers)
      | None => None
      end
  end.

(** *** Connection handler *)

(** An argument of a response. *)
Inductive arg :=
| U64 (n : Z)
| I64 (n : Z)
| Bool (b : bool)
| Text (s : string)
| What (e : list token).      (* the text of a [common::Error] *)

Record Response := {
  response_type : ResponseType;
  response_args : list arg;
}.

(** The request in the read buffer, through its typed accessors. *)
Record Request := {
  type : RequestType;
  get : nat -> Z;                 (* [get(i)], a [uint64_t] *)
  get_int : nat -> Z;             (* [get<int>(i)] *)
  get_double : nat -> float;      (* [get<double>(i)] *)
  get_string : nat -> string;     (* [get_string(i)] *)
}.

(** The calls the handler issues on the library. *)
Inductive call :=
| on_main_init (n : Z) | on_thread_init (n : Z) | on_thread_destroy (n : Z)
| on_main_destroy
| num_edges | num_vertices | is_directed
| has_vertex (v : Z) | has_edge (s d : Z) | get_weight (s d : Z)
| load (path : string)
| add_vertex (v : Z) | remove_vertex (v : Z)
| add_edge (s d : Z) (w : float) | remove_edge (s d : Z)
| dump_ostream
| bfs (src : Z) (path : option string)
| pagerank (iterations : Z) (damping : float) (path : option string)
| wcc (path : option string)
| cdlp (iterations : Z) (path : option string)
| lcc (path : option string)
| sssp (src : Z) (path : option string).

(** What is thrown: a [common::Error] with its text, the one type that the
    [catch] clause of [handle_request] names, or an exception of another
    type. *)
Inductive exception :=
| common_Error (what : list token)
| not_a_common_Error.

(** The library behind [m_interface]: which of the derived interfaces the
    object implements (whether the [dynamic_cast] yields a non-null pointer),
    and what it answers to a call: it may throw, an exception of any type, else
    it returns a value of the type of the method. *)
Record Interface := {
  is_LoaderInterface : bool;
  is_UpdateInterface : bool;
  is_GraphalyticsInterface : bool;
  raises : call -> option exception;
  returns_uint64 : call -> Z;
  returns_bool : call -> bool;
  returns_double : call -> float;
  returns_text : call -> string;
}.

(** How the size of the message built in [m_buffer_write], an array taken to
    hold [buffer_sz] bytes, compares with [buffer_sz]. *)
Inductive message_size :=
| below_buffer_sz
| equal_to_buffer_sz
| above_buffer_sz.                 (* the message is stored past the array *)

(** What [::send] returns. *)
Inductive send_result :=
| message_sz_bytes                 (* the size of the message *)
| fewer_bytes                      (* a smaller number, not -1 *)
| minus_one.

(** What a call of [::send] meets: [message.hpp] is not among the sources, so
    the size of the message to send is told with the result of the call. *)
Record Delivery := {
  outgoing_sz : message_size;
  bytes_sent : send_result;
}.

(** The state a request handler works on: its own flag, the flags of the
    server it points to, the responses sent to the peer whole and in part,
    the calls issued on the library, the log, and what the calls of [::send]
    to come meet, the next one first. *)
Record Handler := {
  m_terminate : bool;
  m_instance : Server;
  sent : list Response;
  sent_in_part : list Response;
  invoked : list call;
  log : list (list token);
  deliveries : nat -> Delivery;
}.

Definition set_terminate (b : bool) (h : Handler) : Handler :=
  {| m_terminate := b; m_instance := m_instance h; sent := sent h;
     sent_in_part := sent_in_part h;
     invoked := invoked h; log := log h; deliveries := deliveries h |}.

Definition set_instance (f : Server -> Server) (h : Handler) : Handler :=
  {| m_terminate := m_terminate h; m_instance := f (m_instance h); sent := sent h;
     sent_in_part := sent_in_part h;
     invoked := invoked h; log := log h; deliveries := deliveries h |}.

Definition push_sent (r : Response) (h : Handler) : Handler :=
  {| m_terminate := m_terminate h; m_instance := m_instance h;
     sent := sent h ++ [r]; sent_in_part := sent_in_part h;
     invoked := invoked h; log := log h; deliveries := deliveries h |}.

Definition push_sent_in_part (r : Response) (h : Handler) : Handler :=
  {| m_terminate := m_terminate h; m_instance := m_instance h;
     sent := sent h; sent_in_part := sent_in_part h ++ [r];
     invoked := invoked h; log := log h; deliveries := deliveries h |}.

Definition push_invoked (c : call) (h : Handler) : Handler :=
  {| m_terminate := m_terminate h; m_instance := m_instance h; sent := sent h;
     sent_in_part := sent_in_part h;
     invoked := invoked h ++ [c]; log := log h; deliveries := deliveries h |}.

Definition push_log (l : list token) (h : Handler) : Handler :=
  {| m_terminate := m_terminate h; m_instance := m_instance h; sent := sent h;
     sent_in_part := sent_in_part h;
     invoked := invoked h; log := log h ++ [l]; deliveries := deliveries h |}.

(** A call of [::send] has been made. *)
Definition next_delivery (h : Handler) : Handler :=
  {| m_terminate := m_terminate h; m_instance := m_instance h; sent := sent h;
     sent_in_part := sent_in_part h;
     invoked := invoked h; log := log h;
     deliveries := fun k => deliveries h (S k) |}.

(** The next message to send is below [buffer_sz] and [::send] sends it
    whole. *)
Definition send_ok (h : Handler) : bool :=
  match deliveries h 0 with
  | {| outgoing_sz := below_buffer_sz; bytes_sent := message_sz_bytes |} => true
  | _ => false
  end.

(** A step of the handler returns, throws, is stopped by an [assert] that
    fails, or has no defined behaviour. *)
Inductive outcome (A : Type) :=
| Return (a : A) (h : Handler)
| Throw (what : exception) (h : Handler)
| Abort (h : Handler)
| Undefined.
Arguments Return {A} a h.
Arguments Throw {A} what h.
Arguments Abort {A} h.
Arguments Undefined {A}.

Definition H (A : Type) : Type := Handler -> outcome A.

Definition hret {A} (a : A) : H A := fun h => Return a h.
Definition hbind {A B} (c : H A) (k : A -> H B) : H B :=
  fun h => match c h with
           | Return a h' => k a h'
           | Throw e h' => Throw e h'
           | Abort h' => Abort h'
           | Undefined => Undefined
           end.
Definition raise {A} (e : exception) : H A := fun h => Throw e h.
(** [ERROR(what)] and [ERROR_ERRNO(what)]. *)
Definition throw {A} (what : list token) : H A := raise (common_Error what).
Definition update (f : Handler -> Handler) : H unit := fun h => Return tt (f h).
(** [try { body } catch(common::Error& e) { handler }]. *)
Definition try_catch (body : H unit) (handler : list token -> H unit) : H unit :=
  fun h => match body h with
           | Throw (common_Error what) h' => handler what h'
           | r => r
           end.

Notation "x <~ c ;; k" := (hbind c (fun x => k))
  (at level 100, c at next level, right associativity).
Notation "c ;;; k" := (hbind c (fun _ => k))
  (at level 100, right associativity).

(** [send_message]: [NDEBUG] tells whether the [assert]s are compiled out. *)
Definition send_message (NDEBUG : bool) (r : Response) : H unit :=
  fun h =>
    let bytes_sent := bytes_sent (deliveries h 0) in
    let h := next_delivery h in
    match bytes_sent with
    | minus_one => throw [Str "send_response, connection error"] h
    | fewer_bytes =>
        if NDEBUG then Return tt (push_sent_in_part r h)
        else Abort (push_sent_in_part r h)
    | message_sz_bytes => Return tt (push_sent r h)
    end.

(** [response(type, args...)]: the message is built in [m_buffer_write], its
    size is checked, and it is sent. *)
Definition response (NDEBUG : bool) (t : ResponseType) (args : list arg) : H unit :=
  fun h =>
    let r := {| response_type := t; response_args := args |} in
    match outgoing_sz (deliveries h 0) with
    | above_buffer_sz => Undefined
    | equal_to_buffer_sz => if NDEBUG then send_message NDEBUG r h else Abort h
    | below_buffer_sz => send_message NDEBUG r h
    end.

(** A call on the library: recorded, then it throws or returns. *)
Definition invoke (i : Interface) (c : call) : H unit :=
  update (push_invoked c) ;;;
  match raises i c with
  | Some e => raise e
  | None => hret tt
  end.

Definition LOG (l : list token) : H unit := update (push_log l).

(** [path.empty() ? nullptr : path.c_str()]. *)
Definition c_path (path : string) : option string :=
  if String.eqb path "" then None else Some path.

Definition not_supported (NDEBUG : bool) (t : RequestType) : H unit :=
  LOG [Str "Operation not supported by the current interface: "; Ty t] ;;;
  response NDEBUG NOT_SUPPORTED [].

(** The [switch] of [handle_request].  The strings and the array that the
    handler allocates are taken to find their storage. *)
Definition dispatch (NDEBUG : bool) (cfg_library_name : string) (i : Interface)
  (r : Request) : H unit :=
  match type r with
  | TERMINATE_WORKER =>
      response NDEBUG OK [] ;;; update (set_terminate true)
  | TERMINATE_SERVER =>
      response NDEBUG OK [] ;;; update (set_terminate true) ;;;
      update (set_instance (set_server_stop true))
  | TERMINATE_ON_LAST_CONNECTION =>
      response NDEBUG OK [] ;;;
      update (set_instance (set_terminate_on_last_connection true))
  | LIBRARY_NAME => response NDEBUG OK [Text cfg_library_name]
  | ON_MAIN_INIT => invoke i (on_main_init (get_int r 0)) ;;; response NDEBUG OK []
  | ON_THREAD_INIT => invoke i (on_thread_init (get_int r 0)) ;;;
      response NDEBUG OK []
  | ON_THREAD_DESTROY => invoke i (on_thread_destroy (get_int r 0)) ;;;
      response NDEBUG OK []
  | ON_MAIN_DESTROY => invoke i on_main_destroy ;;; response NDEBUG OK []
  | NUM_EDGES => invoke i num_edges ;;;
      response NDEBUG OK [U64 (returns_uint64 i num_edges)]
  | NUM_VERTICES =>
      invoke i num_vertices ;;;
          response NDEBUG OK [U64 (returns_uint64 i num_vertices)]
  | IS_DIRECTED =>
      invoke i is_directed ;;;
      response NDEBUG OK [U64 (if returns_bool i is_directed then 1 else 0)]
  | HAS_VERTEX =>
      let c := has_vertex (get r 0) in
      invoke i c ;;; response NDEBUG OK [Bool (returns_bool i c)]
  | HAS_EDGE =>
      let c := has_edge (get r 0) (get r 1) in
      invoke i c ;;; response NDEBUG OK [Bool (returns_bool i c)]
  | GET_WEIGHT =>
      let c := get_weight (get r 0) (get r 1) in
      invoke i c ;;;
      match Cxx.to_int64 (returns_double i c) with
      | Some result => response NDEBUG OK [I64 result]
      | None => fun _ => Undefined
      end
  | LOAD =>
      if negb (is_LoaderInterface i) then not_supported NDEBUG (type r)
      else
        let path := get_string r 0 in
        LOG [Str "[server] Attempting to load the graph from path: "; Str path] ;;;
        invoke i (load path) ;;; response NDEBUG OK []
  | ADD_VERTEX =>
      if negb (is_UpdateInterface i) then not_supported NDEBUG (type r)
      else
        let c := add_vertex (get r 0) in
        invoke i c ;;; response NDEBUG OK [Bool (returns_bool i c)]
  | REMOVE_VERTEX =>
      if negb (is_UpdateInterface i) then not_supported NDEBUG (type r)
      else
        let c := remove_vertex (get r 0) in
        invoke i c ;;; response NDEBUG OK [Bool (returns_bool i c)]
  | ADD_EDGE =>
      if negb (is_UpdateInterface i) then not_supported NDEBUG (type r)
      else
        let c := add_edge (get r 0) (get r 1) (get_double r 2) in
        invoke i c ;;; response NDEBUG OK [Bool (returns_bool i c)]
  | REMOVE_EDGE =>
      if negb (is_UpdateInterface i) then not_supported NDEBUG (type r)
      else
        let c := remove_edge (get r 0) (get r 1) in
        invoke i c ;;; response NDEBUG OK [Bool (returns_bool i c)]
  | DUMP_CLIENT =>
      invoke i dump_ostream ;;;
      send_message NDEBUG {| response_type := OK;
                      response_args := [Text (returns_text i dump_ostream)] |}
  | BFS =>
      if negb (is_GraphalyticsInterface i) then not_supported NDEBUG (type r)
      else invoke i (bfs (get r 0) (c_path (get_string r 1))) ;;;
          response NDEBUG OK []
  | PAGERANK =>
      if negb (is_GraphalyticsInterface i) then not_supported NDEBUG (type r)
      else
        invoke i (pagerank (get r 0) (get_double r 1) (c_path (get_string r 2))) ;;;
        response NDEBUG OK []
  | WCC =>
      if negb (is_GraphalyticsInterface i) then not_supported NDEBUG (type r)
      else invoke i (wcc (c_path (get_string r 0))) ;;; response NDEBUG OK []
  | CDLP =>
      if negb (is_GraphalyticsInterface i) then not_supported NDEBUG (type r)
      else invoke i (cdlp (get r 0) (c_path (get_string r 1))) ;;;
          response NDEBUG OK []
  | LCC =>
      if negb (is_GraphalyticsInterface i) then not_supported NDEBUG (type r)
      else invoke i (lcc (c_path (get_string r 0))) ;;; response NDEBUG OK []
  | SSSP =>
      if negb (is_GraphalyticsInterface i) then not_supported NDEBUG (type r)
      else invoke i (sssp (get r 0) (c_path (get_string r 1))) ;;;
          response NDEBUG OK []
  | other _ => throw [Str "Invalid request type: "; Ty (type r)]
  end.

(** [Server::ConnectionHandler::handle_request]: the [switch] inside
    [try { } catch(common::Error& e)]. *)
Definition handle_request (NDEBUG : bool) (cfg_library_name : string)
  (i : Interface) (r : Request) : H unit :=
  try_catch (dispatch NDEBUG cfg_library_name i r)
    (fun e => response NDEBUG ERROR [What e]).

(** *** [ConnectionHandler::execute] *)

Definition set_num_active_connections (n : Z) (s : Server) : Server :=
  {| m_port := m_port s; m_server_fd := m_server_fd s;
     m_server_stop := m_server_stop s;
     m_terminate_on_last_connection := m_terminate_on_last_connection s;
     m_num_active_connections := n |}.

(** What the connection delivers for one turn of the loop of [execute]: the
    result of the [recv] of the size, the size the first four bytes of the
    buffer then hold, the results of the [read]s that follow while the peer
    is there, and the request the buffer holds in the end.  Once the peer has
    closed the connection a [read] returns 0. *)
Record Message := {
  recv_bytes : Z;
  message_sz : Z;
  reads : list Z;
  request : Request;
}.

Inductive reading :=
| message_read (num_bytes_read : Z)
| read_failed                        (* [read] returned -1 *)
| buffer_overrun.                    (* bytes stored past [m_buffer_read] *)

(** [while(num_bytes_read < message_sz)]; [None] when the loop is still
    running after [fuel] turns. *)
Fixpoint read_message (fuel : nat) (reads : list Z)
  (buffer_sz message_sz num_bytes_read : Z) : option reading :=
  match fuel with
  | O => None
  | S fuel' =>
      if num_bytes_read <? message_sz then
        let recv_bytes := hd 0 reads in
        if recv_bytes =? -1 then Some read_failed
        else if buffer_sz <? num_bytes_read + recv_bytes then Some buffer_overrun
        else read_message fuel' (tl reads) buffer_sz message_sz
               (num_bytes_read + recv_bytes)
      else Some (message_read num_bytes_read)
  end.

(** How [execute] ends: it returns, an exception leaves it, an [assert]
    fails, or its behaviour is undefined. *)
Inductive ending :=
| Ends (h : Handler)
| Escapes (what : exception) (h : Handler)
| Aborts (h : Handler)
| NoBehaviour.

(** [while(!m_terminate)].  [NDEBUG] tells whether the [assert]s are compiled
    out; the peer closes the connection after the last message, and the
    [recv] of the next size returns 0.  [None] when a loop that reads a
    message is still running after [fuel] turns. *)
Fixpoint serve (NDEBUG : bool) (buffer_sz thread_id : Z) (cfg_library_name : string)
  (i : Interface) (fuel : nat) (messages : list Message) (h : Handler)
  : option ending :=
  let closed_by_peer :=
    Some (Ends (set_terminate true (push_log
      [Str "[server] [thread "; Num thread_id;
       Str "] Connection closed by the remote end without sending a TERMINATE_WORKER message"]
      h))) in
  if m_terminate h then Some (Ends h)
  else
    match messages with
    | [] => closed_by_peer
    | m :: messages' =>
        if recv_bytes m =? -1 then
          Some (Escapes (common_Error [Str "recv, connection interrupted?"]) h)
        else if recv_bytes m =? 0 then closed_by_peer
        else if negb NDEBUG && negb (recv_bytes m =? 4) then Some (Aborts h)
        else if buffer_sz <? recv_bytes m then Some NoBehaviour
        else if negb NDEBUG && negb (message_sz m + 4 <? buffer_sz)
        then Some (Aborts h)
        else
          match read_message fuel (reads m) buffer_sz (message_sz m) (recv_bytes m) with
          | None => None
          | Some read_failed =>
              Some (Escapes (common_Error [Str "recv, connection interrupted?"]) h)
          | Some buffer_overrun => Some NoBehaviour
          | Some (message_read num_bytes_read) =>
              if negb NDEBUG && negb (num_bytes_read =? message_sz m)
              then Some (Aborts h)
              else
                match handle_request NDEBUG cfg_library_name i (request m) h with
                | Return _ h' =>
                    serve NDEBUG buffer_sz thread_id cfg_library_name i fuel
                      messages' h'
                | Throw what h' => Some (Escapes what h')
                | Abort h' => Some (Aborts h')
                | Undefined => Some NoBehaviour
                end
          end
    end.

(** [Server::ConnectionHandler::execute].  The counter of the server is taken
    as the handler alone changes it. *)
Definition execute (NDEBUG : bool) (buffer_sz thread_id : Z) (cfg_library_name : string)
  (i : Interface) (fuel : nat) (messages : list Message) (h : Handler)
  : option ending :=
  let num_active_connections := m_num_active_connections (m_instance h) + 1 in
  let h := set_instance (set_num_active_connections num_active_connections) h in
  let h := push_log
    [Str "[server] [thread "; Num thread_id;
     Str "] Connection opened, num active connections: ";
     Num num_active_connections] h in
  match serve NDEBUG buffer_sz thread_id cfg_library_name i fuel messages h with
  | Some (Ends h) =>
      let num_active_connections := m_num_active_connections (m_instance h) - 1 in
      let h := set_instance (set_num_active_connections num_active_connections) h in
      Some (Ends (push_log
        [Str "[server] [thread "; Num thread_id;
         Str "] Connection terminated, remaining active connections: ";
         Num num_active_connections] h))
  | r => r
  end.

(** The capability a request needs, as the specification lists them. *)
Inductive capability := LoaderInterface | UpdateInterface | GraphalyticsInterface.

Definition implements (i : Interface) (c : capability) : bool :=
  match c with
  | LoaderInterface => is_LoaderInterface i
  | UpdateInterface => is_UpdateInterface i
  | GraphalyticsInterface => is_GraphalyticsInterface i
  end.

Definition requires (t : RequestType) : option capability :=
  match t with
  | LOAD => Some LoaderInterface
  | ADD_VERTEX | REMOVE_VERTEX | ADD_EDGE | REMOVE_EDGE => Some UpdateInterface
  | BFS | PAGERANK | WCC | CDLP | LCC | SSSP => Some GraphalyticsInterface
  | _ => None
  end.

End Network.

(** * Notions used in the statements *)

Section AgingNotions.
Import Aging2 Aging2.Master.

(** [returns c w a f evs]: from [w], the computation [c] returns [a], has
    changed the master by [f] and has issued the events [evs]. *)
Definition returns {A} (c : M A) (w : World) (a : A)
  (f : Aging2Master -> Aging2Master) (evs : list event) : Prop :=
  c w = Some (a, {| self := f (self w); trace := trace w ++ evs |}).

(** The identifiers of the workers of a master with [T] threads. *)
Definition workers (T : Z) : list Z := seqZ 0 T.

Definition random_vertex_id (m : Aging2Master) : Z :=
  Result.m_random_vertex_id (m_results m).

(** The vertex [set_random_vertex_id] leaves in the result for a block,
    [r] being the one before. *)
Definition pick_random_vertex_id (r : Z) (b : list WeightedEdge) : Z :=
  let i := skip_deletions (length b) (weight <$> b) (length b) 0 in
  if (i <? length b)%nat then default r ((source <$> b) !! i) else r.

Fixpoint random_vertex_id_after (r : Z) (blocks : list (list WeightedEdge)) : Z :=
  match blocks with
  | [] => r
  | b :: blocks' =>
      if (0 <? length b)%nat
      then random_vertex_id_after
             (if r =? 0 then pick_random_vertex_id r b else r) blocks'
      else r
  end.

(** The events of the loop of [load_edges]. *)
Fixpoint load_loop_events (ws : list Z) (blocks : list (list WeightedEdge))
  : list event :=
  match blocks with
  | [] => []
  | b :: blocks' =>
      if (0 <? length b)%nat
      then ((fun w => worker_load_edges w (Z.of_nat (length b))) <$> ws)
           ++ [loader_load] ++ (worker_wait <$> ws)
           ++ load_loop_events ws blocks'
      else []
  end.

(** The events of each phase, for a master with the workers [ws]. *)
Definition init_workers_events (T : Z) : list event :=
  [timer_start InitWorkers;
   LOG [Str "[Aging2] Initialising "; Num T; Str " worker threads ... "]]
  ++ (worker_new <$> workers T)
  ++ [LOG [Str "[Aging2] Workers initialised in "; Elapsed]].

Definition constructor_events (T : Z) : list event :=
  [parse_properties; on_main_init (Cxx.to_int (uint64 (T + 2)))]
  ++ init_workers_events T
  ++ [on_thread_init (Cxx.to_int T)].

Definition load_edges_events (path : string) (ws : list Z)
  (blocks : list (list WeightedEdge)) : list event :=
  [LOG [Str "[Aging2] Loading the sequence of updates to perform from ";
        Str path; Str " ..."];
   timer_start LoadEdges; parse_properties; set_marker EDGES; loader_load]
  ++ load_loop_events ws blocks
  ++ [timer_stop LoadEdges; LOG [Str "[Aging2] Graphlog loaded in "; Elapsed]].

Definition do_run_experiment_events (T frequency : Z) (ws : list Z) : list event :=
  [LOG [Str "[Aging2] Experiment started ..."];
   build_service_new (Cxx.to_int T + 1) frequency;
   timer_start Experiment]
  ++ (worker_execute_updates <$> ws)
  ++ (worker_wait <$> ws)
  ++ [build_service_stop; build; timer_stop Experiment;
      LOG [Str "[Aging2] Experiment completed!"];
      LOG [Str "[Aging2] Updates performed with "; Num T;
           Str " threads in "; Elapsed];
      timer_microseconds Experiment;
      build_service_num_invocations;
      build_service_delete].

Definition remove_vertices_events (num_vertices final : Z) (ws : list Z) : list event :=
  [LOG [Str "[Aging2] Removing the list of temporary vertices ..."];
   timer_start RemoveVertices; parse_properties; set_marker VTX_TEMP; loader_load]
  ++ ((fun w => worker_remove_vertices w num_vertices) <$> ws)
  ++ (worker_wait <$> ws)
  ++ [build;
      LOG [Str "[Aging2] Number of extra vertices: "; Num num_vertices;
           Str ", expansion factor: ";
           Dbl (Cxx.double_of_Z (uint64 (num_vertices + final))
                / Cxx.double_of_Z final)%float];
      timer_stop RemoveVertices;
      LOG [Str "[Aging2] Temporary vertices removed in "; Elapsed]].

(** The line of [log_num_vtx_edges] for a result. *)
Definition match_report (r : Result.Aging2Result) : list token :=
  [Str "[Aging2] Number of stored vertices: ";
   Num (Result.m_num_vertices_final_graph r); Str " [match: "]
  ++ (if Result.m_num_vertices_load r =? Result.m_num_vertices_final_graph r
      then [Str "yes"]
      else [Str "no, expected "; Num (Result.m_num_vertices_load r)])
  ++ [Str "], number of stored edges: ";
      Num (Result.m_num_edges_final_graph r); Str " [match: "]
  ++ (if Result.m_num_edges_load r =? Result.m_num_edges_final_graph r
      then [Str "yes"]
      else [Str "no, expected "; Num (Result.m_num_edges_load r)])
  ++ [Str "]"].

Definition destructor_events (T : Z) (ws : list Z) : list event :=
  (worker_delete <$> ws)
  ++ [on_thread_destroy (Cxx.to_int T); on_main_destroy].

(** What [execute] does to the master and the events it issues, the workers
    having left [buf] in the array and stamped [k] reports. *)
Definition execute_update (env : Env) (buf : list Z) (k : nat)
  (m : Aging2Master) : Aging2Master :=
  let m1 := set_results (Result.with_random_vertex_id
              (random_vertex_id_after (random_vertex_id m) (log_edges env))) m in
  let m2 := set_results (Result.with_num_build_invocations (build_invocations env))
              (set_results (Result.with_completion_time (experiment_microseconds env))
                 (set_progress 0 (worker_last_time_reported env)
                    (set_reported_times buf m1))) in
  let m3 := set_results (Result.with_num_artificial_vertices
              (internal_vertices_temporary_cardinality (log_properties env))) m2 in
  set_results
    (Result.with_reported_times
       (Result.m_reported_times (m_results m3) ++ take k (m_reported_times m3)))
    (set_results
       (Result.with_final_graph (lib_num_vertices env) (lib_num_edges env)) m3).

Definition execute_events (env : Env) (buf : list Z) (k : nat)
  (m : Aging2Master) : list event :=
  let T := m_num_threads (m_parameters m) in
  load_edges_events (m_path_log (m_parameters m)) (m_workers m) (log_edges env)
  ++ do_run_experiment_events T (m_build_frequency (m_parameters m)) (m_workers m)
  ++ remove_vertices_events
       (internal_vertices_temporary_cardinality (log_properties env))
       (Result.m_num_vertices_final_graph (m_results m)) (m_workers m)
  ++ [num_vertices; num_edges]
  ++ [cout (match_report (m_results (execute_update env buf k m)))].

(** The master the constructor leaves, with an array of [n] slots. *)
Definition constructed (env : Env) (parameters : Aging2Experiment) (n : Z)
  : Aging2Master :=
  {| m_parameters := parameters;
     m_is_directed := lib_is_directed env;
     m_results := Result.with_properties (log_properties env) Result.fresh;
     m_workers := workers (m_num_threads parameters);
     m_reported_times := replicate (Z.to_nat n) 0;
     m_last_progress_reported := 0;
     m_last_time_reported := 0 |}.

(** The conditions under which a run has a defined behaviour: the size of
    the array is a number, the identifier of the build service fits an
    [int], the workers stamp slots of the array, and the number of reports
    they leave does not exceed the array. *)
Record well_defined (env : Env) (parameters : Aging2Experiment)
  (n : Z) (buf : list Z) (k : nat) : Prop := {
  wd_capacity : reported_times_capacity (constructed env parameters 0) = Some n;
  wd_thread_id : Cxx.to_int (m_num_threads parameters) + 1 < 2 ^ 31;
  wd_stamps : stamps (replicate (Z.to_nat n) 0) (worker_stamps env) = Some buf;
  wd_reports : uint64 (worker_last_time_reported env) = Z.of_nat k;
  wd_in_array : (k <= length buf)%nat;
}.

Definition run_events (env : Env) (parameters : Aging2Experiment)
  (n : Z) (buf : list Z) (k : nat) : list event :=
  let T := m_num_threads parameters in
  [is_directed]
  ++ constructor_events T
  ++ execute_events env buf k (constructed env parameters n)
  ++ destructor_events T (workers T).

Definition run_result (env : Env) (parameters : Aging2Experiment)
  (n : Z) (buf : list Z) (k : nat) : Result.Aging2Result :=
  m_results (execute_update env buf k (constructed env parameters n)).

(** The number of slots the specification asks for:
    [ceil(num_operations_total / num_edges_load) * num_reports_per_ops + 1]. *)
Definition specified_slots (num_operations_total num_edges_load num_reports_per_ops : Z) : Z :=
  ((num_operations_total + num_edges_load - 1) / num_edges_load)
  * num_reports_per_ops + 1.

Definition with_num_reports_per_operations (v : Z) (p : Aging2Experiment)
  : Aging2Experiment :=
  {| m_path_log := m_path_log p; m_num_threads := m_num_threads p;
     m_worker_granularity := m_worker_granularity p;
     m_max_weight := m_max_weight p; m_build_frequency := m_build_frequency p;
     m_report_progress := m_report_progress p;
     m_num_reports_per_operations := v;
     m_measure_latency := m_measure_latency p |}.

(** A log of ten operations that leave five edges, loaded in two blocks, the
    first of which holds no insertion; the library ends with four vertices and
    four edges where the log announces four and five. *)
Definition sample_properties : LogProperties :=
  {| internal_vertices_temporary_cardinality := 1;
     internal_vertices_final_cardinality := 4;
     internal_edges_final := 5;
     internal_edges_cardinality := 10;
     internal_edges_block_size := 6 |}.

Definition sample_env (reports : list (nat * Z)) : Env :=
  {| lib_is_directed := false;
     lib_num_vertices := 4;
     lib_num_edges := 4;
     log_properties := sample_properties;
     log_edges :=
       [[{| source := 1; destination := 2; weight := (-1)%float |}];
        [{| source := 3; destination := 4; weight := 1%float |};
         {| source := 5; destination := 6; weight := 2%float |}]];
     log_vtx_temp := [9];
     worker_stamps := reports;
     worker_last_time_reported := Z.of_nat (length reports);
     experiment_microseconds := 1234;
     build_invocations := 0 |}.

Definition sample_parameters (threads reports_per_ops : Z) : Aging2Experiment :=
  {| m_path_log := "graph.graphlog"; m_num_threads := threads;
     m_worker_granularity := 1024; m_max_weight := 1%float;
     m_build_frequency := 0; m_report_progress := false;
     m_num_reports_per_operations := reports_per_ops;
     m_measure_latency := false |}.

(** Kinds of events. *)
Definition is_on_main_init (e : event) : bool :=
  match e with on_main_init _ => true | _ => false end.
Definition is_on_thread_init (e : event) : bool :=
  match e with on_thread_init _ => true | _ => false end.
Definition is_on_thread_destroy (e : event) : bool :=
  match e with on_thread_destroy _ => true | _ => false end.
Definition is_build_service_new (e : event) : bool :=
  match e with build_service_new _ _ => true | _ => false end.
Definition is_build_service_stop (e : event) : bool :=
  match e with build_service_stop => true | _ => false end.
Definition is_worker_execute_updates (e : event) : bool :=
  match e with worker_execute_updates _ => true | _ => false end.
Definition is_worker_remove_vertices (e : event) : bool :=
  match e with worker_remove_vertices _ _ => true | _ => false end.
Definition is_completion_time (e : event) : bool :=
  match e with
  | timer_stop Experiment | timer_microseconds Experiment => true
  | _ => false
  end.

(** No event of the kind [P] in [l]. *)
Definition none (P : event -> bool) (l : list event) : Prop :=
  List.filter P l = [].

(** An insertion is an entry with a positive weight. *)
Definition is_insertion (e : WeightedEdge) : bool := (0 <? weight e)%float.

Definition first_insertion (edges : list WeightedEdge) : option WeightedEdge :=
  List.find is_insertion edges.

(** The blocks the loop of [load_edges] goes through: those before the first
    empty one. *)
Fixpoint delivered (blocks : list (list WeightedEdge)) : list (list WeightedEdge) :=
  match blocks with
  | [] => []
  | b :: blocks' => if (0 <? length b)%nat then b :: delivered blocks' else []
  end.

(** The number of leading entries of a block that the scan of
    [set_random_vertex_id] skips. *)
Fixpoint deletions_prefix (l : list WeightedEdge) : nat :=
  match l with
  | [] => O
  | e :: l' => if (weight e <=? 0)%float then S (deletions_prefix l') else O
  end.

(** The sentence of the specification on [random_vertex_id], for the load
    phase started in [w]: if the stream holds an insertion, the vertex is an
    end point of the first insertion of the first block, and it is not zero. *)
Definition random_vertex_id_from_first_block (env : Env) (w : World) : Prop :=
  (exists b e, b ∈ log_edges env /\ e ∈ b /\ is_insertion e = true) ->
  exists w' b e,
    load_edges env w = Some (tt, w')
    /\ head (log_edges env) = Some b
    /\ first_insertion b = Some e
    /\ (random_vertex_id (self w') = source e
        \/ random_vertex_id (self w') = destination e)
    /\ random_vertex_id (self w') <> 0.

(** An entry with a weight that is not a number, as the first of a block. *)
Definition nan_block : list WeightedEdge :=
  [{| source := 1; destination := 2; weight := (-1)%float |};
   {| source := 7; destination := 8; weight := nan |};
   {| source := 3; destination := 4; weight := 1%float |}].

(** A world whose master already holds the random vertex [r]. *)
Definition sample_world (r : Z) : World :=
  {| self := set_results (Result.with_random_vertex_id r)
               (constructed (sample_env []) (sample_parameters 2 1) 3);
     trace := [] |}.

Definition is_worker_load_edges (e : event) : bool :=
  match e with worker_load_edges _ _ => true | _ => false end.
Definition is_loader_load (e : event) : bool :=
  match e with loader_load => true | _ => false end.

(** The calls on the library under evaluation. *)
Definition is_library_call (e : event) : bool :=
  match e with
  | is_directed | on_main_init _ | on_main_destroy | on_thread_init _
  | on_thread_destroy _ | build | num_vertices | num_edges => true
  | _ => false
  end.

(** The worker an event is addressed to. *)
Definition worker_of (e : event) : option Z :=
  match e with
  | worker_new w | worker_delete w | worker_load_edges w _
  | worker_execute_updates w | worker_remove_vertices w _ | worker_wait w => Some w
  | _ => None
  end.

Definition concerns (id : Z) (e : event) : bool :=
  match worker_of e with
  | Some w => w =? id
  | None => false
  end.

(** A log that announces no final edge. *)
Definition no_edge_env (operations : Z) : Env :=
  {| lib_is_directed := false; lib_num_vertices := 0; lib_num_edges := 0;
     log_properties :=
       {| internal_vertices_temporary_cardinality := 0;
          internal_vertices_final_cardinality := 0;
          internal_edges_final := 0;
          internal_edges_cardinality := operations;
          internal_edges_block_size := 3 |};
     log_edges := []; log_vtx_temp := []; worker_stamps := [];
     worker_last_time_reported := 0; experiment_microseconds := 0;
     build_invocations := 0 |}.

(** A log of two blocks that holds deletions only, one of them with the
    weight zero. *)
Definition deletions_env : Env :=
  {| lib_is_directed := false; lib_num_vertices := 4; lib_num_edges := 0;
     log_properties := sample_properties;
     log_edges :=
       [[{| source := 1; destination := 2; weight := (-1)%float |};
         {| source := 3; destination := 4; weight := 0%float |}];
        [{| source := 5; destination := 6; weight := (-2)%float |}]];
     log_vtx_temp := []; worker_stamps := [];
     worker_last_time_reported := 0; experiment_microseconds := 0;
     build_invocations := 0 |}.

(** What a worker is sent for a block, and the commands and waits of one
    worker during the load phase. *)
Definition dispatch_of_block (ws : list Z) (b : list WeightedEdge) : list event :=
  (fun w => worker_load_edges w (Z.of_nat (length b))) <$> ws.

Definition load_protocol (id : Z) (blocks : list (list WeightedEdge)) : list event :=
  concat ((fun b => [worker_load_edges id (Z.of_nat (length b)); worker_wait id])
          <$> delivered blocks).

(** A world in which the workers have left [last] reports in an array of
    three slots. *)
Definition reported_world (last : Z) : World :=
  {| self := set_progress 0 last
               (set_reported_times [100; 200; 0]
                  (constructed (sample_env []) (sample_parameters 2 1) 3));
     trace := [] |}.

End AgingNotions.

Section TestNotions.
Import Aging2 TestUpdates.

(** The edge the generator makes of the pair [(i, j)]. *)
Definition generated (i j : Z) : WeightedEdge :=
  {| source := i; destination := j;
     weight := Cxx.double_of_Z (1000 * j + i) |}.

(** What the test expects of the pair [(i, j)] after the insertions: the
    edge in both directions, with the weight [1000 * j + i], when [i + j] is
    even, and no edge in either direction otherwise. *)
Definition pair_expected (a : Answers) (i j : Z) : Prop :=
  if Z.even (i + j) then
    has_edge a i j = true /\ has_edge a j i = true
    /\ (get_weight a i j =? Cxx.double_of_Z (1000 * j + i))%float = true
    /\ (get_weight a j i =? Cxx.double_of_Z (1000 * j + i))%float = true
  else
    has_edge a i j = false /\ has_edge a j i = false.

(** An interface that holds exactly the generated edges. *)
Definition generated_answers : Answers :=
  {| num_edges := 961;
     has_edge := fun i j => Z.even (i + j);
     get_weight := fun i j =>
       Cxx.double_of_Z (1000 * Z.max i j + Z.min i j) |}.

(** An edge with its end points exchanged. *)
Definition reversed (e : WeightedEdge) : WeightedEdge :=
  {| source := destination e; destination := source e; weight := weight e |}.

(** The edges and the vertices the calls add, in order, and the pairs they
    remove. *)
Definition added_edges (calls : list call) : list WeightedEdge :=
  omap (fun c => match c with add_edge e => Some e | _ => None end) calls.

Definition added_vertices (calls : list call) : list Z :=
  omap (fun c => match c with add_vertex v => Some v | _ => None end) calls.

Definition removed_edges (calls : list call) : list (Z * Z) :=
  omap (fun c => match c with remove_edge s d => Some (s, d) | _ => None end) calls.

(** The end points of a list of edges. *)
Fixpoint endpoints (l : list WeightedEdge) : gset Z :=
  match l with
  | [] => ∅
  | e :: l' => {[source e]} ∪ {[destination e]} ∪ endpoints l'
  end.

(** Scanning the calls with the vertices already there, every edge added
    finds both its end points. *)
Fixpoint vertices_before_edges (seen : gset Z) (calls : list call) : Prop :=
  match calls with
  | [] => True
  | add_vertex v :: calls' => vertices_before_edges ({[v]} ∪ seen) calls'
  | add_edge e :: calls' =>
      source e ∈ seen /\ destination e ∈ seen /\ vertices_before_edges seen calls'
  | _ :: calls' => vertices_before_edges seen calls'
  end.

(** An edge without its direction. *)
Definition unordered (s d : Z) : Z * Z := (Z.min s d, Z.max s d).

Definition is_teardown (c : call) : bool :=
  match c with
  | on_thread_destroy _ | on_main_destroy => true
  | _ => false
  end.

End TestNotions.

Section NetworkNotions.
Import Network.

(** A process in which nobody handles the signals yet, or the server at
    [g] does, and every [::sigaction] succeeds. *)
Definition sample_process (g : option nat) : Process :=
  {| g_server_instance := g;
     g_sigaction_term := match g with Some _ => sa_previous 1 | None => sa_zero end;
     g_sigaction_interrupt := match g with Some _ => sa_previous 2 | None => sa_zero end;
     action := fun sig => match g, sig with
                          | Some _, _ => sa_signal_handler_execute
                          | None, SIGTERM => sa_previous 1
                          | None, SIGINT => sa_previous 2
                          end;
     sigaction_rc := fun _ => 0;
     closed := [];
     cerr := [] |}.

Definition sample_server : Server :=
  {| m_port := 18286; m_server_fd := 3; m_server_stop := false;
     m_terminate_on_last_connection := false; m_num_active_connections := 0 |}.

(** A library with the base interface only, that never throws. *)
Definition sample_interface : Interface :=
  {| is_LoaderInterface := false;
     is_UpdateInterface := false;
     is_GraphalyticsInterface := false;
     raises := fun _ => None;
     returns_uint64 := fun _ => 0;
     returns_bool := fun _ => false;
     returns_double := fun _ => 0%float;
     returns_text := fun _ => ""%string |}.

Definition sample_request (t : RequestType) : Request :=
  {| type := t; get := fun i => Z.of_nat i + 1; get_int := fun _ => 0;
     get_double := fun _ => 1%float; get_string := fun _ => ""%string |}.

(** A message below [buffer_sz] that [::send] sends whole, and one for which
    [::send] fails. *)
Definition delivered_whole : Delivery :=
  {| outgoing_sz := below_buffer_sz; bytes_sent := message_sz_bytes |}.
Definition not_delivered : Delivery :=
  {| outgoing_sz := below_buffer_sz; bytes_sent := minus_one |}.

Definition sample_handler : Handler :=
  {| m_terminate := false; m_instance := sample_server; sent := [];
     sent_in_part := []; invoked := []; log := [];
     deliveries := fun _ => delivered_whole |}.

(** The handler a step leaves, when its behaviour is defined. *)
Definition handler_of {A} (o : outcome A) : option Handler :=
  match o with
  | Return _ h | Throw _ h | Abort h => Some h
  | Undefined => None
  end.

(** The interface a method of the library belongs to, when it is not the base
    one. *)
Definition needs (c : call) : option capability :=
  match c with
  | load _ => Some LoaderInterface
  | add_vertex _ | remove_vertex _ | add_edge _ _ _ | remove_edge _ _ =>
      Some UpdateInterface
  | bfs _ _ | pagerank _ _ _ | wcc _ | cdlp _ _ | lcc _ | sssp _ _ =>
      Some GraphalyticsInterface
  | _ => None
  end.

(** The requests whose handling calls the library [i]. *)
Definition reaches_library (i : Interface) (t : RequestType) : bool :=
  match t with
  | TERMINATE_WORKER | TERMINATE_SERVER | TERMINATE_ON_LAST_CONNECTION
  | LIBRARY_NAME | other _ => false
  | _ => match requires t with
         | Some c => implements i c
         | None => true
         end
  end.

(** The type of the response to a request when the library does not throw. *)
Definition quiet_response_type (i : Interface) (t : RequestType) : ResponseType :=
  match t with
  | other _ => ERROR
  | _ => match requires t with
         | Some c => if implements i c then OK else NOT_SUPPORTED
         | None => OK
         end
  end.

(** A library that implements every interface and throws [e] on every call,
    or never when [e] is [None]. *)
Definition full_interface (e : option exception) : Interface :=
  {| is_LoaderInterface := true;
     is_UpdateInterface := true;
     is_GraphalyticsInterface := true;
     raises := fun _ => e;
     returns_uint64 := fun _ => 5;
     returns_bool := fun _ => true;
     returns_double := fun _ => 1%float;
     returns_text := fun _ => "graph"%string |}.

(** A connection on which every [::send] fails, and one on which the first
    fails and the others work. *)
Definition broken_handler : Handler :=
  {| m_terminate := false; m_instance := sample_server; sent := [];
     sent_in_part := []; invoked := []; log := [];
     deliveries := fun _ => not_delivered |}.

Definition flaky_handler : Handler :=
  {| m_terminate := false; m_instance := sample_server; sent := [];
     sent_in_part := []; invoked := []; log := [];
     deliveries := fun k => match k with
                            | O => not_delivered
                            | S _ => delivered_whole
                            end |}.

(** What becomes of a call of [send_message], and of a call of [response],
    by what it meets. *)
Inductive fate :=
| goes_out                (* sent whole; the call returns *)
| goes_out_in_part        (* sent in part, no [assert]; the call returns *)
| stops_in_part           (* sent in part; the [assert] of line 489 fails *)
| is_refused              (* [::send] returns -1; a [common::Error] *)
| is_too_long             (* not below [buffer_sz]; the [assert] of line 481 fails *)
| overruns.               (* stored past [m_buffer_write] *)

Definition send_fate (NDEBUG : bool) (d : Delivery) : fate :=
  match bytes_sent d with
  | minus_one => is_refused
  | fewer_bytes => if NDEBUG then goes_out_in_part else stops_in_part
  | message_sz_bytes => goes_out
  end.

Definition response_fate (NDEBUG : bool) (d : Delivery) : fate :=
  match outgoing_sz d with
  | above_buffer_sz => overruns
  | equal_to_buffer_sz => if NDEBUG then send_fate NDEBUG d else is_too_long
  | below_buffer_sz => send_fate NDEBUG d
  end.

(** The call returns. *)
Definition returns_to_caller (f : fate) : bool :=
  match f with
  | goes_out | goes_out_in_part => true
  | _ => false
  end.

(** The call that the handling of a request issues on the library [i]. *)
Definition library_call (i : Interface) (r : Request) : option call :=
  let when (b : bool) (c : call) := if b then Some c else None in
  match type r with
  | TERMINATE_WORKER | TERMINATE_SERVER | TERMINATE_ON_LAST_CONNECTION
  | LIBRARY_NAME | other _ => None
  | ON_MAIN_INIT => Some (on_main_init (get_int r 0))
  | ON_THREAD_INIT => Some (on_thread_init (get_int r 0))
  | ON_THREAD_DESTROY => Some (on_thread_destroy (get_int r 0))
  | ON_MAIN_DESTROY => Some on_main_destroy
  | NUM_EDGES => Some num_edges
  | NUM_VERTICES => Some num_vertices
  | IS_DIRECTED => Some is_directed
  | HAS_VERTEX => Some (has_vertex (get r 0))
  | HAS_EDGE => Some (has_edge (get r 0) (get r 1))
  | GET_WEIGHT => Some (get_weight (get r 0) (get r 1))
  | LOAD => when (is_LoaderInterface i) (load (get_string r 0))
  | ADD_VERTEX => when (is_UpdateInterface i) (add_vertex (get r 0))
  | REMOVE_VERTEX => when (is_UpdateInterface i) (remove_vertex (get r 0))
  | ADD_EDGE =>
      when (is_UpdateInterface i) (add_edge (get r 0) (get r 1) (get_double r 2))
  | REMOVE_EDGE => when (is_UpdateInterface i) (remove_edge (get r 0) (get r 1))
  | DUMP_CLIENT => Some dump_ostream
  | BFS =>
      when (is_GraphalyticsInterface i) (bfs (get r 0) (c_path (get_string r 1)))
  | PAGERANK =>
      when (is_GraphalyticsInterface i)
        (pagerank (get r 0) (get_double r 1) (c_path (get_string r 2)))
  | WCC => when (is_GraphalyticsInterface i) (wcc (c_path (get_string r 0)))
  | CDLP =>
      when (is_GraphalyticsInterface i) (cdlp (get r 0) (c_path (get_string r 1)))
  | LCC => when (is_GraphalyticsInterface i) (lcc (c_path (get_string r 0)))
  | SSSP =>
      when (is_GraphalyticsInterface i) (sssp (get r 0) (c_path (get_string r 1)))
  end.

(** The text of the error of a [::send] that fails. *)
Definition connection_error : list token :=
  [Str "send_response, connection error"].

(** A process in which [::sigaction] fails for the signals of [fails]. *)
Definition failing_process (g : option nat) (fails : signal -> bool) : Process :=
  {| g_server_instance := g;
     g_sigaction_term := match g with Some _ => sa_previous 1 | None => sa_zero end;
     g_sigaction_interrupt := match g with Some _ => sa_previous 2 | None => sa_zero end;
     action := fun sig => match g, sig with
                          | Some _, _ => sa_signal_handler_execute
                          | None, SIGTERM => sa_previous 1
                          | None, SIGINT => sa_previous 2
                          end;
     sigaction_rc := fun sig => if fails sig then -1 else 0;
     closed := [];
     cerr := [] |}.

Definition is_sigint (sig : signal) : bool :=
  match sig with SIGINT => true | SIGTERM => false end.

(** The process once [handle_signals] has registered the server at [this],
    every [::sigaction] having succeeded. *)
Definition registered (this : nat) (p : Process) : Process :=
  set_action SIGINT sa_signal_handler_execute
    (set_saved SIGINT (action p SIGINT)
       (set_action SIGTERM sa_signal_handler_execute
          (set_saved SIGTERM (action p SIGTERM)
             (set_g_server_instance (Some this) p)))).

(** The connections the server of a handler counts. *)
Definition connections (h : Handler) : Z :=
  m_num_active_connections (m_instance h).

(** The bytes a list of [read]s delivers. *)
Definition bytes (reads : list Z) : Z := foldr Z.add 0 reads.

(** Each [read] returns at most the number of bytes it was asked for, the
    bytes of the message still missing. *)
Fixpoint in_turn (reads : list Z) (num_bytes_read message_sz : Z) : Prop :=
  match reads with
  | [] => True
  | recv_bytes :: reads' =>
      0 <= recv_bytes <= message_sz - num_bytes_read
      /\ in_turn reads' (num_bytes_read + recv_bytes) message_sz
  end.

(** A message of [message_sz] bytes, its size included, that arrives in the
    pieces [reads]. *)
Definition sample_message (message_sz : Z) (reads : list Z) (t : RequestType)
  : Message :=
  {| recv_bytes := 4; message_sz := message_sz; reads := reads;
     request := sample_request t |}.

End NetworkNotions.

(** * Properties *)

(** ** Doubles *)

Example ceil_of_a_fraction :
  Cxx.to_uint64 (Cxx.ceil (Cxx.double_of_Z 7 / Cxx.double_of_Z 2)%float) = Some 4.
Proof. vm_compute. reflexivity. Qed.

Example ceil_of_an_integer :
  Cxx.to_uint64 (Cxx.ceil (Cxx.double_of_Z 10 / Cxx.double_of_Z 5)%float) = Some 2.
Proof. vm_compute. reflexivity. Qed.

Example ceil_of_a_negative_fraction :
  Cxx.to_int64 (Cxx.ceil (Cxx.double_of_Z (-7) / Cxx.double_of_Z 2)%float) = Some (-3).
Proof. vm_compute. reflexivity. Qed.

Example to_uint64_of_a_division_by_zero :
  Cxx.to_uint64 (Cxx.double_of_Z 10 / Cxx.double_of_Z 0)%float = None.
Proof. vm_compute. reflexivity. Qed.

Example to_int_wraps : Cxx.to_int (2 ^ 31) = - 2 ^ 31.
Proof. reflexivity. Qed.

Lemma is_nan_false_not_nan (w : float) :
  is_nan w = false -> Prim2SF w <> S754_nan.
Proof.
  intros Hn Hw. unfold is_nan in Hn.
  rewrite FloatAxioms.eqb_spec, Hw in Hn. discriminate.
Qed.

(** Away from NaN, the test [w <= 0] of the master fails exactly on the
    positive weights. *)
Lemma leb_zero_ltb (w : float) :
  is_nan w = false -> (w <=? 0)%float = negb (0 <? w)%float.
Proof.
  intros Hn. apply is_nan_false_not_nan in Hn.
  rewrite FloatAxioms.leb_spec, FloatAxioms.ltb_spec.
  change (Prim2SF 0) with (S754_zero false).
  destruct (Prim2SF w) as [s|s| |s m e]; try congruence; destruct s; reflexivity.
Qed.

(** A double that is an infinity or NaN. *)
Lemma not_finite_div_zero (x : float) :
  Prim2SF (x / Cxx.double_of_Z 0) = S754_nan
  \/ exists s, Prim2SF (x / Cxx.double_of_Z 0) = S754_infinity s.
Proof.
  rewrite FloatAxioms.div_spec.
  change (Prim2SF (Cxx.double_of_Z 0)) with (S754_zero false).
  destruct (Prim2SF x) as [s|s| |s m e]; simpl; eauto.
Qed.

Lemma ceil_not_finite (x : float) :
  Prim2SF x = S754_nan \/ (exists s, Prim2SF x = S754_infinity s) ->
  Cxx.ceil x = x.
Proof. unfold Cxx.ceil. intros [H|[s H]]; by rewrite H. Qed.

Lemma add_one_not_finite (x : float) :
  Prim2SF x = S754_nan \/ (exists s, Prim2SF x = S754_infinity s) ->
  Prim2SF (x + 1) = S754_nan \/ exists s, Prim2SF (x + 1) = S754_infinity s.
Proof.
  rewrite FloatAxioms.add_spec. intros [H|[s H]]; rewrite H; simpl; eauto.
Qed.

Lemma to_uint64_not_finite (x : float) :
  Prim2SF x = S754_nan \/ (exists s, Prim2SF x = S754_infinity s) ->
  Cxx.to_uint64 x = None.
Proof. unfold Cxx.to_uint64. intros [H|[s H]]; by rewrite H. Qed.

Lemma is_finite_false (x : float) :
  Prim2SF x = S754_nan \/ (exists s, Prim2SF x = S754_infinity s) ->
  is_finite x = false.
Proof.
  unfold is_finite, is_nan, is_infinity.
  rewrite !FloatAxioms.eqb_spec, FloatAxioms.abs_spec.
  intros [H|[s H]]; rewrite H; [reflexivity|].
  change (Prim2SF infinity) with (S754_infinity false). destruct s; reflexivity.
Qed.

(** ** The master: what each phase returns *)

Section AgingFacts.
Import Aging2 Aging2.Master.

Lemma returns_ret {A} (a : A) w : returns (ret a) w a id [].
Proof. destruct w. unfold returns, ret. simpl. by rewrite app_nil_r. Qed.

Lemma returns_get w : returns get w (self w) id [].
Proof. destruct w. unfold returns, get. simpl. by rewrite app_nil_r. Qed.

Lemma returns_emit e w : returns (emit e) w tt id [e].
Proof. reflexivity. Qed.

Lemma returns_modify f w : returns (modify f) w tt f [].
Proof. unfold returns, modify. by rewrite app_nil_r. Qed.

Lemma returns_lift {A} (o : option A) a w :
  o = Some a -> returns (lift o) w a id [].
Proof. intros ->. apply returns_ret. Qed.

Lemma returns_bind {A B} (c : M A) (k : A -> M B) w a f evs b g evs' :
  returns c w a f evs ->
  returns (k a) {| self := f (self w); trace := trace w ++ evs |} b g evs' ->
  returns (bind c k) w b (fun m => g (f m)) (evs ++ evs').
Proof.
  unfold returns, bind. intros -> ->. simpl. by rewrite app_assoc.
Qed.

Lemma returns_ext {A} (c : M A) w a f f' evs evs' :
  returns c w a f evs -> f (self w) = f' (self w) -> evs = evs' ->
  returns c w a f' evs'.
Proof. unfold returns. by intros -> -> ->. Qed.

Lemma returns_for_each_emit {A} (g : A -> event) (l : list A) w :
  returns (for_each l (fun a => emit (g a))) w tt id (g <$> l).
Proof.
  revert w. induction l as [|a l IH]; intros w; simpl.
  - apply returns_ret.
  - eapply returns_ext.
    + eapply returns_bind; [apply returns_emit | apply IH].
    + reflexivity.
    + reflexivity.
Qed.

(** A goal [returns c w _ _ _] on a sequence of steps: one step. *)
Ltac returns_step :=
  lazymatch goal with
  | |- returns (bind _ _) _ _ _ _ =>
      eapply returns_bind;
      [ first [ apply returns_emit | apply returns_get | apply returns_modify
              | apply returns_for_each_emit | apply returns_ret ]
      | cbv beta; simpl self; simpl trace ]
  | |- returns _ _ _ _ _ =>
      first [ apply returns_emit | apply returns_get | apply returns_modify
            | apply returns_for_each_emit | apply returns_ret ]
  end.

Lemma with_random_vertex_id_same (m : Aging2Master) :
  set_results (Result.with_random_vertex_id (random_vertex_id m)) m = m.
Proof. destruct m as [? ? [] ? ? ? ?]. reflexivity. Qed.

Lemma returns_set_random_vertex_id (b : list WeightedEdge) w :
  returns (set_random_vertex_id b (length b)) w tt
    (set_results (Result.with_random_vertex_id
       (pick_random_vertex_id (random_vertex_id (self w)) b))) [].
Proof.
  unfold set_random_vertex_id, pick_random_vertex_id.
  destruct (_ <? _)%nat eqn:Hi.
  - apply Nat.ltb_lt in Hi.
    destruct ((source <$> b) !! _) as [v|] eqn:Hv.
    + eapply returns_ext.
      * eapply returns_bind; [apply returns_lift; reflexivity | apply returns_modify].
      * reflexivity.
      * reflexivity.
    + apply lookup_ge_None in Hv. rewrite length_fmap in Hv. lia.
  - eapply returns_ext; [apply returns_ret | | reflexivity].
    symmetry. apply with_random_vertex_id_same.
Qed.

Lemma returns_maybe_set_random_vertex_id (b : list WeightedEdge) w r :
  r = random_vertex_id (self w) ->
  returns (if r =? 0 then set_random_vertex_id b (length b) else ret tt) w tt
    (set_results (Result.with_random_vertex_id
       (if r =? 0 then pick_random_vertex_id r b else r))) [].
Proof.
  intros ->. destruct (random_vertex_id (self w) =? 0).
  - apply returns_set_random_vertex_id.
  - eapply returns_ext; [apply returns_ret | | reflexivity].
    symmetry. apply with_random_vertex_id_same.
Qed.

Lemma returns_load_edges_loop (blocks : list (list WeightedEdge)) w :
  returns (load_edges_loop blocks) w tt
    (set_results (Result.with_random_vertex_id
       (random_vertex_id_after (random_vertex_id (self w)) blocks)))
    (load_loop_events (m_workers (self w)) blocks).
Proof.
  revert w. induction blocks as [|b blocks IH]; intros w; simpl.
  - eapply returns_ext; [apply returns_ret | | reflexivity].
    symmetry. apply with_random_vertex_id_same.
  - destruct (0 <? length b)%nat.
    + eapply returns_ext.
      * returns_step. returns_step.
        eapply returns_bind;
          [apply returns_maybe_set_random_vertex_id; reflexivity|].
        cbv beta; simpl self; simpl trace.
        returns_step. returns_step. apply IH.
      * reflexivity.
      * simpl. by rewrite ?app_nil_r, <- ?app_assoc.
    + eapply returns_ext; [apply returns_ret | | reflexivity].
      symmetry. apply with_random_vertex_id_same.
Qed.

Lemma set_workers_app_nil (m : Aging2Master) :
  set_workers (m_workers m ++ []) m = m.
Proof. destruct m. unfold set_workers. simpl. by rewrite app_nil_r. Qed.

Lemma returns_new_workers (l : list Z) w :
  returns
    (for_each l (fun worker_id =>
       emit (worker_new worker_id) ;;
       modify (fun m => set_workers (m_workers m ++ [worker_id]) m))) w tt
    (fun m => set_workers (m_workers m ++ l) m) (worker_new <$> l).
Proof.
  revert w. induction l as [|a l IH]; intros w; simpl.
  - eapply returns_ext; [apply returns_ret | | reflexivity].
    symmetry. apply set_workers_app_nil.
  - eapply returns_ext.
    + eapply returns_bind.
      * eapply returns_bind; [apply returns_emit | apply returns_modify].
      * apply IH.
    + unfold set_workers. simpl. by rewrite <- app_assoc.
    + reflexivity.
Qed.

Lemma returns_init_workers w :
  returns init_workers w tt
    (fun m => set_workers (m_workers m ++ workers (m_num_threads (m_parameters m))) m)
    (init_workers_events (m_num_threads (m_parameters (self w)))).
Proof.
  unfold init_workers, init_workers_events.
  eapply returns_ext.
  - returns_step. returns_step. returns_step.
    eapply returns_bind; [apply returns_new_workers | apply returns_emit].
  - reflexivity.
  - simpl. by rewrite ?app_nil_r, <- ?app_assoc.
Qed.

Lemma returns_constructor env w n :
  reported_times_capacity
    (set_results (Result.with_properties (log_properties env)) (self w)) = Some n ->
  returns (constructor env) w tt
    (fun m =>
       let m' := set_reported_times (replicate (Z.to_nat n) 0)
                   (set_results (Result.with_properties (log_properties env)) m) in
       set_workers (m_workers m' ++ workers (m_num_threads (m_parameters m'))) m')
    (constructor_events (m_num_threads (m_parameters (self w)))).
Proof.
  intros Hn. unfold constructor, constructor_events.
  eapply returns_ext.
  - returns_step. returns_step. returns_step.
    eapply returns_bind; [apply returns_lift; exact Hn|].
    cbv beta; simpl self; simpl trace.
    returns_step. returns_step.
    eapply returns_bind; [apply returns_init_workers | apply returns_emit].
  - reflexivity.
  - simpl. by rewrite ?app_nil_r, <- ?app_assoc.
Qed.

Lemma returns_load_edges env w :
  returns (load_edges env) w tt
    (set_results (Result.with_random_vertex_id
       (random_vertex_id_after (random_vertex_id (self w)) (log_edges env))))
    (load_edges_events (m_path_log (m_parameters (self w)))
       (m_workers (self w)) (log_edges env)).
Proof.
  unfold load_edges, load_edges_events.
  eapply returns_ext.
  - do 6 returns_step.
    eapply returns_bind; [apply returns_load_edges_loop|].
    cbv beta; simpl self; simpl trace.
    returns_step. returns_step.
  - reflexivity.
  - simpl. by rewrite ?app_nil_r, <- ?app_assoc.
Qed.

Lemma returns_workers_have_run env w buf :
  stamps (m_reported_times (self w)) (worker_stamps env) = Some buf ->
  returns (workers_have_run env) w tt
    (fun m => set_progress (m_last_progress_reported m)
                (worker_last_time_reported env) (set_reported_times buf m)) [].
Proof.
  intros Hb. unfold workers_have_run.
  eapply returns_ext.
  - returns_step.
    eapply returns_bind; [apply returns_lift; exact Hb|].
    cbv beta; simpl self; simpl trace.
    returns_step. returns_step.
  - reflexivity.
  - reflexivity.
Qed.

Lemma returns_do_run_experiment env w buf :
  Cxx.to_int (m_num_threads (m_parameters (self w))) + 1 < 2 ^ 31 ->
  stamps (m_reported_times (self w)) (worker_stamps env) = Some buf ->
  returns (do_run_experiment env) w tt
    (fun m =>
       set_results (Result.with_num_build_invocations (build_invocations env))
         (set_results (Result.with_completion_time (experiment_microseconds env))
            (set_progress 0 (worker_last_time_reported env)
               (set_reported_times buf m))))
    (do_run_experiment_events (m_num_threads (m_parameters (self w)))
       (m_build_frequency (m_parameters (self w))) (m_workers (self w))).
Proof.
  intros Ht Hb. unfold do_run_experiment, do_run_experiment_events.
  apply Z.ltb_lt in Ht.
  eapply returns_ext.
  - returns_step. returns_step. returns_step.
    eapply returns_bind.
    { unfold id; simpl. rewrite Ht. apply returns_ret. }
    cbv beta; simpl self; simpl trace.
    do 4 returns_step.
    eapply returns_bind; [apply returns_workers_have_run; exact Hb|].
    cbv beta; simpl self; simpl trace.
    do 10 returns_step.
  - reflexivity.
  - simpl. by rewrite ?app_nil_r, <- ?app_assoc.
Qed.

Lemma returns_remove_vertices env w :
  returns (remove_vertices env) w tt
    (set_results (Result.with_num_artificial_vertices
       (internal_vertices_temporary_cardinality (log_properties env))))
    (remove_vertices_events
       (internal_vertices_temporary_cardinality (log_properties env))
       (Result.m_num_vertices_final_graph (m_results (self w)))
       (m_workers (self w))).
Proof.
  unfold remove_vertices, remove_vertices_events.
  eapply returns_ext.
  - do 13 returns_step.
  - reflexivity.
  - simpl. by rewrite ?app_nil_r, <- ?app_assoc.
Qed.

Lemma copy_reported_times_take (buf : list Z) (count i : nat) (out : list Z) :
  (i + count <= length buf)%nat ->
  copy_reported_times buf i count out = Some (out ++ take count (drop i buf)).
Proof.
  revert i out. induction count as [|count IH]; intros i out Hle; simpl.
  - by rewrite take_0, app_nil_r.
  - destruct (buf !! i) as [t|] eqn:Ht.
    + rewrite IH by lia. f_equal. rewrite <- app_assoc. f_equal.
      rewrite (drop_S buf t i Ht). reflexivity.
    + apply lookup_ge_None in Ht. lia.
Qed.

Lemma returns_store_results env w (k : nat) :
  uint64 (m_last_time_reported (self w)) = Z.of_nat k ->
  (k <= length (m_reported_times (self w)))%nat ->
  returns (store_results env) w tt
    (fun m =>
       set_results
         (Result.with_reported_times
            (Result.m_reported_times (m_results m)
             ++ take k (m_reported_times m)))
         (set_results
            (Result.with_final_graph (lib_num_vertices env) (lib_num_edges env)) m))
    [num_vertices; num_edges].
Proof.
  intros Hk Hle. unfold store_results.
  eapply returns_ext.
  - do 4 returns_step.
    eapply returns_bind.
    { apply returns_lift. unfold id; simpl. rewrite Hk, Nat2Z.id.
      apply copy_reported_times_take. simpl. exact Hle. }
    cbv beta; simpl self; simpl trace.
    returns_step.
  - reflexivity.
  - reflexivity.
Qed.

Lemma returns_log_num_vtx_edges w :
  returns log_num_vtx_edges w tt id [cout (match_report (m_results (self w)))].
Proof.
  unfold log_num_vtx_edges, match_report.
  eapply returns_ext.
  - returns_step. returns_step.
  - reflexivity.
  - reflexivity.
Qed.

Lemma returns_destructor w :
  returns destructor w tt
    (fun m => set_reported_times [] (set_workers [] m))
    (destructor_events (m_num_threads (m_parameters (self w))) (m_workers (self w))).
Proof.
  unfold destructor, destructor_events.
  eapply returns_ext.
  - do 6 returns_step.
  - reflexivity.
  - simpl. by rewrite ?app_nil_r, <- ?app_assoc.
Qed.

Lemma returns_execute env w buf k :
  Cxx.to_int (m_num_threads (m_parameters (self w))) + 1 < 2 ^ 31 ->
  stamps (m_reported_times (self w)) (worker_stamps env) = Some buf ->
  uint64 (worker_last_time_reported env) = Z.of_nat k ->
  (k <= length buf)%nat ->
  returns (execute env) w (m_results (execute_update env buf k (self w)))
    (execute_update env buf k) (execute_events env buf k (self w)).
Proof.
  intros Ht Hb Hk Hle. unfold execute, execute_events.
  eapply returns_ext.
  - eapply returns_bind; [apply returns_load_edges|].
    eapply returns_bind; [apply (returns_do_run_experiment env _ buf); assumption|].
    eapply returns_bind; [apply returns_remove_vertices|].
    eapply returns_bind; [apply (returns_store_results env _ k); assumption|].
    eapply returns_bind; [apply returns_log_num_vtx_edges|].
    eapply returns_bind; [apply returns_get | apply returns_ret].
  - reflexivity.
  - simpl. by rewrite ?app_nil_r, <- ?app_assoc.
Qed.

(** A well-defined run returns: its result and its events. *)
Lemma run_returns env parameters n buf k :
  well_defined env parameters n buf k ->
  exists m,
    run env parameters
    = Some (run_result env parameters n buf k,
            {| self := m; trace := run_events env parameters n buf k |}).
Proof.
  intros [Hn Ht Hb Hk Hle]. unfold run.
  assert (Hc : returns (constructor env) (initial env parameters) tt
                 (fun _ => constructed env parameters n)
                 (constructor_events (m_num_threads parameters))).
  { eapply returns_ext; [apply (returns_constructor env _ n); exact Hn | |];
      reflexivity. }
  assert (Hr : returns
            (constructor env ;; r <- execute env ;; destructor ;; ret r)
            (initial env parameters)
            (run_result env parameters n buf k)
            (fun _ => set_reported_times []
                        (set_workers []
                           (execute_update env buf k (constructed env parameters n))))
            (constructor_events (m_num_threads parameters)
             ++ execute_events env buf k (constructed env parameters n)
             ++ destructor_events (m_num_threads parameters)
                  (workers (m_num_threads parameters)))).
  { eapply returns_ext.
    - eapply returns_bind; [exact Hc|].
      eapply returns_bind; [apply (returns_execute env _ buf k); assumption|].
      eapply returns_bind; [apply returns_destructor | apply returns_ret].
    - reflexivity.
    - simpl. by rewrite ?app_nil_r, <- ?app_assoc. }
  eexists. exact Hr.
Qed.

Example capacity_1000001_1000 :
  reported_times_capacity
    (constructed
       {| lib_is_directed := false; lib_num_vertices := 0; lib_num_edges := 0;
          log_properties :=
            {| internal_vertices_temporary_cardinality := 0;
               internal_vertices_final_cardinality := 0;
               internal_edges_final := 1000;
               internal_edges_cardinality := 1000001;
               internal_edges_block_size := 3 |};
          log_edges := []; log_vtx_temp := []; worker_stamps := [];
          worker_last_time_reported := 0; experiment_microseconds := 0;
          build_invocations := 0 |}
       (sample_parameters 1 4) 0)
  = Some 1002.
Proof. vm_compute. reflexivity. Qed.

Example sample_run_result :
  fst <$> run (sample_env [(0%nat, 100); (1%nat, 200)]) (sample_parameters 2 1)
  = Some {| Result.m_num_artificial_vertices := 1;
            Result.m_num_vertices_load := 4;
            Result.m_num_edges_load := 5;
            Result.m_num_operations_total := 10;
            Result.m_num_vertices_final_graph := 4;
            Result.m_num_edges_final_graph := 4;
            Result.m_completion_time := 1234;
            Result.m_num_build_invocations := 0;
            Result.m_reported_times := [100; 200];
            Result.m_random_vertex_id := 3 |}.
Proof. vm_compute. reflexivity. Qed.

Lemma sample_well_defined :
  well_defined (sample_env [(0%nat, 100); (1%nat, 200)]) (sample_parameters 2 1)
    3 [100; 200; 0] 2.
Proof. split; vm_compute; (reflexivity || lia || discriminate). Qed.

(** *** The array of reported times *)

Lemma stamps_length (l : list (nat * Z)) (buf buf' : list Z) :
  stamps buf l = Some buf' -> length buf' = length buf.
Proof.
  revert buf. induction l as [|s l IH]; intros buf; simpl.
  - by intros [= ->].
  - unfold stamp. destruct (decide _); [|discriminate].
    intros H. rewrite (IH _ H). apply length_insert.
Qed.

Lemma stamps_lookup_other (l : list (nat * Z)) (buf buf' : list Z) (i : nat) :
  stamps buf l = Some buf' -> i ∉ l.*1 -> buf' !! i = buf !! i.
Proof.
  revert buf. induction l as [|s l IH]; intros buf; simpl.
  - by intros [= ->].
  - unfold stamp. destruct (decide _); [|discriminate].
    intros H Hi. apply not_elem_of_cons in Hi as [Hne Hi].
    rewrite (IH _ H Hi). by apply list_lookup_insert_ne.
Qed.

(** C1 (a defect of the code).  The specification sizes [m_reported_times]
    as [ceil(num_operations_total / num_edges_load) * num_reports_per_ops + 1].
    The constructor leaves the factor [num_reports_per_ops] out: the size it
    computes does not depend on that parameter.  For ten operations, five
    final edges and two reports per [num_edges] operations it allocates 3
    slots where 5 are specified, and a run in which the workers stamp the four
    reports that setting announces writes outside the array. *)
Theorem reported_times_capacity_misses_reports_per_ops :
  reported_times_capacity (constructed (sample_env []) (sample_parameters 2 2) 0)
  = Some 3
  /\ specified_slots 10 5 2 = 5
  /\ (forall env p n v,
        reported_times_capacity
          (constructed env (with_num_reports_per_operations v p) n)
        = reported_times_capacity (constructed env p n))
  /\ run (sample_env [(0%nat, 100); (1%nat, 200); (2%nat, 300); (3%nat, 400)])
       (sample_parameters 2 2) = None.
Proof.
  split; [vm_compute; reflexivity|].
  split; [vm_compute; reflexivity|].
  split; [reflexivity|].
  vm_compute. reflexivity.
Qed.

(** C9.  In a well-defined run the result holds exactly
    [m_last_time_reported] reported times, the first entries of the array in
    the order of their indices, whatever the size [n] of the array; an entry
    whose slot no worker stamped is zero, the array being value-initialised. *)
Theorem store_results_copies_reported_prefix env parameters n buf k :
  well_defined env parameters n buf k ->
  exists r w,
    run env parameters = Some (r, w)
    /\ Z.of_nat k = uint64 (worker_last_time_reported env)
    /\ length buf = Z.to_nat n
    /\ Result.m_reported_times r = take k buf
    /\ length (Result.m_reported_times r) = k
    /\ (forall i, (i < k)%nat -> Result.m_reported_times r !! i = buf !! i)
    /\ (forall i, (i < k)%nat -> i ∉ (worker_stamps env).*1 ->
          Result.m_reported_times r !! i = Some 0).
Proof.
  intros Hwd. destruct (run_returns _ _ _ _ _ Hwd) as [m Hrun].
  destruct Hwd as [Hn Ht Hb Hk Hle].
  assert (Hlen : length buf = Z.to_nat n).
  { rewrite (stamps_length _ _ _ Hb). apply length_replicate. }
  assert (Htake : forall i, (i < k)%nat -> take k buf !! i = buf !! i).
  { intros i Hi. by apply lookup_take_lt. }
  eexists _, _. split; [exact Hrun|].
  change (Result.m_reported_times (run_result env parameters n buf k))
    with (take k buf).
  repeat split; try done.
  - rewrite length_take. lia.
  - intros i Hi Hfree. rewrite (Htake i Hi).
    rewrite (stamps_lookup_other _ _ _ i Hb Hfree).
    apply lookup_replicate_2. lia.
Qed.

Lemma store_results_copies_reported_prefix_witness :
  exists r w,
    run (sample_env [(0%nat, 100); (1%nat, 200)]) (sample_parameters 2 1)
    = Some (r, w)
    /\ Result.m_reported_times r = [100; 200].
Proof.
  destruct (store_results_copies_reported_prefix _ _ _ _ _ sample_well_defined)
    as (r & w & Hrun & _ & _ & Hr & _).
  exists r, w. split; [exact Hrun | exact Hr].
Defined.

(** *** Cardinalities *)

(** C5.  When the number of vertices or of edges the library reports at the
    end differs from the one the log announces, the run still returns its
    result: the result holds both the announced and the observed
    cardinalities, and the line written to the standard output says
    [no, expected] followed by the announced number. *)
Theorem cardinality_mismatch_is_reported env parameters n buf k :
  well_defined env parameters n buf k ->
  lib_num_vertices env <> internal_vertices_final_cardinality (log_properties env)
  \/ lib_num_edges env <> internal_edges_final (log_properties env) ->
  exists r w,
    run env parameters = Some (r, w)
    /\ Result.m_num_vertices_load r
       = internal_vertices_final_cardinality (log_properties env)
    /\ Result.m_num_edges_load r = internal_edges_final (log_properties env)
    /\ Result.m_num_vertices_final_graph r = lib_num_vertices env
    /\ Result.m_num_edges_final_graph r = lib_num_edges env
    /\ cout (match_report r) ∈ trace w
    /\ (lib_num_vertices env
        <> internal_vertices_final_cardinality (log_properties env) ->
        exists pre post,
          match_report r
          = pre ++ [Str "no, expected "; Num (Result.m_num_vertices_load r)] ++ post)
    /\ (lib_num_edges env <> internal_edges_final (log_properties env) ->
        exists pre post,
          match_report r
          = pre ++ [Str "no, expected "; Num (Result.m_num_edges_load r)] ++ post).
Proof.
  intros Hwd _. destruct (run_returns _ _ _ _ _ Hwd) as [m Hrun].
  eexists _, _. split; [exact Hrun|].
  repeat split; try reflexivity.
  - unfold run_events, execute_events. cbn [trace].
    rewrite !elem_of_app, !elem_of_cons. tauto.
  - intros Hne. unfold match_report.
    change (Result.m_num_vertices_load (run_result env parameters n buf k))
      with (internal_vertices_final_cardinality (log_properties env)).
    change (Result.m_num_vertices_final_graph (run_result env parameters n buf k))
      with (lib_num_vertices env).
    destruct (Z.eqb_spec (internal_vertices_final_cardinality (log_properties env))
                (lib_num_vertices env)) as [Heq|_]; [congruence|].
    eexists [_; _; _], _. reflexivity.
  - intros Hne. unfold match_report.
    change (Result.m_num_edges_load (run_result env parameters n buf k))
      with (internal_edges_final (log_properties env)).
    change (Result.m_num_edges_final_graph (run_result env parameters n buf k))
      with (lib_num_edges env).
    destruct (Z.eqb_spec (internal_edges_final (log_properties env))
                (lib_num_edges env)) as [Heq|_]; [congruence|].
    destruct (_ =? _);
      [eexists [_; _; _; _; _; _; _] | eexists [_; _; _; _; _; _; _; _]];
      eexists; reflexivity.
Qed.

Lemma cardinality_mismatch_is_reported_witness :
  exists r w,
    run (sample_env [(0%nat, 100); (1%nat, 200)]) (sample_parameters 2 1)
    = Some (r, w)
    /\ Result.m_num_edges_load r = 5
    /\ Result.m_num_edges_final_graph r = 4.
Proof.
  destruct (cardinality_mismatch_is_reported _ _ _ _ _ sample_well_defined)
    as (r & w & Hrun & _ & He & _ & He' & _).
  - right. vm_compute. discriminate.
  - exists r, w. split; [exact Hrun|]. split; [exact He | exact He'].
Defined.

(** *** The order of the calls *)

Lemma none_nil P : none P [].
Proof. reflexivity. Qed.

Lemma none_app P l1 l2 : none P l1 -> none P l2 -> none P (l1 ++ l2).
Proof. unfold none. intros H1 H2. by rewrite List.filter_app, H1, H2. Qed.

Lemma none_cons P e l : P e = false -> none P l -> none P (e :: l).
Proof. unfold none. simpl. by intros -> ->. Qed.

Lemma none_fmap {A} P (g : A -> event) (l : list A) :
  (forall a, P (g a) = false) -> none P (g <$> l).
Proof.
  intros Hg. induction l as [|a l IH]; [reflexivity|].
  simpl. apply none_cons; [apply Hg | exact IH].
Qed.

Lemma none_load_loop_events P ws blocks :
  (forall w n, P (worker_load_edges w n) = false) ->
  P loader_load = false ->
  (forall w, P (worker_wait w) = false) ->
  none P (load_loop_events ws blocks).
Proof.
  intros Hl Hr Hw. induction blocks as [|b blocks IH]; simpl; [reflexivity|].
  destruct (0 <? length b)%nat; [|reflexivity].
  apply none_app; [apply none_fmap; intros; apply Hl|].
  apply none_cons; [exact Hr|].
  apply none_app; [apply none_fmap; exact Hw | exact IH].
Qed.

(** Decides [none P l] for the lists of events of a run. *)
Ltac none_solve :=
  repeat first
    [ apply none_nil
    | apply none_app
    | apply none_cons; [reflexivity|]
    | apply none_fmap; intros; reflexivity
    | apply none_load_loop_events; intros; reflexivity ].

Lemma to_int_small (z : Z) : - 2 ^ 31 <= z < 2 ^ 31 -> Cxx.to_int z = z.
Proof. intros H. unfold Cxx.to_int. rewrite Z.mod_small; lia. Qed.

Lemma uint64_small (z : Z) : 0 <= z < 2 ^ 64 -> uint64 z = z.
Proof. intros H. unfold uint64. apply Z.mod_small. lia. Qed.

Lemma filter_fmap_none {A} P (g : A -> event) (l : list A) :
  (forall a, P (g a) = false) -> List.filter P (g <$> l) = [].
Proof. apply none_fmap. Qed.

Lemma filter_load_loop_events_none P ws blocks :
  (forall w n, P (worker_load_edges w n) = false) ->
  P loader_load = false ->
  (forall w, P (worker_wait w) = false) ->
  List.filter P (load_loop_events ws blocks) = [].
Proof. apply none_load_loop_events. Qed.

(** Computes [List.filter P] on the events of a run, for a kind [P] that
    holds of no event of the loops over the workers. *)
Ltac filter_run_events :=
  unfold run_events, constructor_events, init_workers_events, execute_events,
    load_edges_events, do_run_experiment_events, remove_vertices_events,
    destructor_events;
  rewrite ?List.filter_app;
  rewrite ?filter_fmap_none by (intros; reflexivity);
  rewrite ?filter_load_loop_events_none by (intros; reflexivity);
  cbn [List.filter app is_on_main_init is_on_thread_init is_on_thread_destroy
       is_build_service_new is_build_service_stop is_worker_execute_updates
       is_worker_remove_vertices is_completion_time].

(** C4.  In a run with [T] worker threads, among the calls of the master,
    the library is told once, by [on_main_init], to expect [T + 2] threads; the master's thread registers
    itself once, as thread [T], and unregisters as thread [T] at the very end
    of the run, just before [on_main_destroy]; the build service is created
    once, for thread [T + 1]. *)
Theorem thread_identifiers env parameters n buf k :
  well_defined env parameters n buf k ->
  0 <= m_num_threads parameters ->
  m_num_threads parameters + 2 < 2 ^ 31 ->
  let T := m_num_threads parameters in
  exists r w,
    run env parameters = Some (r, w)
    /\ List.filter is_on_main_init (trace w) = [on_main_init (T + 2)]
    /\ List.filter is_on_thread_init (trace w) = [on_thread_init T]
    /\ List.filter is_on_thread_destroy (trace w) = [on_thread_destroy T]
    /\ List.filter is_build_service_new (trace w)
       = [build_service_new (T + 1) (m_build_frequency parameters)]
    /\ exists pre,
         trace w = pre ++ [on_thread_destroy T; on_main_destroy]
         /\ on_thread_init T ∈ pre.
Proof.
  intros Hwd H0 HT T. destruct (run_returns _ _ _ _ _ Hwd) as [m Hrun].
  assert (Hu : uint64 (T + 2) = T + 2) by (apply uint64_small; subst T; lia).
  assert (Hi2 : Cxx.to_int (T + 2) = T + 2) by (apply to_int_small; subst T; lia).
  assert (Hi : Cxx.to_int T = T) by (apply to_int_small; subst T; lia).
  eexists _, _. split; [exact Hrun|]. cbn [trace].
  split; [|split; [|split; [|split]]].
  - filter_run_events. fold T. by rewrite Hu, Hi2.
  - filter_run_events. fold T. by rewrite Hi.
  - filter_run_events. fold T. by rewrite Hi.
  - filter_run_events. cbn [m_parameters m_build_frequency constructed].
    fold T. by rewrite Hi.
  - unfold run_events, destructor_events. fold T. rewrite Hi.
    eexists. split.
    + rewrite !app_assoc. reflexivity.
    + unfold constructor_events. fold T. rewrite Hi.
      rewrite !elem_of_app, !elem_of_cons. tauto.
Qed.

Lemma thread_identifiers_witness :
  exists r w,
    run (sample_env [(0%nat, 100); (1%nat, 200)]) (sample_parameters 2 1)
    = Some (r, w)
    /\ List.filter is_on_main_init (trace w) = [on_main_init 4]
    /\ List.filter is_build_service_new (trace w) = [build_service_new 3 0].
Proof.
  destruct (thread_identifiers _ _ _ _ _ sample_well_defined)
    as (r & w & Hrun & Hmain & _ & _ & Hbuild & _).
  - vm_compute. discriminate.
  - vm_compute. reflexivity.
  - exists r, w. split; [exact Hrun|]. split; [exact Hmain | exact Hbuild].
Defined.

Lemma lookup_workers (T id : Z) :
  0 <= id < T -> workers T !! Z.to_nat id = Some id.
Proof.
  intros H. unfold workers. apply lookup_seqZ. split; lia.
Qed.

Lemma length_workers (T : Z) : length (workers T) = Z.to_nat T.
Proof. apply length_seqZ. Qed.

(** C3.  The calls of the master in a run split around the creation of the
    build service, which starts it, and the three consecutive calls that stop
    the service, call [build] and stop the timer of the experiment.  The
    service is created once and stopped once.  No worker
    is told to execute the updates before the service is created; between
    the creation and the stop every worker is told to execute the updates and
    is later waited for; [build] directly follows the stop and directly
    precedes the stop of the timer, whose value is read afterwards; the
    removal of the temporary vertices is requested from every worker after
    this, and never before. *)
Theorem build_service_brackets_the_updates env parameters n buf k :
  well_defined env parameters n buf k ->
  let T := m_num_threads parameters in
  exists r w pre mid post,
    run env parameters = Some (r, w)
    /\ trace w
       = pre ++ [build_service_new (Cxx.to_int T + 1) (m_build_frequency parameters)]
         ++ mid ++ [build_service_stop; build; timer_stop Experiment] ++ post
    /\ none is_build_service_new (pre ++ mid ++ post)
    /\ none is_build_service_stop (pre ++ mid ++ post)
    /\ none is_worker_execute_updates (pre ++ post)
    /\ (forall id, 0 <= id < T ->
          exists i j, (i < j)%nat
            /\ mid !! i = Some (worker_execute_updates id)
            /\ mid !! j = Some (worker_wait id))
    /\ none is_completion_time (pre ++ mid)
    /\ timer_microseconds Experiment ∈ post
    /\ none is_worker_remove_vertices (pre ++ mid)
    /\ (forall id, 0 <= id < T ->
          exists num_vertices, worker_remove_vertices id num_vertices ∈ post).
Proof.
  intros Hwd T. destruct (run_returns _ _ _ _ _ Hwd) as [m Hrun].
  set (ws := workers T).
  exists (run_result env parameters n buf k),
    {| self := m; trace := run_events env parameters n buf k |},
    ([is_directed] ++ constructor_events T
     ++ load_edges_events (m_path_log parameters) ws (log_edges env)
     ++ [LOG [Str "[Aging2] Experiment started ..."]]),
    ([timer_start Experiment]
     ++ (worker_execute_updates <$> ws) ++ (worker_wait <$> ws)),
    ([LOG [Str "[Aging2] Experiment completed!"];
      LOG [Str "[Aging2] Updates performed with "; Num T;
           Str " threads in "; Elapsed];
      timer_microseconds Experiment;
      build_service_num_invocations;
      build_service_delete]
     ++ remove_vertices_events
          (internal_vertices_temporary_cardinality (log_properties env)) 0 ws
     ++ [num_vertices; num_edges]
     ++ [cout (match_report (run_result env parameters n buf k))]
     ++ destructor_events T ws).
  split; [exact Hrun|]. cbn [trace].
  split.
  { unfold run_events, execute_events, do_run_experiment_events.
    cbn [m_parameters m_workers m_results constructed m_num_threads
         m_build_frequency m_path_log].
    fold T. fold ws. rewrite <- ?app_assoc. reflexivity. }
  unfold constructor_events, init_workers_events, load_edges_events,
    remove_vertices_events, destructor_events.
  split; [none_solve|]. split; [none_solve|]. split; [none_solve|].
  split.
  { intros id Hid. exists (S (Z.to_nat id)), (S (Z.to_nat T + Z.to_nat id)).
    split; [lia|]. cbn [app]. rewrite !lookup_cons.
    split.
    - rewrite lookup_app_l by (rewrite length_fmap; unfold ws;
                               rewrite length_workers; lia).
      rewrite list_lookup_fmap. unfold ws. by rewrite lookup_workers.
    - rewrite lookup_app_r by (rewrite length_fmap; unfold ws;
                               rewrite length_workers; lia).
      rewrite length_fmap. unfold ws. rewrite length_workers.
      replace (Z.to_nat T + Z.to_nat id - Z.to_nat T)%nat with (Z.to_nat id) by lia.
      rewrite list_lookup_fmap. by rewrite lookup_workers. }
  split; [none_solve|].
  split; [rewrite !elem_of_app, !elem_of_cons; tauto|].
  split; [none_solve|].
  intros id Hid.
  exists (internal_vertices_temporary_cardinality (log_properties env)).
  apply elem_of_app. right. apply elem_of_app. left.
  apply elem_of_app. right. apply elem_of_app. left.
  apply list_elem_of_fmap. exists id. split; [reflexivity|].
  apply list_elem_of_lookup. exists (Z.to_nat id). by apply lookup_workers.
Qed.

Lemma build_service_brackets_the_updates_witness :
  exists r w pre mid post,
    run (sample_env [(0%nat, 100); (1%nat, 200)]) (sample_parameters 2 1)
    = Some (r, w)
    /\ trace w
       = pre ++ [build_service_new 3 0] ++ mid
         ++ [build_service_stop; build; timer_stop Experiment] ++ post
    /\ none is_worker_execute_updates (pre ++ post).
Proof.
  destruct (build_service_brackets_the_updates _ _ _ _ _ sample_well_defined)
    as (r & w & pre & mid & post & Hrun & Htr & _ & _ & Hex & _).
  exists r, w, pre, mid, post. split; [exact Hrun|]. split; [exact Htr | exact Hex].
Defined.

(** *** The random vertex *)

Lemma skip_deletions_offset (suf pre : list WeightedEdge) (fuel : nat) :
  (length suf <= fuel)%nat ->
  skip_deletions fuel (weight <$> (pre ++ suf)) (length (pre ++ suf)) (length pre)
  = (length pre + deletions_prefix suf)%nat.
Proof.
  revert pre fuel. induction suf as [|e suf IH]; intros pre fuel Hfuel.
  - rewrite app_nil_r. simpl. destruct fuel; simpl; [lia|].
    rewrite Nat.ltb_irrefl. lia.
  - destruct fuel as [|fuel]; [simpl in Hfuel; lia|].
    simpl skip_deletions.
    assert (Hlt : (length pre <? length (pre ++ e :: suf))%nat = true).
    { apply Nat.ltb_lt. rewrite length_app. simpl. lia. }
    rewrite Hlt.
    assert (Hw : (weight <$> (pre ++ e :: suf)) !! length pre = Some (weight e)).
    { rewrite list_lookup_fmap, lookup_app_r by lia.
      by rewrite Nat.sub_diag. }
    rewrite Hw. simpl deletions_prefix.
    destruct (weight e <=? 0)%float; [|lia].
    replace (pre ++ e :: suf) with ((pre ++ [e]) ++ suf)
      by (by rewrite <- app_assoc).
    replace (S (length pre)) with (length (pre ++ [e]))
      by (rewrite length_app; simpl; lia).
    rewrite IH by (simpl in Hfuel; lia).
    rewrite length_app. simpl. lia.
Qed.

Lemma skip_deletions_prefix (b : list WeightedEdge) :
  skip_deletions (length b) (weight <$> b) (length b) 0 = deletions_prefix b.
Proof. apply (skip_deletions_offset b [] (length b)). lia. Qed.

Lemma first_insertion_lookup (b : list WeightedEdge) :
  (forall e, e ∈ b -> is_nan (weight e) = false) ->
  first_insertion b = b !! deletions_prefix b.
Proof.
  unfold first_insertion. induction b as [|e b IH]; intros Hnan; [reflexivity|].
  simpl. unfold is_insertion at 1.
  rewrite (leb_zero_ltb (weight e)) by (apply Hnan; left).
  destruct (0 <? weight e)%float; simpl; [reflexivity|].
  apply IH. intros e' He'. apply Hnan. by right.
Qed.

Lemma pick_random_vertex_id_found (r : Z) (b : list WeightedEdge) e :
  (forall e, e ∈ b -> is_nan (weight e) = false) ->
  first_insertion b = Some e -> pick_random_vertex_id r b = source e.
Proof.
  intros Hnan Hf. rewrite (first_insertion_lookup b Hnan) in Hf.
  unfold pick_random_vertex_id. rewrite skip_deletions_prefix.
  pose proof (lookup_lt_Some _ _ _ Hf) as Hlt.
  apply Nat.ltb_lt in Hlt. rewrite Hlt.
  by rewrite list_lookup_fmap, Hf.
Qed.

Lemma pick_random_vertex_id_none (r : Z) (b : list WeightedEdge) :
  (forall e, e ∈ b -> is_nan (weight e) = false) ->
  first_insertion b = None -> pick_random_vertex_id r b = r.
Proof.
  intros Hnan Hf. rewrite (first_insertion_lookup b Hnan) in Hf.
  unfold pick_random_vertex_id. rewrite skip_deletions_prefix.
  apply lookup_ge_None in Hf.
  destruct (Nat.ltb_spec (deletions_prefix b) (length b)); [lia | reflexivity].
Qed.

Lemma random_vertex_id_after_nonzero (r : Z) blocks :
  r <> 0 -> random_vertex_id_after r blocks = r.
Proof.
  intros Hr. induction blocks as [|b blocks IH]; simpl; [reflexivity|].
  destruct (0 <? length b)%nat; [|reflexivity].
  destruct (Z.eqb_spec r 0); [contradiction | exact IH].
Qed.

Lemma first_insertion_app (l1 l2 : list WeightedEdge) :
  first_insertion (l1 ++ l2)
  = match first_insertion l1 with
    | Some e => Some e
    | None => first_insertion l2
    end.
Proof.
  unfold first_insertion. induction l1 as [|e l1 IH]; simpl; [reflexivity|].
  destruct (is_insertion e); [reflexivity | exact IH].
Qed.

Lemma first_insertion_elem (l : list WeightedEdge) e :
  first_insertion l = Some e -> e ∈ l.
Proof.
  unfold first_insertion. intros H. apply List.find_some in H as [H _].
  by apply list_elem_of_In.
Qed.

Lemma random_vertex_id_after_first_insertion blocks e :
  (forall b e', b ∈ delivered blocks -> e' ∈ b ->
     is_nan (weight e') = false /\ source e' <> 0) ->
  first_insertion (concat (delivered blocks)) = Some e ->
  random_vertex_id_after 0 blocks = source e.
Proof.
  induction blocks as [|b blocks IH]; simpl; [discriminate|].
  destruct (0 <? length b)%nat; [|discriminate].
  intros Hok. simpl. rewrite first_insertion_app.
  assert (Hnan : forall e', e' ∈ b -> is_nan (weight e') = false).
  { intros e' He'. apply (Hok b e'); [left | exact He']. }
  destruct (first_insertion b) as [e'|] eqn:Hb.
  - intros [= ->]. rewrite (pick_random_vertex_id_found 0 b e Hnan Hb).
    apply random_vertex_id_after_nonzero.
    apply (Hok b e); [left | by apply first_insertion_elem].
  - intros He. rewrite (pick_random_vertex_id_none 0 b Hnan Hb).
    apply IH; [|exact He].
    intros b' e' Hb' He'. apply (Hok b' e'); [by right | exact He'].
Qed.

(** C2, as the specification states it, fails: in the sample log the first
    block holds a deletion only, and the vertex comes from the second block. *)
Lemma random_vertex_id_first_block_counterexample :
  ~ random_vertex_id_from_first_block (sample_env [])
      {| self := constructed (sample_env []) (sample_parameters 2 1) 3;
         trace := [] |}.
Proof.
  intros H. destruct H as (w' & b & e & _ & Hb & He & _).
  - eexists _, {| source := 3; destination := 4; weight := 1%float |}.
    split; [right; left|]. split; [left | reflexivity].
  - injection Hb as <-. vm_compute in He. discriminate.
Qed.

(** C2, amended.  Vertex identifiers being non-zero and no weight being NaN,
    the load phase started with no random vertex returns, and leaves in the
    result the source of the first insertion of the stream, in the order the
    blocks are read; it is not zero.  When the first block holds an insertion
    this is the first insertion of the first block. *)
Theorem random_vertex_id_is_first_insertion env w e :
  random_vertex_id (self w) = 0 ->
  (forall b e', b ∈ delivered (log_edges env) -> e' ∈ b ->
     is_nan (weight e') = false /\ source e' <> 0) ->
  first_insertion (concat (delivered (log_edges env))) = Some e ->
  exists w',
    load_edges env w = Some (tt, w')
    /\ random_vertex_id (self w') = source e
    /\ random_vertex_id (self w') <> 0
    /\ (forall b, head (log_edges env) = Some b ->
          first_insertion b <> None -> first_insertion b = Some e).
Proof.
  intros Hr Hok He.
  pose proof (returns_load_edges env w) as Hl. unfold returns in Hl.
  eexists. split; [exact Hl|]. cbn [self].
  change (random_vertex_id (set_results (Result.with_random_vertex_id ?v) _))
    with v.
  rewrite Hr, (random_vertex_id_after_first_insertion _ e Hok He).
  assert (Hin : exists b, b ∈ delivered (log_edges env) /\ e ∈ b).
  { apply first_insertion_elem, list_elem_of_In, in_concat in He.
    destruct He as (b & Hb & He). exists b. split; by apply list_elem_of_In. }
  destruct Hin as (b0 & Hb0 & He0).
  split; [reflexivity|]. split; [apply (Hok b0 e Hb0 He0)|].
  intros b Hb Hsome. destruct (log_edges env) as [|b' blocks]; [discriminate|].
  injection Hb as ->. simpl in He.
  destruct (0 <? length b)%nat eqn:Hlen.
  - simpl in He. rewrite first_insertion_app in He.
    destruct (first_insertion b); [exact He | contradiction].
  - destruct b; [contradiction | discriminate].
Qed.

Lemma random_vertex_id_is_first_insertion_witness :
  exists w',
    load_edges (sample_env [])
      {| self := constructed (sample_env []) (sample_parameters 2 1) 3;
         trace := [] |} = Some (tt, w')
    /\ random_vertex_id (self w') = 3.
Proof.
  destruct (random_vertex_id_is_first_insertion (sample_env [])
              {| self := constructed (sample_env []) (sample_parameters 2 1) 3;
                 trace := [] |}
              {| source := 3; destination := 4; weight := 1%float |})
    as (w' & Hl & Hr & _).
  - reflexivity.
  - intros b e' Hb He'. simpl in Hb.
    repeat (apply elem_of_cons in Hb as [->|Hb]);
      [| |by apply elem_of_nil in Hb];
      repeat (apply elem_of_cons in He' as [->|He']);
      try (by apply elem_of_nil in He'); split; (reflexivity || discriminate).
  - reflexivity.
  - exists w'. split; [exact Hl | exact Hr].
Defined.

(** *** Further properties of the load phase *)

(** X1.  The first writer wins: started with a random vertex that is not
    zero, the load phase returns and leaves the master as it was, whatever
    the log holds. *)
Theorem load_edges_keeps_random_vertex_id env w :
  random_vertex_id (self w) <> 0 ->
  exists w', load_edges env w = Some (tt, w') /\ self w' = self w.
Proof.
  intros Hr. pose proof (returns_load_edges env w) as Hl. unfold returns in Hl.
  eexists. split; [exact Hl|]. cbn [self].
  rewrite (random_vertex_id_after_nonzero _ _ Hr).
  apply with_random_vertex_id_same.
Qed.

Lemma load_edges_keeps_random_vertex_id_witness :
  exists w',
    load_edges (sample_env []) (sample_world 42) = Some (tt, w')
    /\ random_vertex_id (self w') = 42.
Proof.
  destruct (load_edges_keeps_random_vertex_id (sample_env []) (sample_world 42))
    as (w' & Hl & Hs); [vm_compute; discriminate|].
  exists w'. split; [exact Hl|]. by rewrite Hs.
Defined.

Lemma deletions_prefix_app (pre post : list WeightedEdge) e :
  (forall e', e' ∈ pre -> (weight e' <=? 0)%float = true) ->
  (weight e <=? 0)%float = false ->
  deletions_prefix (pre ++ e :: post) = length pre.
Proof.
  intros Hpre He. induction pre as [|e' pre IH]; simpl.
  - by rewrite He.
  - rewrite (Hpre e') by left. f_equal. apply IH.
    intros e'' He''. apply Hpre. by right.
Qed.

Lemma deletions_prefix_all (b : list WeightedEdge) :
  (forall e, e ∈ b -> (weight e <=? 0)%float = true) ->
  deletions_prefix b = length b.
Proof.
  intros Hb. induction b as [|e b IH]; simpl; [reflexivity|].
  rewrite (Hb e) by left. f_equal. apply IH.
  intros e' He'. apply Hb. by right.
Qed.

(** X2.  [set_random_vertex_id] takes the source of the first entry of the
    block whose weight fails the test [weight <= 0], whatever vertex the
    result held: a positive weight fails it, and so does a weight that is not
    a number. *)
Theorem set_random_vertex_id_first_not_deletion (pre post : list WeightedEdge) e w :
  (forall e', e' ∈ pre -> (weight e' <=? 0)%float = true) ->
  (weight e <=? 0)%float = false ->
  exists w',
    set_random_vertex_id (pre ++ e :: post) (length (pre ++ e :: post)) w
    = Some (tt, w')
    /\ random_vertex_id (self w') = source e
    /\ trace w' = trace w.
Proof.
  intros Hpre He.
  pose proof (returns_set_random_vertex_id (pre ++ e :: post) w) as Hs.
  unfold returns in Hs. eexists. split; [exact Hs|]. cbn [self trace].
  split; [|by rewrite app_nil_r].
  change (random_vertex_id (set_results (Result.with_random_vertex_id ?v) _))
    with v.
  unfold pick_random_vertex_id.
  rewrite skip_deletions_prefix, (deletions_prefix_app _ _ _ Hpre He).
  assert (Hlt : (length pre <? length (pre ++ e :: post))%nat = true).
  { apply Nat.ltb_lt. rewrite length_app. simpl. lia. }
  rewrite Hlt, list_lookup_fmap, lookup_app_r, Nat.sub_diag by lia.
  reflexivity.
Qed.

Lemma set_random_vertex_id_first_not_deletion_witness :
  exists w',
    set_random_vertex_id nan_block 3 (sample_world 0) = Some (tt, w')
    /\ random_vertex_id (self w') = 7.
Proof.
  destruct (set_random_vertex_id_first_not_deletion
              [{| source := 1; destination := 2; weight := (-1)%float |}]
              [{| source := 3; destination := 4; weight := 1%float |}]
              {| source := 7; destination := 8; weight := nan |}
              (sample_world 0))
    as (w' & Hs & Hr & _).
  - intros e' He'. apply list_elem_of_singleton in He' as ->. reflexivity.
  - reflexivity.
  - exists w'. split; [exact Hs | exact Hr].
Defined.

Lemma random_vertex_id_after_deletions (r : Z) blocks :
  (forall b e, b ∈ delivered blocks -> e ∈ b -> (weight e <=? 0)%float = true) ->
  random_vertex_id_after r blocks = r.
Proof.
  revert r. induction blocks as [|b blocks IH]; intros r Hdel; simpl;
    [reflexivity|].
  simpl in Hdel. destruct (0 <? length b)%nat; [|reflexivity].
  assert (Hpick : pick_random_vertex_id r b = r).
  { unfold pick_random_vertex_id.
    rewrite skip_deletions_prefix, deletions_prefix_all, Nat.ltb_irrefl;
      [reflexivity|].
    intros e He. apply (Hdel b e); [left | exact He]. }
  rewrite Hpick. destruct (r =? 0); apply IH;
    intros b' e Hb' He; apply (Hdel b' e); (by right) || exact He.
Qed.

(** X3.  A log in which every weight passes the test [weight <= 0], an
    empty log among them, leaves the master as it was: the random vertex of
    the result stays zero. *)
Theorem load_edges_without_insertion env w :
  (forall b e, b ∈ delivered (log_edges env) -> e ∈ b ->
     (weight e <=? 0)%float = true) ->
  exists w', load_edges env w = Some (tt, w') /\ self w' = self w.
Proof.
  intros Hdel. pose proof (returns_load_edges env w) as Hl. unfold returns in Hl.
  eexists. split; [exact Hl|]. cbn [self].
  rewrite (random_vertex_id_after_deletions _ _ Hdel).
  apply with_random_vertex_id_same.
Qed.

Lemma load_edges_without_insertion_witness :
  length (delivered (log_edges deletions_env)) = 2%nat
  /\ exists w',
       load_edges deletions_env (sample_world 0) = Some (tt, w')
       /\ random_vertex_id (self w') = 0.
Proof.
  split; [reflexivity|].
  destruct (load_edges_without_insertion deletions_env (sample_world 0))
    as (w' & Hl & Hs).
  - intros b e Hb He. cbn in Hb.
    repeat match goal with
      | H : _ ∈ _ :: _ |- _ => apply elem_of_cons in H as [->|H]
      | H : _ ∈ [] |- _ => by apply elem_of_nil in H
      end; reflexivity.
  - exists w'. split; [exact Hl|]. by rewrite Hs.
Defined.

Lemma delivered_app_empty (pre post : list (list WeightedEdge)) :
  delivered (pre ++ [] :: post) = delivered pre.
Proof.
  induction pre as [|b pre IH]; simpl; [reflexivity|].
  destruct (0 <? length b)%nat; [by rewrite IH | reflexivity].
Qed.

Lemma random_vertex_id_after_delivered (r : Z) blocks :
  random_vertex_id_after r (delivered blocks) = random_vertex_id_after r blocks.
Proof.
  revert r. induction blocks as [|b blocks IH]; intros r; simpl; [reflexivity|].
  destruct (0 <? length b)%nat eqn:Hb; simpl; [|reflexivity].
  by rewrite Hb, IH.
Qed.

Lemma load_loop_events_delivered ws blocks :
  load_loop_events ws (delivered blocks) = load_loop_events ws blocks.
Proof.
  induction blocks as [|b blocks IH]; simpl; [reflexivity|].
  destruct (0 <? length b)%nat eqn:Hb; simpl; [|reflexivity].
  by rewrite Hb, IH.
Qed.

Lemma load_edges_loop_delivered blocks w :
  load_edges_loop blocks w = load_edges_loop (delivered blocks) w.
Proof.
  pose proof (returns_load_edges_loop blocks w) as H1.
  pose proof (returns_load_edges_loop (delivered blocks) w) as H2.
  unfold returns in H1, H2.
  by rewrite H1, H2, random_vertex_id_after_delivered, load_loop_events_delivered.
Qed.

(** X4.  The loop of [load_edges] ends at the first empty block: the blocks
    that follow it are neither handed to the workers nor searched for the
    random vertex. *)
Theorem load_edges_loop_stops_at_empty_block (pre post : list (list WeightedEdge)) w :
  load_edges_loop (pre ++ [] :: post) w = load_edges_loop pre w.
Proof.
  rewrite (load_edges_loop_delivered (pre ++ [] :: post)).
  rewrite (load_edges_loop_delivered pre).
  by rewrite delivered_app_empty.
Qed.

Lemma filter_load_loop_dispatch ws blocks :
  List.filter is_worker_load_edges (load_loop_events ws blocks)
  = concat (dispatch_of_block ws <$> delivered blocks).
Proof.
  induction blocks as [|b blocks IH]; simpl; [reflexivity|].
  destruct (0 <? length b)%nat; simpl; [|reflexivity].
  rewrite List.filter_app. simpl.
  rewrite List.filter_app, (filter_fmap_none _ worker_wait) by reflexivity.
  simpl. rewrite IH. f_equal.
  unfold dispatch_of_block. clear. induction ws as [|w ws IHw]; simpl;
    [reflexivity | f_equal; exact IHw].
Qed.

Lemma filter_load_loop_loader ws blocks :
  length (List.filter is_loader_load (load_loop_events ws blocks))
  = length (delivered blocks).
Proof.
  induction blocks as [|b blocks IH]; simpl; [reflexivity|].
  destruct (0 <? length b)%nat; simpl; [|reflexivity].
  rewrite List.filter_app, filter_fmap_none by reflexivity. simpl.
  rewrite List.filter_app, filter_fmap_none by reflexivity. simpl.
  by rewrite IH.
Qed.

(** X5.  During the load phase every block read before the first empty one
    is handed to every worker, in the order of the workers, with its number of
    entries, and nothing else is; the loader is called once more than there
    are such blocks. *)
Theorem load_edges_dispatches_every_block env w :
  exists w' evs,
    load_edges env w = Some (tt, w')
    /\ trace w' = trace w ++ evs
    /\ List.filter is_worker_load_edges evs
       = concat (dispatch_of_block (m_workers (self w))
                 <$> delivered (log_edges env))
    /\ length (List.filter is_loader_load evs)
       = S (length (delivered (log_edges env))).
Proof.
  pose proof (returns_load_edges env w) as Hl. unfold returns in Hl.
  eexists _, _. split; [exact Hl|]. split; [reflexivity|].
  unfold load_edges_events. split.
  - rewrite !List.filter_app. simpl. rewrite app_nil_r.
    apply filter_load_loop_dispatch.
  - rewrite !List.filter_app. simpl. rewrite app_nil_r. simpl.
    by rewrite filter_load_loop_loader.
Qed.

(** *** Further properties of a whole run *)

(** X6.  The calls of the master on the library, in a run with [T] worker
    threads: [is_directed] before [on_main_init], the registration of the
    master's thread, one [build] after the updates and one after the removal
    of the temporary vertices, the two cardinalities, and the two calls of the
    teardown; nothing else, in this order. *)
Theorem library_calls_of_a_run env parameters n buf k :
  well_defined env parameters n buf k ->
  let T := m_num_threads parameters in
  exists r w,
    run env parameters = Some (r, w)
    /\ List.filter is_library_call (trace w)
       = [is_directed;
          on_main_init (Cxx.to_int (uint64 (T + 2)));
          on_thread_init (Cxx.to_int T);
          build; build; num_vertices; num_edges;
          on_thread_destroy (Cxx.to_int T);
          on_main_destroy].
Proof.
  intros Hwd T. destruct (run_returns _ _ _ _ _ Hwd) as [m Hrun].
  eexists _, _. split; [exact Hrun|]. cbn [trace].
  unfold run_events, constructor_events, init_workers_events, execute_events,
    load_edges_events, do_run_experiment_events, remove_vertices_events,
    destructor_events.
  rewrite ?List.filter_app.
  rewrite ?filter_fmap_none by (intros; reflexivity).
  rewrite ?filter_load_loop_events_none by (intros; reflexivity).
  reflexivity.
Qed.

Lemma library_calls_of_a_run_witness :
  exists r w,
    run (sample_env [(0%nat, 100); (1%nat, 200)]) (sample_parameters 2 1)
    = Some (r, w)
    /\ List.filter is_library_call (trace w)
       = [is_directed; on_main_init 4; on_thread_init 2; build; build;
          num_vertices; num_edges; on_thread_destroy 2; on_main_destroy].
Proof.
  destruct (library_calls_of_a_run _ _ _ _ _ sample_well_defined)
    as (r & w & Hrun & Hcalls).
  exists r, w. split; [exact Hrun | exact Hcalls].
Defined.

Lemma filter_concerns_fmap_absent (g : Z -> event) (ws : list Z) (id : Z) :
  (forall x, worker_of (g x) = Some x) -> id ∉ ws ->
  List.filter (concerns id) (g <$> ws) = [].
Proof.
  intros Hg. induction ws as [|x ws IH]; intros Hid; simpl; [reflexivity|].
  apply not_elem_of_cons in Hid as [Hne Hid].
  unfold concerns at 1. rewrite Hg.
  destruct (Z.eqb_spec x id); [congruence | by apply IH].
Qed.

Lemma filter_concerns_fmap (g : Z -> event) (ws : list Z) (id : Z) :
  (forall x, worker_of (g x) = Some x) -> NoDup ws -> id ∈ ws ->
  List.filter (concerns id) (g <$> ws) = [g id].
Proof.
  intros Hg. induction ws as [|x ws IH]; intros Hnd Hid; simpl.
  - by apply elem_of_nil in Hid.
  - apply NoDup_cons in Hnd as [Hx Hnd]. unfold concerns at 1. rewrite Hg.
    destruct (Z.eqb_spec x id) as [->|Hne].
    + f_equal. by apply filter_concerns_fmap_absent.
    + apply elem_of_cons in Hid as [->|Hid]; [contradiction|]. by apply IH.
Qed.

Lemma filter_concerns_load_loop (ws : list Z) (id : Z) blocks :
  NoDup ws -> id ∈ ws ->
  List.filter (concerns id) (load_loop_events ws blocks) = load_protocol id blocks.
Proof.
  intros Hnd Hid. unfold load_protocol.
  induction blocks as [|b blocks IH]; simpl; [reflexivity|].
  destruct (0 <? length b)%nat; simpl; [|reflexivity].
  rewrite List.filter_app.
  rewrite (filter_concerns_fmap
             (fun w => worker_load_edges w (Z.of_nat (length b))) ws id)
    by (reflexivity || assumption).
  simpl. rewrite List.filter_app.
  rewrite (filter_concerns_fmap worker_wait ws id)
    by (reflexivity || assumption).
  by rewrite IH.
Qed.

(** X7.  What one worker is sent during a run: it is created, then, for
    every block of the log, it is handed the block and waited for, then it is
    told to execute the updates and waited for, then to remove the temporary
    vertices and waited for, and at last deleted.  Every command is followed
    by a wait before the next one. *)
Theorem worker_protocol env parameters n buf k id :
  well_defined env parameters n buf k ->
  0 <= id < m_num_threads parameters ->
  exists r w,
    run env parameters = Some (r, w)
    /\ List.filter (concerns id) (trace w)
       = [worker_new id]
         ++ load_protocol id (log_edges env)
         ++ [worker_execute_updates id; worker_wait id;
             worker_remove_vertices id
               (internal_vertices_temporary_cardinality (log_properties env));
             worker_wait id;
             worker_delete id].
Proof.
  intros Hwd Hid. destruct (run_returns _ _ _ _ _ Hwd) as [m Hrun].
  eexists _, _. split; [exact Hrun|]. cbn [trace].
  assert (Hnd : NoDup (workers (m_num_threads parameters))) by apply NoDup_seqZ.
  assert (Hin : id ∈ workers (m_num_threads parameters)).
  { apply elem_of_seqZ. lia. }
  unfold run_events, constructor_events, init_workers_events, execute_events,
    load_edges_events, do_run_experiment_events, remove_vertices_events,
    destructor_events.
  cbn [m_parameters m_workers m_results constructed m_num_threads].
  rewrite ?List.filter_app.
  rewrite (filter_concerns_load_loop _ _ _ Hnd Hin).
  rewrite (filter_concerns_fmap worker_new _ id) by (reflexivity || assumption).
  rewrite (filter_concerns_fmap worker_execute_updates _ id)
    by (reflexivity || assumption).
  rewrite !(filter_concerns_fmap worker_wait _ id) by (reflexivity || assumption).
  rewrite (filter_concerns_fmap (fun w => worker_remove_vertices w _) _ id)
    by (reflexivity || assumption).
  rewrite (filter_concerns_fmap worker_delete _ id) by (reflexivity || assumption).
  cbn [List.filter concerns worker_of app]. rewrite app_nil_r.
  by rewrite <- ?app_assoc.
Qed.

Lemma worker_protocol_witness :
  exists r w,
    run (sample_env [(0%nat, 100); (1%nat, 200)]) (sample_parameters 2 1)
    = Some (r, w)
    /\ List.filter (concerns 1) (trace w)
       = [worker_new 1; worker_load_edges 1 1; worker_wait 1;
          worker_load_edges 1 2; worker_wait 1;
          worker_execute_updates 1; worker_wait 1;
          worker_remove_vertices 1 1; worker_wait 1; worker_delete 1].
Proof.
  destruct (worker_protocol _ _ _ _ _ 1 sample_well_defined)
    as (r & w & Hrun & Hp); [simpl; lia|].
  exists r, w. split; [exact Hrun | exact Hp].
Defined.

Lemma copy_reported_times_past (buf : list Z) (count i : nat) (out : list Z) :
  (i <= length buf)%nat -> (length buf < i + count)%nat ->
  copy_reported_times buf i count out = None.
Proof.
  revert i out. induction count as [|count IH]; intros i out Hi Hlt; simpl;
    [lia|].
  destruct (buf !! i) as [t|] eqn:Ht; [|reflexivity].
  apply lookup_lt_Some in Ht. apply IH; lia.
Qed.

(** X8.  [store_results] copies without looking at the size of the array:
    when [m_last_time_reported] does not exceed the number of slots it returns
    and appends that many slots to the reported times of the result; when it
    does, the copy reads past the array. *)
Theorem store_results_is_unchecked env w :
  let k := Z.to_nat (uint64 (m_last_time_reported (self w))) in
  let buf := m_reported_times (self w) in
  ((k <= length buf)%nat ->
     exists w', store_results env w = Some (tt, w')
       /\ Result.m_reported_times (m_results (self w'))
          = Result.m_reported_times (m_results (self w)) ++ take k buf)
  /\ ((length buf < k)%nat -> store_results env w = None).
Proof.
  intros k buf. split.
  - intros Hle.
    assert (Hk : uint64 (m_last_time_reported (self w)) = Z.of_nat k).
    { unfold k. rewrite Z2Nat.id; [reflexivity|].
      unfold uint64. apply Z.mod_pos_bound. lia. }
    pose proof (returns_store_results env w k Hk Hle) as Hs.
    unfold returns in Hs. eexists. split; [exact Hs | reflexivity].
  - intros Hlt. unfold store_results, bind, emit, modify, get, lift. simpl.
    fold buf. fold k. rewrite (copy_reported_times_past buf k 0); [reflexivity| |];
      lia.
Qed.

Lemma store_results_is_unchecked_witness :
  (exists w', store_results (sample_env []) (reported_world 2) = Some (tt, w')
     /\ Result.m_reported_times (m_results (self w')) = [100; 200])
  /\ store_results (sample_env []) (reported_world 4) = None.
Proof.
  split.
  - destruct (proj1 (store_results_is_unchecked (sample_env []) (reported_world 2)))
      as (w' & Hs & Hr); [vm_compute; lia|].
    exists w'. split; [exact Hs | exact Hr].
  - apply (proj2 (store_results_is_unchecked (sample_env []) (reported_world 4))).
    vm_compute. lia.
Defined.

(** X9.  A log that announces no final edge makes the size of the array of
    reported times a division by zero: the conversion of the quotient, an
    infinity or NaN, to an integer is undefined, whatever the number of
    operations, and neither the constructor nor the run has a defined
    behaviour. *)
Theorem constructor_needs_a_final_edge env parameters :
  internal_edges_final (log_properties env) = 0 ->
  reported_times_capacity (constructed env parameters 0) = None
  /\ constructor env (initial env parameters) = None
  /\ run env parameters = None.
Proof.
  intros H0.
  assert (Hcap : forall m,
            Result.m_num_edges_load (m_results m) = 0 ->
            reported_times_capacity m = None).
  { intros m Hm. unfold reported_times_capacity, num_edges_final_graph.
    rewrite Hm. apply to_uint64_not_finite, add_one_not_finite.
    rewrite ceil_not_finite; apply not_finite_div_zero. }
  assert (Hc : constructor env (initial env parameters) = None).
  { unfold constructor, bind, emit, modify, get, lift. simpl.
    rewrite Hcap; [reflexivity | exact H0]. }
  split; [apply Hcap; exact H0|]. split; [exact Hc|].
  unfold run, bind. by rewrite Hc.
Qed.

Lemma constructor_needs_a_final_edge_witness :
  run (no_edge_env 0) (sample_parameters 2 1) = None
  /\ run (no_edge_env 10) (sample_parameters 2 1) = None.
Proof.
  split.
  - by apply (constructor_needs_a_final_edge (no_edge_env 0)).
  - by apply (constructor_needs_a_final_edge (no_edge_env 10)).
Defined.

(** X10.  [execute] logs the expansion factor of the temporary vertices
    before [store_results] reads the number of vertices of the library: the
    divisor is the number the master held when [execute] started.  When that
    number is zero, as after the construction, the factor logged is a division
    by zero, an infinity or NaN, whatever the library holds at the end. *)
Theorem expansion_factor_uses_a_stale_count env w buf k :
  Cxx.to_int (m_num_threads (m_parameters (self w))) + 1 < 2 ^ 31 ->
  stamps (m_reported_times (self w)) (worker_stamps env) = Some buf ->
  uint64 (worker_last_time_reported env) = Z.of_nat k ->
  (k <= length buf)%nat ->
  Result.m_num_vertices_final_graph (m_results (self w)) = 0 ->
  exists r w' x,
    execute env w = Some (r, w')
    /\ LOG [Str "[Aging2] Number of extra vertices: ";
            Num (internal_vertices_temporary_cardinality (log_properties env));
            Str ", expansion factor: "; Dbl x] ∈ trace w'
    /\ is_finite x = false
    /\ Result.m_num_vertices_final_graph r = lib_num_vertices env.
Proof.
  intros Ht Hb Hk Hle H0.
  pose proof (returns_execute env w buf k Ht Hb Hk Hle) as He.
  unfold returns in He. eexists _, _, _. split; [exact He|].
  cbn [trace]. split; [|split].
  - unfold execute_events, remove_vertices_events. rewrite H0.
    rewrite !elem_of_app, !elem_of_cons. tauto.
  - apply is_finite_false, not_finite_div_zero.
  - reflexivity.
Qed.

Lemma expansion_factor_uses_a_stale_count_witness :
  exists r w' x,
    execute (sample_env [(0%nat, 100); (1%nat, 200)])
      {| self := constructed (sample_env []) (sample_parameters 2 1) 3;
         trace := [] |} = Some (r, w')
    /\ LOG [Str "[Aging2] Number of extra vertices: "; Num 1;
            Str ", expansion factor: "; Dbl x] ∈ trace w'
    /\ is_finite x = false.
Proof.
  destruct (expansion_factor_uses_a_stale_count
              (sample_env [(0%nat, 100); (1%nat, 200)])
              {| self := constructed (sample_env []) (sample_parameters 2 1) 3;
                 trace := [] |} [100; 200; 0] 2)
    as (r & w' & x & He & Hlog & Hx & _);
    try (vm_compute; reflexivity); [simpl; lia|].
  exists r, w', x. split; [exact He|]. split; [exact Hlog | exact Hx].
Defined.

End AgingFacts.

(** ** The undirected-update test *)

Section TestFacts.
Import Aging2 TestUpdates.

Lemma generate_inner_spec (fuel : nat) (n i j : Z) (acc : list WeightedEdge) e :
  0 <= i < n -> 0 <= j -> n <= 2 ^ 32 -> (Z.to_nat (n - j) <= fuel)%nat ->
  e ∈ generate_inner fuel n i j acc
  <-> e ∈ acc \/ exists t, 0 <= t /\ j + 2 * t < n /\ e = generated i (j + 2 * t).
Proof.
  intros Hi Hj Hn. revert j acc Hj.
  induction fuel as [|fuel IH]; intros j acc Hj Hfuel; simpl.
  - split; [by left|]. intros [H|(t & Ht & Hlt & _)]; [exact H | lia].
  - destruct (Z.ltb_spec j n) as [Hlt|Hge].
    + assert (Hu : uint64 (j + 2) = j + 2).
      { unfold uint64. apply Z.mod_small. lia. }
      assert (Hw : uint64 (j * 1000 + i) = 1000 * j + i).
      { unfold uint64. rewrite Z.mod_small; lia. }
      rewrite Hu, Hw, IH by lia.
      rewrite elem_of_app, list_elem_of_singleton.
      fold (generated i j). split.
      * intros [[H| ->]|(t & Ht & Hlt' & ->)].
        -- by left.
        -- right. exists 0. split; [lia|]. split; [lia|]. first [reflexivity | f_equal; lia].
        -- right. exists (t + 1). split; [lia|]. split; [lia|]. first [reflexivity | f_equal; lia].
      * intros [H|(t & Ht & Hlt' & ->)]; [by left; left|].
        destruct (Z.eq_dec t 0) as [->|Hne].
        -- left. right. first [reflexivity | f_equal; lia].
        -- right. exists (t - 1). split; [lia|]. split; [lia|]. first [reflexivity | f_equal; lia].
    + split; [by left|]. intros [H|(t & Ht & Hlt & _)]; [exact H | lia].
Qed.

Lemma generate_outer_spec (fuel : nat) (n i : Z) (acc : list WeightedEdge) e :
  0 <= i -> n <= 2 ^ 32 -> (Z.to_nat (n - i) <= fuel)%nat ->
  e ∈ generate_outer fuel n i acc
  <-> e ∈ acc
      \/ exists i' t, i <= i' < n /\ 0 <= t /\ i' + 2 + 2 * t < n
                      /\ e = generated i' (i' + 2 + 2 * t).
Proof.
  intros Hi Hn. revert i acc Hi.
  induction fuel as [|fuel IH]; intros i acc Hi Hfuel; simpl.
  - split; [by left|]. intros [H|(i' & t & Hi' & _)]; [exact H | lia].
  - destruct (Z.ltb_spec i n) as [Hlt|Hge].
    + assert (Hu1 : uint64 (i + 1) = i + 1).
      { unfold uint64. apply Z.mod_small. lia. }
      assert (Hu2 : uint64 (i + 2) = i + 2).
      { unfold uint64. apply Z.mod_small. lia. }
      rewrite Hu1, Hu2, IH by lia.
      rewrite generate_inner_spec by lia. split.
      * intros [[H|(t & Ht & Hlt' & ->)]|(i' & t & Hi' & Ht & Hlt' & ->)].
        -- by left.
        -- right. exists i, t. split; [lia|]. split; [lia|]. split; [lia|].
           first [reflexivity | f_equal; lia].
        -- right. exists i', t. split; [lia|]. split; [lia|]. split; [lia|].
           reflexivity.
      * intros [H|(i' & t & Hi' & Ht & Hlt' & ->)]; [by left; left|].
        destruct (Z.eq_dec i' i) as [->|Hne].
        -- left. right. exists t. split; [lia|]. split; [lia|]. first [reflexivity | f_equal; lia].
        -- right. exists i', t. split; [lia|]. split; [lia|]. split; [lia|].
           reflexivity.
    + split; [by left|]. intros [H|(i' & t & Hi' & _)]; [exact H | lia].
Qed.

(** The generator, for a bound that keeps the counters and the weights from
    wrapping. *)
Lemma generate_edge_stream_spec (n : Z) e :
  n <= 2 ^ 32 ->
  e ∈ generate_edge_stream n
  <-> exists i j, 1 <= i < j /\ j < n /\ Z.even (j - i) = true /\ e = generated i j.
Proof.
  intros Hn. unfold generate_edge_stream.
  rewrite generate_outer_spec by lia. split.
  - intros [H|(i & t & Hi & Ht & Hlt & ->)]; [by apply elem_of_nil in H|].
    exists i, (i + 2 + 2 * t). split; [lia|]. split; [lia|]. split; [|reflexivity].
    replace (i + 2 + 2 * t - i) with (2 * (t + 1)) by lia.
    apply Z.even_spec. by exists (t + 1).
  - intros (i & j & Hij & Hj & Hev & ->). right.
    apply Z.even_spec in Hev as [m Hm].
    exists i, (m - 1). split; [lia|]. split; [lia|]. split; [lia|]. first [reflexivity | f_equal; lia].
Qed.

Lemma check_pair_spec (a : Answers) (i j : Z) :
  0 <= i < 2 ^ 21 -> 0 <= j < 2 ^ 21 ->
  check_pair a i j = true <-> pair_expected a i j.
Proof.
  intros Hi Hj. unfold check_pair, pair_expected.
  assert (Hu : uint64 (i + j) = i + j) by (unfold uint64; apply Z.mod_small; lia).
  assert (Hw : uint64 (j * 1000 + i) mod 2 ^ 32 = 1000 * j + i).
  { unfold uint64. rewrite (Z.mod_small (j * 1000 + i) (2 ^ 64)) by lia.
    rewrite Z.mod_small by lia. lia. }
  rewrite Hu, Hw, Zmod_even.
  destruct (Z.even (i + j)); simpl.
  - rewrite !andb_true_iff. tauto.
  - rewrite andb_true_iff, !negb_true_iff. tauto.
Qed.

Lemma check_inner_spec (fuel : nat) (a : Answers) (n i j : Z) :
  0 <= i < 2 ^ 21 -> 0 <= j -> n <= 2 ^ 21 -> (Z.to_nat (n - j) <= fuel)%nat ->
  check_inner fuel a n i j = true
  <-> forall j', j <= j' < n -> pair_expected a i j'.
Proof.
  intros Hi Hj Hn. revert j Hj.
  induction fuel as [|fuel IH]; intros j Hj Hfuel; simpl.
  - split; [intros _ j' Hj'; lia | done].
  - destruct (Z.ltb_spec j n) as [Hlt|Hge].
    + assert (Hu : uint64 (j + 1) = j + 1).
      { unfold uint64. apply Z.mod_small. lia. }
      rewrite Hu, andb_true_iff, IH, check_pair_spec by lia. split.
      * intros [H0 H] j' Hj'. destruct (Z.eq_dec j' j) as [->|Hne];
          [exact H0 | apply H; lia].
      * intros H. split; [apply H; lia | intros j' Hj'; apply H; lia].
    + split; [intros _ j' Hj'; lia | done].
Qed.

Lemma check_outer_spec (fuel : nat) (a : Answers) (n i : Z) :
  0 <= i -> n <= 2 ^ 21 -> (Z.to_nat (n - i) <= fuel)%nat ->
  check_outer fuel a n i = true
  <-> forall i' j', i <= i' -> i' < j' < n -> pair_expected a i' j'.
Proof.
  intros Hi Hn. revert i Hi.
  induction fuel as [|fuel IH]; intros i Hi Hfuel; simpl.
  - split; [intros _ i' j' Hi' Hj'; lia | done].
  - destruct (Z.ltb_spec i n) as [Hlt|Hge].
    + assert (Hu : uint64 (i + 1) = i + 1).
      { unfold uint64. apply Z.mod_small. lia. }
      rewrite Hu, andb_true_iff, IH, check_inner_spec by lia. split.
      * intros [H0 H] i' j' Hi' Hj'. destruct (Z.eq_dec i' i) as [->|Hne];
          [apply H0; lia | apply H; lia].
      * intros H. split; [intros j' Hj'; apply H; lia
                         | intros i' j' Hi' Hj'; apply H; lia].
    + split; [intros _ i' j' Hi' Hj'; lia | done].
Qed.

Example generate_edge_stream_6 :
  (fun e => (source e, destination e)) <$> generate_edge_stream 6
  = [(1, 3); (1, 5); (2, 4); (3, 5)].
Proof. vm_compute. reflexivity. Qed.

Example generated_answers_pass :
  check_all_edges_inserted generated_answers 961 63 = true.
Proof. vm_compute. reflexivity. Qed.

Lemma generate_edge_stream_64_endpoints_NoDup :
  NoDup ((fun e => (source e, destination e)) <$> generate_edge_stream 64).
Proof. refine (bool_decide_unpack _ _). vm_compute. exact I. Qed.

Lemma check_all_edges_inserted_spec (a : Answers)
  (edge_list_num_edges max_vertex_id : Z) :
  max_vertex_id <= 2 ^ 21 ->
  check_all_edges_inserted a edge_list_num_edges max_vertex_id = true
  <-> num_edges a = edge_list_num_edges
      /\ forall i j, 1 <= i < j -> j < max_vertex_id -> pair_expected a i j.
Proof.
  intros Hmax. unfold check_all_edges_inserted.
  rewrite andb_true_iff, Z.eqb_eq, check_outer_spec by lia.
  split; intros [Hn H]; (split; [exact Hn|]); intros i j Hij Hj;
    apply H; lia.
Qed.

(** C6.  With the bound 64 the generator produces the edges [(i, j)] with
    [1 <= i < j < 64] and [j - i] even, each once, with the weight
    [1000 * j + i]: 961 edges.  The checks that follow the insertions pass
    exactly when the interface reports the number of edges of the stream and,
    for every pair [1 <= i < j < max_vertex_id], holds the edge in both
    directions with the weight [1000 * j + i] if [i + j] is even, and holds it
    in neither direction otherwise.  These checks are what [sequential]
    asserts after its insertions: whatever the order in which it inserts and
    removes the edges, the test passes exactly when they do and, if it goes on
    to the removals, the checks that follow those pass as well. *)
Theorem generated_edges_and_expected_pairs (a : Answers)
  (edge_list_num_edges max_vertex_id : Z) :
  max_vertex_id <= 64 ->
  (forall e, e ∈ generate_edge_stream 64
             <-> exists i j, 1 <= i < j /\ j < 64 /\ Z.even (j - i) = true
                             /\ e = generated i j)
  /\ NoDup (generate_edge_stream 64)
  /\ length (generate_edge_stream 64) = 961%nat
  /\ (check_all_edges_inserted a edge_list_num_edges max_vertex_id = true
      <-> num_edges a = edge_list_num_edges
          /\ forall i j, 1 <= i < j -> j < max_vertex_id -> pair_expected a i j)
  /\ (forall (inserted removed : list WeightedEdge) (after_remove : Answers)
             (deletions : bool),
        (sequential inserted removed max_vertex_id a after_remove deletions).2
        = true
        <-> (num_edges a = Z.of_nat (length inserted)
             /\ forall i j, 1 <= i < j -> j < max_vertex_id -> pair_expected a i j)
            /\ (deletions = true ->
                check_all_edges_removed after_remove max_vertex_id = true)).
Proof.
  intros Hmax.
  split; [intros e; apply generate_edge_stream_spec; lia|].
  split; [apply (NoDup_fmap_1 _ _ generate_edge_stream_64_endpoints_NoDup)|].
  split; [vm_compute; reflexivity|].
  split; [apply check_all_edges_inserted_spec; lia|].
  intros inserted removed after_remove deletions.
  rewrite <- (check_all_edges_inserted_spec a _ max_vertex_id) by lia.
  unfold sequential.
  destruct (check_all_edges_inserted a _ max_vertex_id); cbn [negb].
  - destruct deletions;
      [destruct (check_all_edges_removed after_remove max_vertex_id)|];
      cbn [negb snd].
    + split; [by split | reflexivity].
    + split; [discriminate | intros [_ H]; by apply H].
    + split; [by split | reflexivity].
  - cbn [snd]. split; [discriminate | by intros [H _]].
Qed.

Lemma generated_edges_and_expected_pairs_witness :
  63 <= 64 /\ pair_expected generated_answers 1 3
  /\ pair_expected generated_answers 1 2.
Proof.
  split; [lia|].
  destruct (generated_edges_and_expected_pairs generated_answers 961 63)
    as (_ & _ & _ & _ & Hsequential); [lia|].
  destruct (proj1 (Hsequential (generate_edge_stream 64) [] generated_answers
                     false)) as [[_ Hpairs] _]; [vm_compute; reflexivity|].
  split; apply Hpairs; lia.
Defined.

(** *** The insertions and the removals of [sequential] *)

Lemma generated_sum_even (n : Z) e :
  n <= 2 ^ 32 -> e ∈ generate_edge_stream n ->
  source e < destination e
  /\ swap_if_multiple 2 e
     = {| source := destination e; destination := source e; weight := weight e |}.
Proof.
  intros Hn He. apply generate_edge_stream_spec in He; [|exact Hn].
  destruct He as (i & j & Hij & Hj & Hev & ->). simpl.
  split; [lia|]. unfold swap_if_multiple. simpl.
  assert (Hu : uint64 (i + j) = i + j) by (unfold uint64; apply Z.mod_small; lia).
  rewrite Hu, Zmod_even.
  assert (Hs : Z.even (i + j) = true).
  { rewrite Z.even_add. rewrite Z.even_sub in Hev.
    destruct (Z.even i), (Z.even j); (reflexivity || discriminate). }
  by rewrite Hs.
Qed.

Lemma added_edges_app (c1 c2 : list call) :
  added_edges (c1 ++ c2) = added_edges c1 ++ added_edges c2.
Proof. apply omap_app. Qed.

Lemma added_edges_vertex (b : bool) (v : Z) :
  added_edges (if b then [add_vertex v] else []) = [].
Proof. by destruct b. Qed.

Lemma added_edges_edge (e : WeightedEdge) (c : list call) :
  added_edges (add_edge e :: c) = e :: added_edges c.
Proof. reflexivity. Qed.

Lemma insert_edges_cons (e : WeightedEdge) (l : list WeightedEdge) (vc : gset Z) :
  insert_edges (e :: l) vc
  = ((if bool_decide (source e ∉ vc) then [add_vertex (source e)] else [])
     ++ (if bool_decide (destination e ∉ {[source e]} ∪ vc)
         then [add_vertex (destination e)] else [])
     ++ add_edge (swap_if_multiple 2 e)
        :: (insert_edges l ({[destination e]} ∪ ({[source e]} ∪ vc))).1,
     (insert_edges l ({[destination e]} ∪ ({[source e]} ∪ vc))).2).
Proof.
  cbn [insert_edges].
  by destruct (insert_edges l ({[destination e]} ∪ ({[source e]} ∪ vc))).
Qed.

Lemma added_edges_insert_edges (l : list WeightedEdge) (vc : gset Z) :
  added_edges (insert_edges l vc).1 = swap_if_multiple 2 <$> l.
Proof.
  revert vc. induction l as [|e l IH]; intros vc; [reflexivity|].
  rewrite insert_edges_cons. cbn [fst].
  rewrite !added_edges_app, !added_edges_vertex, added_edges_edge, IH.
  reflexivity.
Qed.

Lemma reversed_generated (n : Z) (l : list WeightedEdge) :
  n <= 2 ^ 32 ->
  (forall e, e ∈ l -> e ∈ generate_edge_stream n) ->
  swap_if_multiple 2 <$> l = reversed <$> l
  /\ Forall (fun e => source e < destination e) l.
Proof.
  intros Hn. induction l as [|e l IH]; intros Hin; [by split|].
  destruct IH as [IHs IHf]; [intros e' He'; apply Hin; by right|].
  destruct (generated_sum_even n e Hn (Hin e ltac:(by left))) as [Hlt Hswap].
  split; [|by constructor].
  rewrite !fmap_cons, IHs, Hswap. reflexivity.
Qed.

(** X21.  Every edge of the generated stream has end points whose sum is
    even, so the insertion loop swaps the end points of every edge: whatever
    the order the shuffle gives, the edges added are the edges of the stream,
    each once and in the order of the stream, each with its larger end point
    as the source and its weight. *)
Theorem sequential_inserts_every_edge_reversed (n : Z) (inserted : list WeightedEdge) :
  n <= 2 ^ 32 ->
  inserted ≡ₚ generate_edge_stream n ->
  added_edges (insert_edges inserted ∅).1 = reversed <$> inserted
  /\ added_edges (insert_edges inserted ∅).1 ≡ₚ reversed <$> generate_edge_stream n
  /\ Forall (fun e => destination e < source e)
       (added_edges (insert_edges inserted ∅).1).
Proof.
  intros Hn Hperm. rewrite added_edges_insert_edges.
  destruct (reversed_generated n inserted Hn) as [Hswap Hlt].
  { intros e He. by rewrite <- Hperm. }
  rewrite Hswap. split; [reflexivity|]. split; [by rewrite Hperm|].
  apply Forall_fmap. eapply Forall_impl; [exact Hlt|]. by intros e He.
Qed.

Example insert_edges_generated_6 :
  (insert_edges (generate_edge_stream 6) ∅).1
  = [add_vertex 1; add_vertex 3; add_edge (reversed (generated 1 3));
     add_vertex 5; add_edge (reversed (generated 1 5));
     add_vertex 2; add_vertex 4; add_edge (reversed (generated 2 4));
     add_edge (reversed (generated 3 5))].
Proof. vm_compute. reflexivity. Qed.

Lemma sequential_inserts_every_edge_reversed_witness :
  added_edges (insert_edges (reverse (generate_edge_stream 6)) ∅).1
  = [reversed (generated 3 5); reversed (generated 2 4);
     reversed (generated 1 5); reversed (generated 1 3)].
Proof.
  rewrite (proj1 (sequential_inserts_every_edge_reversed 6
                    (reverse (generate_edge_stream 6)) ltac:(lia)
                    (reverse_Permutation _))).
  vm_compute. reflexivity.
Defined.

Lemma added_vertices_app (c1 c2 : list call) :
  added_vertices (c1 ++ c2) = added_vertices c1 ++ added_vertices c2.
Proof. apply omap_app. Qed.

Lemma added_vertices_vertex (b : bool) (v : Z) :
  added_vertices (if b then [add_vertex v] else []) = if b then [v] else [].
Proof. by destruct b. Qed.

Lemma added_vertices_edge (e : WeightedEdge) (c : list call) :
  added_vertices (add_edge e :: c) = added_vertices c.
Proof. reflexivity. Qed.

Lemma insert_edges_vertices (l : list WeightedEdge) (vc : gset Z) :
  NoDup (added_vertices (insert_edges l vc).1)
  /\ (forall v, v ∈ added_vertices (insert_edges l vc).1
                <-> v ∈ endpoints l /\ v ∉ vc)
  /\ (insert_edges l vc).2 = vc ∪ endpoints l.
Proof.
  revert vc. induction l as [|e l IH]; intros vc.
  - simpl. split; [constructor|]. split; [|set_solver].
    intros v. split; [intros H; by apply elem_of_nil in H | set_solver].
  - rewrite insert_edges_cons. cbn [fst snd endpoints].
    destruct (IH ({[destination e]} ∪ ({[source e]} ∪ vc))) as (Hnd & Hin & Hfin).
    rewrite !added_vertices_app, !added_vertices_vertex, added_vertices_edge.
    split; [|split].
    + apply NoDup_app. split; [|split].
      * destruct (bool_decide _); [apply NoDup_singleton | constructor].
      * intros v Hv Hv'. apply elem_of_app in Hv' as [Hv'|Hv'].
        -- destruct (bool_decide (source e ∉ vc)) eqn:H1;
             [|by apply elem_of_nil in Hv].
           apply list_elem_of_singleton in Hv as ->.
           destruct (bool_decide (destination e ∉ {[source e]} ∪ vc)) eqn:H2;
             [|by apply elem_of_nil in Hv'].
           apply list_elem_of_singleton in Hv'.
           apply bool_decide_eq_true in H2. set_solver.
        -- apply Hin in Hv' as [_ Hv'].
           destruct (bool_decide (source e ∉ vc)); [|by apply elem_of_nil in Hv].
           apply list_elem_of_singleton in Hv as ->. set_solver.
      * apply NoDup_app. split; [|split]; [| |exact Hnd].
        -- destruct (bool_decide _); [apply NoDup_singleton | constructor].
        -- intros v Hv Hv'. apply Hin in Hv' as [_ Hv'].
           destruct (bool_decide (destination e ∉ {[source e]} ∪ vc));
             [|by apply elem_of_nil in Hv].
           apply list_elem_of_singleton in Hv as ->. set_solver.
    + intros v. rewrite !elem_of_app, Hin.
      destruct (bool_decide (source e ∉ vc)) eqn:H1;
        destruct (bool_decide (destination e ∉ {[source e]} ∪ vc)) eqn:H2;
        rewrite ?list_elem_of_singleton, ?elem_of_nil;
        try apply bool_decide_eq_true in H1;
        try apply bool_decide_eq_false in H1;
        try apply bool_decide_eq_true in H2;
        try apply bool_decide_eq_false in H2;
        destruct (decide (v = source e));
        destruct (decide (v = destination e));
        set_solver.
    + rewrite Hfin. set_solver.
Qed.

Lemma vertices_before_edges_app (seen : gset Z) (b : bool) (v : Z) (c : list call) :
  vertices_before_edges ({[v]} ∪ seen) c ->
  (b = false -> v ∈ seen) ->
  vertices_before_edges seen ((if b then [add_vertex v] else []) ++ c).
Proof.
  intros Hc Hb. destruct b; simpl; [exact Hc|].
  assert (Hseen : {[v]} ∪ seen = seen) by (specialize (Hb eq_refl); set_solver).
  by rewrite Hseen in Hc.
Qed.

Lemma insert_edges_ordered (l : list WeightedEdge) (vc : gset Z) :
  vertices_before_edges vc (insert_edges l vc).1.
Proof.
  revert vc. induction l as [|e l IH]; intros vc; [exact I|].
  rewrite insert_edges_cons. cbn [fst].
  apply vertices_before_edges_app.
  - apply vertices_before_edges_app.
    + simpl. unfold swap_if_multiple.
      destruct (_ =? 0); simpl; (split; [set_solver|]); (split; [set_solver|]);
        apply IH.
    + intros H. apply bool_decide_eq_false in H.
      destruct (decide (destination e ∈ {[source e]} ∪ vc)); [assumption|].
      contradiction.
  - intros H. apply bool_decide_eq_false in H.
    destruct (decide (source e ∈ vc)); [assumption | contradiction].
Qed.

(** X22.  The insertion loop of [sequential], for any list of edges: each
    end point of the list is added as a vertex exactly once, no other vertex
    is, both end points of an edge have been added when the edge is, and the
    set [vertices_contained] ends as the set of the end points. *)
Theorem insert_edges_adds_each_vertex_once (l : list WeightedEdge) :
  NoDup (added_vertices (insert_edges l ∅).1)
  /\ (forall v, v ∈ added_vertices (insert_edges l ∅).1 <-> v ∈ endpoints l)
  /\ vertices_before_edges ∅ (insert_edges l ∅).1
  /\ (insert_edges l ∅).2 = endpoints l.
Proof.
  destruct (insert_edges_vertices l ∅) as (Hnd & Hin & Hfin).
  split; [exact Hnd|]. split; [|split].
  - intros v. rewrite Hin. set_solver.
  - apply insert_edges_ordered.
  - rewrite Hfin. set_solver.
Qed.

Lemma teardown_insert_edges (l : list WeightedEdge) (vc : gset Z) :
  List.filter is_teardown (insert_edges l vc).1 = [].
Proof.
  revert vc. induction l as [|e l IH]; intros vc; [reflexivity|].
  rewrite insert_edges_cons. cbn [fst].
  rewrite !List.filter_app. cbn [List.filter is_teardown]. rewrite IH.
  by destruct (bool_decide _), (bool_decide _).
Qed.

Lemma teardown_remove_edges (l : list WeightedEdge) :
  List.filter is_teardown (remove_edges l) = [].
Proof. induction l as [|e l IH]; [reflexivity | exact IH]. Qed.

(** X23.  [sequential] tears the interface down only when every assertion
    held: a run in which an assertion fails has called [on_main_init] and
    [on_thread_init] and returns with neither [on_thread_destroy] nor
    [on_main_destroy] called; a run that passes calls each once, in this
    order. *)
Theorem sequential_failure_skips_teardown
  (inserted removed : list WeightedEdge) (max_vertex_id : Z)
  (after_insert after_remove : Answers) (deletions : bool) :
  let r := sequential inserted removed max_vertex_id
             after_insert after_remove deletions in
  List.filter is_teardown r.1
  = (if r.2 then [on_thread_destroy 0; on_main_destroy] else [])
  /\ exists rest, r.1 = on_main_init 1 :: on_thread_init 0 :: rest.
Proof.
  unfold sequential.
  destruct (negb (check_all_edges_inserted _ _ _)); cbn zeta.
  - split; [|by eexists].
    cbn [fst snd app]. cbn [List.filter is_teardown].
    by rewrite List.filter_app, teardown_insert_edges.
  - destruct deletions; [destruct (negb (check_all_edges_removed _ _))|];
      (split; [|by eexists]); cbn [fst snd];
      rewrite ?List.filter_app; cbn [app List.filter is_teardown];
      rewrite ?List.filter_app, ?teardown_insert_edges, ?teardown_remove_edges;
      reflexivity.
Qed.

Lemma unordered_swap (modulus : Z) (e : WeightedEdge) :
  unordered (source (swap_if_multiple modulus e))
            (destination (swap_if_multiple modulus e))
  = unordered (source e) (destination e).
Proof.
  unfold swap_if_multiple, unordered. destruct (_ =? 0); [|reflexivity].
  simpl. by rewrite Z.min_comm, Z.max_comm.
Qed.

Lemma removed_edges_remove_edges (l : list WeightedEdge) :
  removed_edges (remove_edges l)
  = (fun e => (source (swap_if_multiple 3 e), destination (swap_if_multiple 3 e)))
      <$> l.
Proof.
  induction l as [|e l IH]; [reflexivity|].
  unfold remove_edges, removed_edges in *. simpl. f_equal. exact IH.
Qed.

(** X24.  The insertions exchange the end points of an edge when their sum
    is a multiple of 2 and the removals when it is a multiple of 3; whatever
    the two orders of the stream, the edges removed are, direction apart, the
    edges added, each as many times. *)
Theorem sequential_removes_what_it_added (inserted removed : list WeightedEdge) :
  inserted ≡ₚ removed ->
  (fun e => unordered (source e) (destination e))
    <$> added_edges (insert_edges inserted ∅).1
  ≡ₚ (fun p => unordered p.1 p.2) <$> removed_edges (remove_edges removed).
Proof.
  intros Hperm.
  rewrite added_edges_insert_edges, removed_edges_remove_edges.
  rewrite <- !list_fmap_compose.
  assert (Hswap : forall modulus (l : list WeightedEdge),
            (fun e => unordered (source (swap_if_multiple modulus e))
                                (destination (swap_if_multiple modulus e))) <$> l
            = (fun e => unordered (source e) (destination e)) <$> l).
  { intros modulus l. induction l as [|e l IH]; [reflexivity|].
    rewrite !fmap_cons, IH, unordered_swap. reflexivity. }
  change ((fun e => unordered (source (swap_if_multiple 2 e))
                              (destination (swap_if_multiple 2 e))) <$> inserted
          ≡ₚ (fun e => unordered (source (swap_if_multiple 3 e))
                                 (destination (swap_if_multiple 3 e))) <$> removed).
  rewrite !Hswap. by apply fmap_Permutation.
Qed.

Lemma sequential_removes_what_it_added_witness :
  (fun e => unordered (source e) (destination e))
    <$> added_edges (insert_edges (generate_edge_stream 6) ∅).1
  ≡ₚ (fun p => unordered p.1 p.2)
       <$> removed_edges (remove_edges (reverse (generate_edge_stream 6))).
Proof.
  apply (sequential_removes_what_it_added
           (generate_edge_stream 6) (reverse (generate_edge_stream 6))).
  symmetry. apply reverse_Permutation.
Defined.


Lemma start_threads_tiles (fuel : nat) (num_threads thread_id per_thread odd_threads start : Z) :
  fuel = Z.to_nat (num_threads - thread_id) ->
  0 <= thread_id -> 0 <= per_thread -> 0 <= odd_threads <= num_threads ->
  0 <= start ->
  start + (num_threads - thread_id) * per_thread
    + Z.max 0 (odd_threads - thread_id) < 2 ^ 63 ->
  let threads :=
    start_threads fuel num_threads thread_id per_thread odd_threads start in
  concat (positions <$> threads)
  = seqZ start ((num_threads - thread_id) * per_thread
                + Z.max 0 (odd_threads - thread_id))
  /\ (fun t => t.1.1) <$> threads = seqZ thread_id (num_threads - thread_id)
  /\ Forall (fun t => t.2 = per_thread
                      \/ t.2 = per_thread + 1 /\ t.1.1 < odd_threads) threads.
Proof.
  revert thread_id start.
  induction fuel as [|fuel IH]; intros thread_id start Hf Ht Hq Hr Hs Hb; cbn zeta.
  - assert (num_threads - thread_id <= 0) by lia.
    simpl. rewrite !seqZ_nil by nia. by repeat split.
  - cbn [start_threads].
    assert (Hlt : thread_id < num_threads) by lia.
    apply Z.ltb_lt in Hlt as Hlt'. rewrite Hlt'.
    set (b := if thread_id <? odd_threads then 1 else 0).
    assert (Hb01 : b = 1 /\ thread_id < odd_threads
                   \/ b = 0 /\ odd_threads <= thread_id).
    { subst b. destruct (Z.ltb_spec thread_id odd_threads); lia. }
    assert (Hrest : 0 <= (num_threads - (thread_id + 1)) * per_thread) by nia.
    assert (Hmax : Z.max 0 (odd_threads - thread_id)
                   = b + Z.max 0 (odd_threads - (thread_id + 1))) by lia.
    assert (Hlen : uint64 (per_thread + b) = per_thread + b).
    { unfold uint64. apply Z.mod_small. nia. }
    rewrite Hlen.
    assert (Hend : uint64 (start + (per_thread + b)) = start + (per_thread + b)).
    { unfold uint64. apply Z.mod_small. nia. }
    rewrite Hend.
    destruct (IH (thread_id + 1) (start + (per_thread + b)))
      as (Hpos & Hids & Hlens); try lia; try nia.
    split; [|split].
    + rewrite fmap_cons. cbn [concat]. rewrite Hpos.
      unfold positions. cbn [fst snd]. rewrite Hend.
      assert (Hi : forall z, 0 <= z < 2 ^ 63 -> int64 z = z).
      { intros z Hz. unfold int64. rewrite Z.mod_small; lia. }
      rewrite !Hi by nia.
      replace (start + (per_thread + b) - start) with (per_thread + b) by lia.
      rewrite <- seqZ_app by lia. f_equal. nia.
    + rewrite fmap_cons, Hids. cbn [fst snd].
      replace (num_threads - thread_id) with (1 + (num_threads - (thread_id + 1)))
        by lia.
      rewrite seqZ_app by lia. reflexivity.
    + constructor; [|exact Hlens]. cbn [fst snd]. lia.
Qed.

(** X25.  The loop of [parallel] that starts the threads, for a positive
    number of threads and a number of positions an [int64_t] holds: the
    threads are numbered from 0, they go through every position once, in the
    order of the threads, and each gets [total / num_threads] positions or,
    the first [total % num_threads] of them only, one more. *)
Theorem parallel_threads_share_the_positions (total num_threads : Z) :
  0 < num_threads ->
  0 <= total < 2 ^ 63 ->
  let threads := threads_of total num_threads in
  concat (positions <$> threads) = seqZ 0 total
  /\ (fun t => t.1.1) <$> threads = seqZ 0 num_threads
  /\ Forall (fun t => t.2 = total / num_threads
                      \/ t.2 = total / num_threads + 1
                         /\ t.1.1 < total mod num_threads) threads.
Proof.
  intros HT Htotal. cbn zeta. unfold threads_of.
  pose proof (Z.div_mod total num_threads ltac:(lia)) as Hdm.
  pose proof (Z.mod_pos_bound total num_threads HT) as Hmod.
  assert (Hq : 0 <= total / num_threads) by (apply Z.div_pos; lia).
  destruct (start_threads_tiles (Z.to_nat num_threads) num_threads 0
              (total / num_threads) (total mod num_threads) 0)
    as (Hpos & Hids & Hlens); try lia.
  rewrite !Z.sub_0_r in *. split; [|split]; [|exact Hids|exact Hlens].
  rewrite Hpos. f_equal. nia.
Qed.

Lemma parallel_threads_share_the_positions_witness :
  threads_of 10 3 = [(0, 0, 4); (1, 4, 3); (2, 7, 3)]
  /\ concat (positions <$> threads_of 10 3) = seqZ 0 10.
Proof.
  split; [reflexivity|].
  apply (parallel_threads_share_the_positions 10 3); lia.
Defined.

(** *** The check that follows the removals *)

Lemma check_removed_inner_spec (fuel : nat) (a : Answers) (n i j : Z) :
  0 <= j -> n < 2 ^ 64 -> (Z.to_nat (n - j) <= fuel)%nat ->
  check_removed_inner fuel a n i j = true
  <-> forall j', j <= j' < n -> has_edge a i j' = false /\ has_edge a j' i = false.
Proof.
  intros Hj Hn. revert j Hj.
  induction fuel as [|fuel IH]; intros j Hj Hfuel; simpl.
  - split; [intros _ j' Hj'; lia | done].
  - destruct (Z.ltb_spec j n) as [Hlt|Hge].
    + assert (Hu : uint64 (j + 1) = j + 1).
      { unfold uint64. apply Z.mod_small. lia. }
      rewrite Hu, !andb_true_iff, !negb_true_iff, IH by lia. split.
      * intros [H0 H] j' Hj'. destruct (Z.eq_dec j' j) as [->|Hne];
          [exact H0 | apply H; lia].
      * intros H. split; [apply H; lia | intros j' Hj'; apply H; lia].
    + split; [intros _ j' Hj'; lia | done].
Qed.

Lemma check_removed_outer_spec (fuel : nat) (a : Answers) (n i : Z) :
  0 <= i -> n < 2 ^ 64 -> (Z.to_nat (n - i) <= fuel)%nat ->
  check_removed_outer fuel a n i = true
  <-> forall i' j', i <= i' -> i' < j' < n ->
                    has_edge a i' j' = false /\ has_edge a j' i' = false.
Proof.
  intros Hi Hn. revert i Hi.
  induction fuel as [|fuel IH]; intros i Hi Hfuel; simpl.
  - split; [intros _ i' j' Hi' Hj'; lia | done].
  - destruct (Z.ltb_spec i n) as [Hlt|Hge].
    + assert (Hu : uint64 (i + 1) = i + 1).
      { unfold uint64. apply Z.mod_small. lia. }
      rewrite Hu, andb_true_iff, IH, check_removed_inner_spec by lia. split.
      * intros [H0 H] i' j' Hi' Hj'. destruct (Z.eq_dec i' i) as [->|Hne];
          [apply H0; lia | apply H; lia].
      * intros H. split; [intros j' Hj'; apply H; lia
                         | intros i' j' Hi' Hj'; apply H; lia].
    + split; [intros _ i' j' Hi' Hj'; lia | done].
Qed.

(** X26.  The checks that follow the removals, for any [max_vertex_id] a
    [uint64_t] holds: they pass exactly when the interface reports no edge
    and holds no pair [1 <= i < j < max_vertex_id] in either direction; the
    vertex [max_vertex_id] itself and the vertex 0 are never asked about. *)
Theorem removal_check_covers_pairs_below_max (a : Answers) (max_vertex_id : Z) :
  max_vertex_id < 2 ^ 64 ->
  check_all_edges_removed a max_vertex_id = true
  <-> num_edges a = 0
      /\ forall i j, 1 <= i < j -> j < max_vertex_id ->
                     has_edge a i j = false /\ has_edge a j i = false.
Proof.
  intros Hmax. unfold check_all_edges_removed.
  rewrite andb_true_iff, Z.eqb_eq, check_removed_outer_spec by lia.
  split; intros [Hn H]; (split; [exact Hn|]); intros i j Hij Hj;
    apply H; lia.
Qed.

Lemma removal_check_covers_pairs_below_max_witness :
  63 < 2 ^ 64
  /\ check_all_edges_removed
       {| num_edges := 0;
          has_edge := fun i j => (i =? 63) || (j =? 63) || (i =? 0) || (j =? 0);
          get_weight := fun _ _ => 0%float |} 63 = true.
Proof.
  split; [lia|].
  apply (removal_check_covers_pairs_below_max _ 63); [lia|].
  split; [reflexivity|]. intros i j Hij Hj. simpl.
  assert (H1 : (i =? 63) = false) by (apply Z.eqb_neq; lia).
  assert (H2 : (j =? 63) = false) by (apply Z.eqb_neq; lia).
  assert (H3 : (i =? 0) = false) by (apply Z.eqb_neq; lia).
  assert (H4 : (j =? 0) = false) by (apply Z.eqb_neq; lia).
  by rewrite H1, H2, H3, H4.
Defined.

End TestFacts.

(** ** The server *)

Section NetworkFacts.
Import Network.

(** C7.  [handle_signals] keeps at most one server registered: on the server
    already registered it returns without any effect; while another server is
    registered it throws and changes nothing; and whenever it returns, the
    registered server is the one it was called on, no other server having
    been registered before the call.  With nobody registered and [::sigaction]
    succeeding, it registers the server, saves the previous actions and
    installs the handler for both signals. *)
Theorem handle_signals_registers_one_server (this : nat) (p : Process) :
  (g_server_instance p = Some this -> handle_signals this p = Returns p)
  /\ (forall other, g_server_instance p = Some other -> other <> this ->
        exists what, handle_signals this p = Throws what p)
  /\ (forall p', handle_signals this p = Returns p' ->
        g_server_instance p' = Some this
        /\ (g_server_instance p = None \/ g_server_instance p = Some this))
  /\ (g_server_instance p = None ->
      sigaction_rc p SIGTERM = 0 -> sigaction_rc p SIGINT = 0 ->
      exists p', handle_signals this p = Returns p'
        /\ g_server_instance p' = Some this
        /\ (forall sig, action p' sig = sa_signal_handler_execute
                        /\ saved sig p' = action p sig)).
Proof.
  unfold handle_signals. split; [|split; [|split]].
  - intros Hg. by rewrite decide_True.
  - intros other Hg Hne. rewrite decide_False by congruence.
    rewrite decide_True by congruence. eauto.
  - intros p'. destruct (decide _) as [Hg|Hg].
    + intros [= <-]. auto.
    + destruct (decide _) as [Hn|Hn]; [intros Hd; discriminate Hd|].
      assert (Hnone : g_server_instance p = None).
      { destruct (g_server_instance p); [exfalso; by apply Hn | reflexivity]. }
      unfold signal_handler_install, sigaction. simpl.
      destruct (sigaction_rc p SIGTERM =? 0) eqn:Ht; simpl; rewrite ?Ht; simpl;
        [|intros Hd; discriminate Hd].
      destruct (sigaction_rc p SIGINT =? 0) eqn:Hi; simpl; rewrite ?Hi; simpl;
        [|intros Hd; discriminate Hd].
      intros [= <-]. simpl. auto.
  - intros Hg Ht Hi. rewrite decide_False by congruence.
    rewrite decide_False by (rewrite Hg; auto).
    unfold signal_handler_install, sigaction. simpl.
    rewrite Ht. simpl. rewrite Hi. simpl.
    eexists. split; [reflexivity|]. split; [reflexivity|].
    intros []; split; reflexivity.
Qed.

Lemma handle_signals_registers_one_server_witness :
  handle_signals 1%nat (sample_process (Some 1%nat)) = Returns (sample_process (Some 1%nat))
  /\ (exists what,
        handle_signals 2%nat (sample_process (Some 1%nat))
        = Throws what (sample_process (Some 1%nat)))
  /\ exists p', handle_signals 1%nat (sample_process None) = Returns p'
                /\ g_server_instance p' = Some 1%nat.
Proof.
  split; [|split].
  - by apply (handle_signals_registers_one_server 1%nat (sample_process (Some 1%nat))).
  - by apply (proj1 (proj2 (handle_signals_registers_one_server 2%nat
                              (sample_process (Some 1%nat)))) 1%nat).
  - destruct (proj2 (proj2 (proj2 (handle_signals_registers_one_server 1
                                     (sample_process None)))))
      as (p' & Hp' & Hg & _); try reflexivity.
    exists p'. split; [exact Hp' | exact Hg].
Defined.

Lemma signal_handler_uninstall_spec (p : Process) :
  g_server_instance (signal_handler_uninstall p) = g_server_instance p
  /\ forall sig, sigaction_rc p sig = 0 ->
       action (signal_handler_uninstall p) sig = saved sig p.
Proof.
  unfold signal_handler_uninstall, sigaction.
  destruct (sigaction_rc p SIGTERM =? 0) eqn:Ht; simpl; rewrite ?Ht; simpl;
    destruct (sigaction_rc p SIGINT =? 0) eqn:Hi; simpl; rewrite ?Hi; simpl;
    (split; [reflexivity|]); intros [] Hrc; try reflexivity;
    rewrite Hrc in *; discriminate.
Qed.

(** C10.  The destructor of a server that is not the registered one leaves
    the registration as it was: the singleton, the actions of the two signals
    and the saved actions.  The destructor of the registered server clears the
    singleton and puts back, for each signal on which [::sigaction] succeeds,
    the action saved at registration.  Hence a destructor that changes the
    singleton is the one of the registered server. *)
Theorem destructor_keeps_foreign_registration (this : nat) (s : Server) (p : Process) :
  let p' := (destructor this s p).2 in
  (g_server_instance p <> Some this ->
     g_server_instance p' = g_server_instance p
     /\ action p' = action p
     /\ g_sigaction_term p' = g_sigaction_term p
     /\ g_sigaction_interrupt p' = g_sigaction_interrupt p
     /\ cerr p' = cerr p)
  /\ (g_server_instance p = Some this ->
        g_server_instance p' = None
        /\ forall sig, sigaction_rc p sig = 0 -> action p' sig = saved sig p)
  /\ (g_server_instance p' <> g_server_instance p ->
        g_server_instance p = Some this).
Proof.
  unfold destructor.
  destruct (0 <=? m_server_fd s).
  - destruct (decide _) as [Hg|Hg]; simpl in Hg; cbn [snd].
    + split; [intros Hne; contradiction|]. split; [|auto].
      intros _.
      destruct (signal_handler_uninstall_spec
                  (set_g_server_instance None (close (m_server_fd s) p)))
        as [H1 H2].
      split; [exact H1 | exact H2].
    + split; [intros _; repeat split|]. split; [intros Heq; contradiction|].
      intros Hne. contradiction.
  - destruct (decide _) as [Hg|Hg]; cbn [snd].
    + split; [intros Hne; contradiction|]. split; [|auto].
      intros _.
      destruct (signal_handler_uninstall_spec (set_g_server_instance None p))
        as [H1 H2].
      split; [exact H1 | exact H2].
    + split; [intros _; repeat split|]. split; [intros Heq; contradiction|].
      intros Hne. contradiction.
Qed.

Lemma destructor_keeps_foreign_registration_witness :
  g_server_instance (destructor 2%nat sample_server (sample_process (Some 1%nat))).2
  = Some 1%nat
  /\ g_server_instance (destructor 1%nat sample_server (sample_process (Some 1%nat))).2
     = None.
Proof.
  split.
  - by apply (proj1 (destructor_keeps_foreign_registration 2%nat sample_server
                       (sample_process (Some 1%nat)))).
  - by apply (proj1 (proj2 (destructor_keeps_foreign_registration 1%nat sample_server
                              (sample_process (Some 1%nat))))).
Defined.

(** *** The calls of [response] and of [send_message] *)

Lemma send_ok_delivery (h : Handler) :
  send_ok h = true -> deliveries h 0 = delivered_whole.
Proof.
  unfold send_ok. by destruct (deliveries h 0) as [[] []].
Qed.

Lemma send_message_send_ok (NDEBUG : bool) (r : Response) (h : Handler) :
  send_ok h = true ->
  send_message NDEBUG r h = Return tt (push_sent r (next_delivery h)).
Proof.
  intros Hsend. unfold send_message. by rewrite (send_ok_delivery h Hsend).
Qed.

Lemma response_send_ok (NDEBUG : bool) (t : ResponseType) (args : list arg)
  (h : Handler) :
  send_ok h = true ->
  response NDEBUG t args h
  = Return tt (push_sent {| response_type := t; response_args := args |}
                 (next_delivery h)).
Proof.
  intros Hsend. unfold response.
  rewrite (send_ok_delivery h Hsend). cbn [outgoing_sz delivered_whole].
  by apply send_message_send_ok.
Qed.

Lemma send_message_cases (NDEBUG : bool) (r : Response) (h : Handler) :
  send_message NDEBUG r h
  = match send_fate NDEBUG (deliveries h 0) with
    | goes_out => Return tt (push_sent r (next_delivery h))
    | goes_out_in_part => Return tt (push_sent_in_part r (next_delivery h))
    | stops_in_part => Abort (push_sent_in_part r (next_delivery h))
    | is_refused => Throw (common_Error connection_error) (next_delivery h)
    | is_too_long => Abort h
    | overruns => Undefined
    end.
Proof.
  unfold send_message, send_fate.
  by destruct (bytes_sent (deliveries h 0)), NDEBUG.
Qed.

Lemma response_cases (NDEBUG : bool) (t : ResponseType) (args : list arg)
  (h : Handler) :
  response NDEBUG t args h
  = let r := {| response_type := t; response_args := args |} in
    match response_fate NDEBUG (deliveries h 0) with
    | goes_out => Return tt (push_sent r (next_delivery h))
    | goes_out_in_part => Return tt (push_sent_in_part r (next_delivery h))
    | stops_in_part => Abort (push_sent_in_part r (next_delivery h))
    | is_refused => Throw (common_Error connection_error) (next_delivery h)
    | is_too_long => Abort h
    | overruns => Undefined
    end.
Proof.
  unfold response, response_fate.
  destruct (outgoing_sz (deliveries h 0)), NDEBUG;
    rewrite ?send_message_cases; reflexivity.
Qed.

(** The cases of [handle_request]: by request type, by interface implemented
    and by what the library does; the calls of [response] and of
    [send_message] are left as they are. *)
Ltac handle_request_cases i r :=
  unfold handle_request, try_catch, dispatch, not_supported, LOG, invoke,
    hbind, update, throw, raise, hret;
  destruct (type r) eqn:?;
  repeat match goal with
    | |- context [negb (?f i)] => destruct (f i) eqn:?
    end;
  cbn [negb];
  repeat match goal with
    | |- context [raises i ?c] => destruct (raises i c) as [[?|]|] eqn:?
    | |- context [Cxx.to_int64 ?x] => destruct (Cxx.to_int64 x) eqn:?
    end;
  cbv beta iota.

(** The calls of [response] and of [send_message], when the next message
    goes out. *)
Ltac responses_go_out Hsend :=
  rewrite ?response_send_ok, ?send_message_send_ok by exact Hsend;
  cbv beta iota.

(** The calls of [response] and of [send_message], by what they meet. *)
Ltac responses_by_fate NDEBUG :=
  repeat
    (first [rewrite response_cases | rewrite send_message_cases];
     cbv zeta;
     cbn [deliveries push_invoked push_log push_sent push_sent_in_part
          next_delivery set_terminate set_instance];
     match goal with
     | |- context [response_fate NDEBUG ?d] =>
         destruct (response_fate NDEBUG d) eqn:?
     | |- context [send_fate NDEBUG ?d] =>
         destruct (send_fate NDEBUG d) eqn:?
     end;
     cbv beta iota).

Example load_with_a_loader :
  exists h,
    handle_request false "sample"
      {| is_LoaderInterface := true; is_UpdateInterface := false;
         is_GraphalyticsInterface := false; raises := fun _ => None;
         returns_uint64 := fun _ => 0; returns_bool := fun _ => false;
         returns_double := fun _ => 0%float; returns_text := fun _ => ""%string |}
      (sample_request LOAD) sample_handler = Return tt h
    /\ sent h = [{| response_type := OK; response_args := [] |}]
    /\ invoked h = [load ""].
Proof. eexists. split; [reflexivity|]. split; reflexivity. Qed.

Example invalid_request_is_an_error :
  exists h,
    handle_request false "sample" sample_interface (sample_request (other 99))
      sample_handler = Return tt h
    /\ sent h = [{| response_type := ERROR;
                    response_args := [What [Str "Invalid request type: "; Ty (other 99)]] |}].
Proof. eexists. split; reflexivity. Qed.

(** C8.  A request that needs an interface the library does not implement
    (LOAD needs the loader interface; ADD_VERTEX, REMOVE_VERTEX, ADD_EDGE and
    REMOVE_EDGE the update interface; BFS, PAGERANK, WCC, CDLP, LCC and SSSP
    the Graphalytics interface) is answered, the connection being usable, by
    one NOT_SUPPORTED response: the handler returns, no call is issued on the
    library, and the flags of the handler and of the server are unchanged. *)
Theorem unsupported_request_is_answered_not_supported
  (NDEBUG : bool) (cfg_library_name : string) (i : Interface) (r : Request)
  (h : Handler) (c : capability) :
  requires (type r) = Some c ->
  implements i c = false ->
  send_ok h = true ->
  exists h',
    handle_request NDEBUG cfg_library_name i r h = Return tt h'
    /\ sent h' = sent h ++ [{| response_type := NOT_SUPPORTED; response_args := [] |}]
    /\ invoked h' = invoked h
    /\ m_terminate h' = m_terminate h
    /\ m_instance h' = m_instance h.
Proof.
  intros Hreq Himpl Hsend.
  unfold handle_request, try_catch, dispatch.
  destruct (type r) eqn:Ht; simpl in Hreq; try discriminate;
    injection Hreq as <-; simpl in Himpl; rewrite Himpl; cbn [negb];
    unfold not_supported, LOG, hbind, update; responses_go_out Hsend;
    eexists; (split; [reflexivity|]); auto.
Qed.

Lemma unsupported_request_is_answered_not_supported_witness :
  exists h',
    handle_request false "sample" sample_interface (sample_request ADD_EDGE)
      sample_handler
    = Return tt h'
    /\ sent h' = [{| response_type := NOT_SUPPORTED; response_args := [] |}]
    /\ invoked h' = [].
Proof.
  destruct (unsupported_request_is_answered_not_supported false "sample"
              sample_interface (sample_request ADD_EDGE) sample_handler
              UpdateInterface)
    as (h' & Hh & Hs & Hi & _); try reflexivity.
  exists h'. split; [exact Hh|]. split; [exact Hs | exact Hi].
Defined.

(** *** Further properties of the signal handling *)

(** X17.  Registration and destruction undo each other: when nobody is
    registered and [::sigaction] succeeds, [handle_signals] followed by the
    destructor of the same server leaves nobody registered and, for both
    signals, the action the process had before the registration. *)
Theorem registration_round_trip (this : nat) (s : Server) (p : Process) :
  g_server_instance p = None ->
  sigaction_rc p SIGTERM = 0 -> sigaction_rc p SIGINT = 0 ->
  exists p1,
    handle_signals this p = Returns p1
    /\ g_server_instance p1 = Some this
    /\ g_server_instance (destructor this s p1).2 = None
    /\ (forall sig, action (destructor this s p1).2 sig = action p sig)
    /\ cerr (destructor this s p1).2 = cerr p.
Proof.
  intros Hg Ht Hi. exists (registered this p).
  assert (Hp1 : handle_signals this p = Returns (registered this p)).
  { unfold handle_signals.
    rewrite decide_False by congruence.
    rewrite decide_False by (rewrite Hg; auto).
    unfold signal_handler_install, sigaction. simpl.
    rewrite Ht. simpl. rewrite Hi. reflexivity. }
  split; [exact Hp1|]. split; [reflexivity|].
  unfold destructor.
  destruct (0 <=? m_server_fd s); cbn [snd];
    (destruct (decide _) as [_|Hne]; [|exfalso; by apply Hne]);
    unfold signal_handler_uninstall, sigaction; simpl;
    rewrite Ht; simpl; rewrite Hi; simpl;
    (split; [reflexivity|]); (split; [intros []; reflexivity | reflexivity]).
Qed.

Lemma registration_round_trip_witness :
  exists p1,
    handle_signals 1%nat (sample_process None) = Returns p1
    /\ action p1 SIGTERM = sa_signal_handler_execute
    /\ action (destructor 1%nat sample_server p1).2 SIGTERM = sa_previous 1.
Proof.
  destruct (registration_round_trip 1%nat sample_server (sample_process None))
    as (p1 & Hp1 & _ & _ & Hact & _); try reflexivity.
  exists p1. split; [exact Hp1|]. split; [|exact (Hact SIGTERM)].
  injection Hp1 as <-. reflexivity.
Defined.


(** X18.  [handle_signals] registers the server before it installs the
    handlers and does not undo the registration when the installation fails:
    if [::sigaction] fails for one of the two signals, the call throws and
    the server is registered all the same.  A second call on this server then
    returns at once, as if the handlers were installed, every other server is
    refused, and the signal whose [::sigaction] failed keeps its former
    action. *)
Theorem failed_installation_stays_registered (this : nat) (p : Process) :
  g_server_instance p = None ->
  sigaction_rc p SIGTERM <> 0 \/ sigaction_rc p SIGINT <> 0 ->
  exists what p',
    handle_signals this p = Throws what p'
    /\ g_server_instance p' = Some this
    /\ handle_signals this p' = Returns p'
    /\ (forall other, other <> this ->
          exists what', handle_signals other p' = Throws what' p')
    /\ (sigaction_rc p SIGINT <> 0 -> action p' SIGINT = action p SIGINT)
    /\ (sigaction_rc p SIGTERM <> 0 -> forall sig, action p' sig = action p sig).
Proof.
  intros Hg Hfail.
  assert (Hagain : forall p', g_server_instance p' = Some this ->
            handle_signals this p' = Returns p'
            /\ forall other, other <> this ->
                 exists what', handle_signals other p' = Throws what' p').
  { intros p' Hp'. unfold handle_signals. split.
    - by rewrite decide_True.
    - intros other Hne. rewrite decide_False by congruence.
      rewrite decide_True by congruence. eauto. }
  unfold handle_signals at 1.
  rewrite decide_False by congruence.
  rewrite decide_False by (rewrite Hg; auto).
  unfold signal_handler_install, sigaction. simpl.
  destruct (Z.eq_dec (sigaction_rc p SIGTERM) 0) as [Ht|Ht].
  - destruct Hfail as [Hfail|Hfail]; [contradiction|].
    rewrite Ht. simpl.
    apply Z.eqb_neq in Hfail as Hi'. rewrite Hi'. simpl. rewrite ?Hi'. simpl.
    eexists _, _. split; [reflexivity|]. split; [reflexivity|].
    split; [by apply Hagain|]. split; [by apply Hagain|].
    split; [reflexivity | contradiction].
  - apply Z.eqb_neq in Ht as Ht'. rewrite Ht'. simpl. rewrite ?Ht'. simpl.
    eexists _, _. split; [reflexivity|]. split; [reflexivity|].
    split; [by apply Hagain|]. split; [by apply Hagain|].
    split; [reflexivity | intros _ []; reflexivity].
Qed.

Lemma failed_installation_stays_registered_witness :
  exists what p',
    handle_signals 1%nat (failing_process None is_sigint) = Throws what p'
    /\ g_server_instance p' = Some 1%nat
    /\ action p' SIGTERM = sa_signal_handler_execute
    /\ action p' SIGINT = sa_previous 2
    /\ handle_signals 1%nat p' = Returns p'.
Proof.
  destruct (failed_installation_stays_registered 1%nat
              (failing_process None is_sigint))
    as (what & p' & Hp' & Hg & Hagain & _ & Hint & _).
  - reflexivity.
  - right. discriminate.
  - exists what, p'. split; [exact Hp'|]. split; [exact Hg|].
    split; [injection Hp' as _ <-; reflexivity|].
    split; [apply Hint; discriminate | exact Hagain].
Defined.

Lemma signal_handler_uninstall_failure (p : Process) (sig : signal) :
  sigaction_rc p sig <> 0 ->
  action (signal_handler_uninstall p) sig = action p sig
  /\ (length (cerr p) < length (cerr (signal_handler_uninstall p)))%nat.
Proof.
  intros Hrc. unfold signal_handler_uninstall, sigaction.
  destruct (sigaction_rc p SIGTERM =? 0) eqn:Ht; simpl; rewrite ?Ht; simpl;
    destruct (sigaction_rc p SIGINT =? 0) eqn:Hi; simpl; rewrite ?Hi; simpl;
    destruct sig;
    try (apply Z.eqb_eq in Ht; contradiction);
    try (apply Z.eqb_eq in Hi; contradiction);
    rewrite ?length_app; simpl; split; (reflexivity || lia).
Qed.

(** X19.  The destructor of the registered server clears the singleton
    before it puts the former actions back, and goes on when that fails: if
    [::sigaction] fails for a signal, a line is written to [cerr], the action
    of that signal stays what it was, the handler of the server when that was
    installed, and nobody is registered any more; a signal that arrives then
    finds no server to stop. *)
Theorem failed_uninstall_leaves_the_handler
  (this : nat) (s : Server) (p : Process) (sig : signal)
  (servers : gmap nat Server) :
  g_server_instance p = Some this ->
  sigaction_rc p sig <> 0 ->
  let p' := (destructor this s p).2 in
  g_server_instance p' = None
  /\ action p' sig = action p sig
  /\ (length (cerr p) < length (cerr p'))%nat
  /\ signal_handler_execute p' servers = None.
Proof.
  intros Hg Hrc p'.
  assert (H : g_server_instance p' = None
              /\ action p' sig = action p sig
              /\ (length (cerr p) < length (cerr p'))%nat).
  { unfold p', destructor.
    destruct (0 <=? m_server_fd s); cbn [snd];
      (destruct (decide _) as [_|Hne]; [|exfalso; by apply Hne]).
    - destruct (signal_handler_uninstall_spec
                  (set_g_server_instance None (close (m_server_fd s) p)))
        as [H1 _].
      destruct (signal_handler_uninstall_failure
                  (set_g_server_instance None (close (m_server_fd s) p)) sig Hrc)
        as [H2 H3].
      split; [exact H1|]. split; [exact H2 | exact H3].
    - destruct (signal_handler_uninstall_spec (set_g_server_instance None p))
        as [H1 _].
      destruct (signal_handler_uninstall_failure
                  (set_g_server_instance None p) sig Hrc) as [H2 H3].
      split; [exact H1|]. split; [exact H2 | exact H3]. }
  destruct H as (H1 & H2 & H3).
  split; [exact H1|]. split; [exact H2|]. split; [exact H3|].
  unfold signal_handler_execute. by rewrite H1.
Qed.

Lemma failed_uninstall_leaves_the_handler_witness :
  action (destructor 1%nat sample_server
            (failing_process (Some 1%nat) is_sigint)).2 SIGINT
  = sa_signal_handler_execute
  /\ signal_handler_execute
       (destructor 1%nat sample_server
          (failing_process (Some 1%nat) is_sigint)).2
       {[ 1%nat := sample_server ]} = None.
Proof.
  destruct (failed_uninstall_leaves_the_handler 1%nat sample_server
              (failing_process (Some 1%nat) is_sigint) SIGINT
              {[ 1%nat := sample_server ]})
    as (_ & Hact & _ & Hsig); [reflexivity | discriminate|].
  split; [exact Hact | exact Hsig].
Defined.

Lemma handle_signals_returns_registered (this : nat) (p p' : Process) :
  handle_signals this p = Returns p' -> g_server_instance p' = Some this.
Proof.
  unfold handle_signals. destruct (decide _) as [Hg|Hg].
  - by intros [= <-].
  - destruct (decide _) as [Hn|Hn]; [intros Hd; discriminate Hd|].
    unfold signal_handler_install, sigaction. simpl.
    destruct (sigaction_rc p SIGTERM =? 0) eqn:Ht; simpl; rewrite ?Ht; simpl;
      [|intros Hd; discriminate Hd].
    destruct (sigaction_rc p SIGINT =? 0) eqn:Hi; simpl; rewrite ?Hi; simpl;
      [|intros Hd; discriminate Hd].
    by intros [= <-].
Qed.

(** X20.  Once [handle_signals] has returned for a server, a signal stops
    that server and no other: the handler sets [m_server_stop] of the server
    [handle_signals] was called on, and leaves every other server of the
    process as it was. *)
Theorem signal_stops_the_registered_server
  (this : nat) (s : Server) (p p' : Process) (servers : gmap nat Server) :
  handle_signals this p = Returns p' ->
  servers !! this = Some s ->
  exists servers',
    signal_handler_execute p' servers = Some servers'
    /\ servers' !! this = Some (set_server_stop true s)
    /\ forall other, other <> this -> servers' !! other = servers !! other.
Proof.
  intros Hh Hs. apply handle_signals_returns_registered in Hh.
  unfold signal_handler_execute. rewrite Hh, Hs.
  eexists. split; [reflexivity|]. split.
  - apply lookup_insert_eq.
  - intros other Hne. by apply lookup_insert_ne.
Qed.

Lemma signal_stops_the_registered_server_witness :
  exists servers',
    signal_handler_execute (sample_process (Some 1%nat))
      {[ 1%nat := sample_server; 2%nat := sample_server ]} = Some servers'
    /\ m_server_stop <$> servers' !! 1%nat = Some true
    /\ m_server_stop <$> servers' !! 2%nat = Some false.
Proof.
  destruct (signal_stops_the_registered_server 1%nat sample_server
              (sample_process (Some 1%nat)) (sample_process (Some 1%nat))
              {[ 1%nat := sample_server; 2%nat := sample_server ]})
    as (servers' & Hs & H1 & H2); [reflexivity | reflexivity|].
  exists servers'. split; [exact Hs|]. split.
  - by rewrite H1.
  - rewrite (H2 2%nat) by discriminate. reflexivity.
Defined.

(** *** Further properties of the request handler *)

(** *** Further properties of [handle_request] *)

(** X11.  When the next message to send is below [buffer_sz] and [::send]
    sends it whole, the library throws nothing but [common::Error] and the
    handler finds the storage it asks for, every request gets exactly one
    response, sent whole, whatever its type, whatever the library implements
    and whether or not the library throws; the only request without a defined
    behaviour is then a GET_WEIGHT whose weight does not fit a signed 64-bit
    integer. *)
Theorem every_request_is_answered_once
  (NDEBUG : bool) (cfg_library_name : string) (i : Interface) (r : Request)
  (h : Handler) :
  send_ok h = true ->
  (forall c, raises i c <> Some not_a_common_Error) ->
  (exists h' resp,
     handle_request NDEBUG cfg_library_name i r h = Return tt h'
     /\ sent h' = sent h ++ [resp]
     /\ sent_in_part h' = sent_in_part h)
  \/ (type r = GET_WEIGHT
      /\ raises i (get_weight (get r 0) (get r 1)) = None
      /\ Cxx.to_int64 (returns_double i (get_weight (get r 0) (get r 1))) = None
      /\ handle_request NDEBUG cfg_library_name i r h = Undefined).
Proof.
  intros Hsend Herr.
  handle_request_cases i r; responses_go_out Hsend;
    try match goal with
      | H : raises i ?c = Some not_a_common_Error |- _ => by destruct (Herr c)
      end;
    first [ left; eexists _, _; repeat split; reflexivity
          | right; repeat split; reflexivity ].
Qed.

Lemma every_request_is_answered_once_witness :
  exists h' resp,
    handle_request false "sample"
      (full_interface (Some (common_Error [Str "failed"])))
      (sample_request NUM_EDGES) sample_handler = Return tt h'
    /\ sent h' = [resp].
Proof.
  destruct (every_request_is_answered_once false "sample"
              (full_interface (Some (common_Error [Str "failed"])))
              (sample_request NUM_EDGES) sample_handler)
    as [(h' & resp & Hh & Hs & _)|(Ht & _)];
    [reflexivity | discriminate | | discriminate Ht].
  exists h', resp. split; [exact Hh | exact Hs].
Defined.

(** X12.  What the handler does with a method of the library that throws
    depends on what is thrown.  A [common::Error] is caught: on a connection
    that delivers the next message the handler returns, having answered with
    one ERROR response that carries the text of the error, after this one
    call, its flags and those of the server as they were.  An exception of any
    other type is not caught: it leaves [handle_request] after this one call,
    and the request gets no response, whatever the connection. *)
Theorem library_error_is_reported
  (NDEBUG : bool) (cfg_library_name : string) (i : Interface) (r : Request)
  (h : Handler) (c : call) :
  library_call i r = Some c ->
  (forall what,
     raises i c = Some (common_Error what) ->
     send_ok h = true ->
     exists h',
       handle_request NDEBUG cfg_library_name i r h = Return tt h'
       /\ sent h' = sent h ++ [{| response_type := ERROR;
                                 response_args := [What what] |}]
       /\ sent_in_part h' = sent_in_part h
       /\ invoked h' = invoked h ++ [c]
       /\ m_terminate h' = m_terminate h
       /\ m_instance h' = m_instance h)
  /\ (raises i c = Some not_a_common_Error ->
      exists h',
        handle_request NDEBUG cfg_library_name i r h
        = Throw not_a_common_Error h'
        /\ sent h' = sent h
        /\ sent_in_part h' = sent_in_part h
        /\ invoked h' = invoked h ++ [c]
        /\ m_terminate h' = m_terminate h
        /\ m_instance h' = m_instance h).
Proof.
  unfold library_call. intros Hcall. split.
  - intros what Hraise Hsend. revert Hcall Hraise.
    handle_request_cases i r; responses_go_out Hsend;
      intros Hcall Hraise; try discriminate Hcall; injection Hcall as <-;
      try congruence;
      match goal with
      | H : raises i _ = Some (common_Error ?w) |- _ =>
          tryif constr_eq w what then fail
          else assert (w = what) as -> by congruence
      end;
      eexists; repeat split; reflexivity.
  - intros Hraise. revert Hcall Hraise.
    handle_request_cases i r;
      intros Hcall Hraise; try discriminate Hcall; injection Hcall as <-;
      try congruence;
      eexists; repeat split; reflexivity.
Qed.

Lemma library_error_is_reported_witness :
  (exists h',
     handle_request false "sample"
       (full_interface (Some (common_Error [Str "failed"])))
       (sample_request ADD_EDGE) sample_handler = Return tt h'
     /\ sent h' = [{| response_type := ERROR;
                      response_args := [What [Str "failed"]] |}])
  /\ exists h',
       handle_request false "sample" (full_interface (Some not_a_common_Error))
         (sample_request ADD_EDGE) sample_handler = Throw not_a_common_Error h'
       /\ sent h' = [] /\ invoked h' = [add_edge 1 2 1%float].
Proof.
  split.
  - destruct (proj1 (library_error_is_reported false "sample"
                       (full_interface (Some (common_Error [Str "failed"])))
                       (sample_request ADD_EDGE) sample_handler
                       (add_edge 1 2 1%float) eq_refl)
                [Str "failed"] eq_refl eq_refl)
      as (h' & Hh & Hs & _).
    exists h'. split; [exact Hh | exact Hs].
  - destruct (proj2 (library_error_is_reported false "sample"
                       (full_interface (Some not_a_common_Error))
                       (sample_request ADD_EDGE) sample_handler
                       (add_edge 1 2 1%float) eq_refl)
                eq_refl)
      as (h' & Hh & Hs & _ & Hi & _).
    exists h'. split; [exact Hh|]. split; [exact Hs | exact Hi].
Defined.

(** X13.  The flags a request may set, however the handling of the request
    ends, the calls of [::send] of the handler meeting what they may.  A
    request is acted upon when the call of [response] that acknowledges it
    returns, and then only: TERMINATE_WORKER and TERMINATE_SERVER set
    [m_terminate], TERMINATE_SERVER tells the server to stop, and
    TERMINATE_ON_LAST_CONNECTION to stop on the last connection.  When the
    [::send] of the acknowledgement fails or an [assert] stops the handler the
    flags are as they were, also when the ERROR response of the [catch] clause
    then goes out and [handle_request] returns. *)
Theorem flags_set_by_a_request
  (NDEBUG : bool) (cfg_library_name : string) (i : Interface) (r : Request)
  (h h' : Handler) :
  handler_of (handle_request NDEBUG cfg_library_name i r h) = Some h' ->
  let acknowledged :=
    returns_to_caller (response_fate NDEBUG (deliveries h 0)) in
  m_terminate h'
  = match type r with
    | TERMINATE_WORKER | TERMINATE_SERVER => acknowledged || m_terminate h
    | _ => m_terminate h
    end
  /\ m_server_stop (m_instance h')
     = match type r with
       | TERMINATE_SERVER => acknowledged || m_server_stop (m_instance h)
       | _ => m_server_stop (m_instance h)
       end
  /\ m_terminate_on_last_connection (m_instance h')
     = match type r with
       | TERMINATE_ON_LAST_CONNECTION =>
           acknowledged || m_terminate_on_last_connection (m_instance h)
       | _ => m_terminate_on_last_connection (m_instance h)
       end.
Proof.
  unfold handler_of. cbv zeta.
  handle_request_cases i r; responses_by_fate NDEBUG;
    intros Hh; try discriminate Hh; injection Hh as <-;
    repeat split; reflexivity.
Qed.

Lemma flags_set_by_a_request_witness :
  (exists h',
     handle_request false "sample" sample_interface
       (sample_request TERMINATE_SERVER) sample_handler = Return tt h'
     /\ m_terminate h' = true /\ m_server_stop (m_instance h') = true)
  /\ exists h',
       handle_request false "sample" sample_interface
         (sample_request TERMINATE_SERVER) flaky_handler = Return tt h'
       /\ m_terminate h' = false /\ m_server_stop (m_instance h') = false.
Proof.
  split.
  - eexists. split; [reflexivity|].
    destruct (flags_set_by_a_request false "sample" sample_interface
                (sample_request TERMINATE_SERVER) sample_handler _ eq_refl)
      as (Ht & Hs & _).
    split; [exact Ht | exact Hs].
  - eexists. split; [reflexivity|].
    destruct (flags_set_by_a_request false "sample" sample_interface
                (sample_request TERMINATE_SERVER) flaky_handler _ eq_refl)
      as (Ht & Hs & _).
    split; [exact Ht | exact Hs].
Defined.

(** X14.  The handler issues at most one call on the library for a request,
    and never a method of an interface the library does not implement,
    whether it then returns, throws or is stopped by an [assert]. *)
Theorem library_is_called_within_its_interfaces
  (NDEBUG : bool) (cfg_library_name : string) (i : Interface) (r : Request)
  (h h' : Handler) :
  handler_of (handle_request NDEBUG cfg_library_name i r h) = Some h' ->
  exists l,
    invoked h' = invoked h ++ l
    /\ (length l <= 1)%nat
    /\ forall c cap, c ∈ l -> needs c = Some cap -> implements i cap = true.
Proof.
  unfold handler_of.
  handle_request_cases i r; responses_by_fate NDEBUG;
    intros Hh; try discriminate Hh; injection Hh as <-;
    cbn [invoked push_invoked push_log push_sent push_sent_in_part
         next_delivery set_terminate set_instance];
    first
      [ exists []; split; [by rewrite app_nil_r|]; split; [simpl; lia|];
        intros c cap Hc; by apply elem_of_nil in Hc
      | eexists [_]; split; [reflexivity|]; split; [simpl; lia|];
        intros c cap Hc Hn; apply list_elem_of_singleton in Hc as ->;
        simpl in Hn; first [discriminate Hn | injection Hn as <-; assumption] ].
Qed.

Lemma library_is_called_within_its_interfaces_witness :
  exists h' l,
    handler_of (handle_request false "sample" (full_interface None)
                  (sample_request LOAD) sample_handler) = Some h'
    /\ invoked h' = l /\ (length l <= 1)%nat.
Proof.
  eexists _, _. split; [reflexivity|].
  destruct (library_is_called_within_its_interfaces false "sample"
              (full_interface None) (sample_request LOAD) sample_handler _ eq_refl)
    as (l & Hl & Hlen & _).
  split; [reflexivity|]. rewrite Hl. simpl. exact Hlen.
Defined.

(** X15.  A [::send] that fails is an error like another: the [catch]
    clause answers it with an ERROR response, which is a [::send] of its own.
    For a request of a known type and a library that does not throw, when the
    [::send] of the response returns -1: if the next message goes out,
    [handle_request] returns, the peer has got one response, an ERROR with the
    text of the error of the connection, in place of the response it waits
    for, and the flags are as they were; if the next [::send] returns -1 as
    well, the error leaves [handle_request] and nothing has been sent. *)
Theorem failed_send_is_answered_with_an_error
  (NDEBUG : bool) (cfg_library_name : string) (i : Interface) (r : Request)
  (h : Handler) :
  (forall c, raises i c = None) ->
  (forall code, type r <> other code) ->
  handle_request NDEBUG cfg_library_name i r h <> Undefined ->
  deliveries h 0 = not_delivered ->
  (send_ok (next_delivery h) = true ->
   exists h',
     handle_request NDEBUG cfg_library_name i r h = Return tt h'
     /\ sent h' = sent h ++ [{| response_type := ERROR;
                               response_args := [What connection_error] |}]
     /\ sent_in_part h' = sent_in_part h
     /\ m_terminate h' = m_terminate h
     /\ m_instance h' = m_instance h)
  /\ (deliveries h 1 = not_delivered ->
      exists h',
        handle_request NDEBUG cfg_library_name i r h
        = Throw (common_Error connection_error) h'
        /\ sent h' = sent h
        /\ sent_in_part h' = sent_in_part h
        /\ m_terminate h' = m_terminate h
        /\ m_instance h' = m_instance h).
Proof.
  intros Hquiet Hknown Hdefined Hfirst.
  assert (Hresponse : forall t args h0,
            deliveries h0 0 = not_delivered ->
            response NDEBUG t args h0
            = Throw (common_Error connection_error) (next_delivery h0)).
  { intros t args h0 H0. unfold response, send_message. by rewrite H0. }
  assert (Hmessage : forall m h0,
            deliveries h0 0 = not_delivered ->
            send_message NDEBUG m h0
            = Throw (common_Error connection_error) (next_delivery h0)).
  { intros m h0 H0. unfold send_message. by rewrite H0. }
  split.
  - intros Hsecond. revert Hdefined.
    handle_request_cases i r;
      try match goal with
        | H : raises i ?c = Some _ |- _ => by rewrite Hquiet in H
        end;
      try (by destruct (Hknown code));
      try (by intros Hdefined);
      intros _;
      rewrite ?Hresponse, ?Hmessage by exact Hfirst; cbv beta iota;
      responses_go_out Hsecond;
      eexists; repeat split; reflexivity.
  - intros Hsecond. revert Hdefined.
    handle_request_cases i r;
      try match goal with
        | H : raises i ?c = Some _ |- _ => by rewrite Hquiet in H
        end;
      try (by destruct (Hknown code));
      try (by intros Hdefined);
      intros _;
      rewrite ?Hresponse, ?Hmessage by exact Hfirst; cbv beta iota;
      rewrite ?Hresponse by exact Hsecond;
      eexists; repeat split; reflexivity.
Qed.

Lemma failed_send_is_answered_with_an_error_witness :
  (exists h',
     handle_request false "sample" (full_interface None)
       (sample_request TERMINATE_WORKER) flaky_handler = Return tt h'
     /\ sent h' = [{| response_type := ERROR;
                      response_args := [What connection_error] |}]
     /\ m_terminate h' = false)
  /\ exists h',
       handle_request false "sample" (full_interface None)
         (sample_request TERMINATE_WORKER) broken_handler
       = Throw (common_Error connection_error) h'
       /\ sent h' = [].
Proof.
  split.
  - destruct (proj1 (failed_send_is_answered_with_an_error false "sample"
                       (full_interface None) (sample_request TERMINATE_WORKER)
                       flaky_handler (fun _ => eq_refl)
                       ltac:(discriminate) ltac:(discriminate) eq_refl)
                eq_refl)
      as (h' & Hh & Hs & _ & Ht & _).
    exists h'. split; [exact Hh|]. split; [exact Hs | exact Ht].
  - destruct (proj2 (failed_send_is_answered_with_an_error false "sample"
                       (full_interface None) (sample_request TERMINATE_WORKER)
                       broken_handler (fun _ => eq_refl)
                       ltac:(discriminate) ltac:(discriminate) eq_refl)
                eq_refl)
      as (h' & Hh & Hs & _).
    exists h'. split; [exact Hh | exact Hs].
Defined.

(** X16.  With a library that does not throw and a connection that works,
    the type of the one response is decided by the request alone: ERROR for a
    request of an unknown type, NOT_SUPPORTED for one that needs an interface
    the library lacks, OK for all the others. *)
Theorem response_type_of_a_quiet_library
  (NDEBUG : bool) (cfg_library_name : string) (i : Interface) (r : Request)
  (h h' : Handler) :
  (forall c, raises i c = None) ->
  send_ok h = true ->
  handle_request NDEBUG cfg_library_name i r h = Return tt h' ->
  exists args,
    sent h' = sent h ++ [{| response_type := quiet_response_type i (type r);
                            response_args := args |}].
Proof.
  intros Hquiet Hsend. unfold quiet_response_type, implements.
  handle_request_cases i r; responses_go_out Hsend; cbn [requires];
    repeat match goal with
      | H : raises i ?c = _ |- _ => rewrite Hquiet in H
      end;
    try discriminate;
    intros Hret; try discriminate Hret; injection Hret as <-;
    eexists; reflexivity.
Qed.

Lemma response_type_of_a_quiet_library_witness :
  exists h' args,
    handle_request false "sample" (full_interface None) (sample_request HAS_EDGE)
      sample_handler = Return tt h'
    /\ sent h' = [{| response_type := OK; response_args := args |}].
Proof.
  eexists _.
  destruct (response_type_of_a_quiet_library false "sample" (full_interface None)
              (sample_request HAS_EDGE) sample_handler _ (fun _ => eq_refl)
              eq_refl eq_refl) as [args Hs].
  exists args. split; [reflexivity | exact Hs].
Defined.

(** *** [execute] *)

Lemma handle_request_connections
  (NDEBUG : bool) (cfg_library_name : string) (i : Interface) (r : Request)
  (h : Handler) :
  match handle_request NDEBUG cfg_library_name i r h with
  | Return _ h' | Throw _ h' | Abort h' => connections h' = connections h
  | Undefined => True
  end.
Proof.
  handle_request_cases i r; responses_by_fate NDEBUG;
    first [exact I | reflexivity].
Qed.

Lemma serve_connections (NDEBUG : bool) (buffer_sz thread_id : Z)
  (cfg_library_name : string) (i : Interface) (fuel : nat)
  (messages : list Message) (h : Handler) :
  match serve NDEBUG buffer_sz thread_id cfg_library_name i fuel messages h with
  | Some (Ends h') => connections h' = connections h /\ m_terminate h' = true
  | Some (Escapes _ h') | Some (Aborts h') => connections h' = connections h
  | Some NoBehaviour | None => True
  end.
Proof.
  revert h. induction messages as [|m messages IH]; intros h.
  - cbn [serve]. destruct (m_terminate h) eqn:Ht; [by split | by split].
  - cbn [serve]. destruct (m_terminate h) eqn:Ht; [by split|].
    destruct (recv_bytes m =? -1); [reflexivity|].
    destruct (recv_bytes m =? 0); [by split|].
    destruct (negb NDEBUG && negb (recv_bytes m =? 4)); [reflexivity|].
    destruct (buffer_sz <? recv_bytes m); [exact I|].
    destruct (negb NDEBUG && negb (message_sz m + 4 <? buffer_sz)); [reflexivity|].
    destruct (read_message _ _ _ _ _) as [[n| |]|];
      [|reflexivity|exact I|exact I].
    destruct (negb NDEBUG && negb (n =? message_sz m)); [reflexivity|].
    pose proof (handle_request_connections NDEBUG cfg_library_name i
                  (request m) h) as Hk.
    destruct (handle_request _ _ _ _ _) as [[] h'|what h'|h'|];
      [|exact Hk|exact Hk|exact I].
    specialize (IH h').
    destruct (serve _ _ _ _ _ _ _ _) as [[h''|what h''|h''|]|];
      rewrite <- ?Hk; exact IH.
Qed.

(** X27.  [execute] counts its connection in and, when it returns, out: the
    counter of the server is then what it was, and the handler has its
    [m_terminate] set.  When an exception leaves [execute] (a failed [recv],
    [read] or [send]) or an [assert] stops it, the connection stays counted:
    the counter is one more than it was. *)
Theorem execute_counts_the_connection (NDEBUG : bool) (buffer_sz thread_id : Z)
  (cfg_library_name : string) (i : Interface) (fuel : nat)
  (messages : list Message) (h : Handler) :
  match execute NDEBUG buffer_sz thread_id cfg_library_name i fuel messages h with
  | Some (Ends h') => connections h' = connections h /\ m_terminate h' = true
  | Some (Escapes _ h') | Some (Aborts h') => connections h' = connections h + 1
  | Some NoBehaviour | None => True
  end.
Proof.
  unfold execute.
  match goal with
  | |- context [serve _ _ _ _ _ _ _ ?h0] =>
      pose proof (serve_connections NDEBUG buffer_sz thread_id cfg_library_name
                    i fuel messages h0) as Hs
  end.
  destruct (serve _ _ _ _ _ _ _ _) as [[h'|what h'|h'|]|]; try exact I;
    unfold connections in *; cbn in Hs |- *.
  - destruct Hs as [Hc Ht]. split; [lia | exact Ht].
  - exact Hs.
  - exact Hs.
Qed.

Example execute_failed_recv :
  exists h',
    execute false 1024 7 "sample" sample_interface 8
      [{| recv_bytes := -1; message_sz := 0; reads := [];
          request := sample_request TERMINATE_WORKER |}]
      sample_handler
    = Some (Escapes (common_Error [Str "recv, connection interrupted?"]) h')
    /\ connections sample_handler = 0 /\ connections h' = 1.
Proof. eexists. split; [reflexivity|]. split; reflexivity. Qed.

Lemma bytes_nonneg (reads : list Z) :
  Forall (fun recv_bytes => 0 <= recv_bytes) reads -> 0 <= bytes reads.
Proof.
  induction 1 as [|r rs Hr _ IHr]; unfold bytes in *; simpl; lia.
Qed.

Lemma read_message_short (fuel : nat) (reads : list Z)
  (buffer_sz message_sz num_bytes_read : Z) :
  Forall (fun recv_bytes => 0 <= recv_bytes) reads ->
  num_bytes_read + bytes reads < message_sz ->
  message_sz <= buffer_sz ->
  read_message fuel reads buffer_sz message_sz num_bytes_read = None.
Proof.
  revert reads num_bytes_read.
  induction fuel as [|fuel IH]; intros reads n Hpos Hsum Hbuf; [reflexivity|].
  cbn [read_message].
  pose proof (bytes_nonneg reads Hpos) as Hb.
  destruct (Z.ltb_spec n message_sz) as [_|Hge]; [|lia].
  destruct reads as [|r reads]; cbn [hd tl].
  - simpl. rewrite Z.add_0_r.
    destruct (Z.ltb_spec buffer_sz n); [lia|].
    apply IH; [constructor | exact Hsum | exact Hbuf].
  - apply Forall_cons in Hpos as [Hr Hpos].
    pose proof (bytes_nonneg reads Hpos) as Hb'.
    unfold bytes in Hsum. simpl in Hsum. fold (bytes reads) in Hsum.
    destruct (Z.eqb_spec r (-1)); [lia|].
    destruct (Z.ltb_spec buffer_sz (n + r)); [lia|].
    apply IH; [exact Hpos | lia | exact Hbuf].
Qed.

(** X28.  A peer that closes the connection in the middle of a message is
    not noticed.  When the size announces more bytes than the peer sends
    before it closes, each further [read] returns 0, the number of bytes read
    stays below the size, and the loop that reads the message is still running
    after any number of turns: [execute] does not return. *)
Theorem peer_closing_mid_message_is_not_noticed
  (NDEBUG : bool) (buffer_sz thread_id : Z) (cfg_library_name : string)
  (i : Interface) (fuel : nat) (m : Message) (messages : list Message)
  (h : Handler) :
  m_terminate h = false ->
  recv_bytes m = 4 ->
  message_sz m + 4 < buffer_sz ->
  Forall (fun recv_bytes => 0 <= recv_bytes) (reads m) ->
  4 + bytes (reads m) < message_sz m ->
  execute NDEBUG buffer_sz thread_id cfg_library_name i fuel (m :: messages) h
  = None.
Proof.
  intros Ht Hrecv Hsz Hpos Hshort. unfold execute. cbn [serve].
  pose proof (bytes_nonneg (reads m) Hpos) as Hb.
  cbn [m_terminate push_log set_instance]. rewrite Ht, Hrecv.
  cbn [Z.eqb negb andb]. rewrite andb_false_r.
  destruct (Z.ltb_spec buffer_sz 4); [lia|].
  apply Z.ltb_lt in Hsz as Hsz'. rewrite Hsz'. cbn [negb]. rewrite andb_false_r.
  by rewrite read_message_short by (try assumption; lia).
Qed.

Lemma peer_closing_mid_message_is_not_noticed_witness :
  execute true 1024 7 "sample" sample_interface 1000
    [sample_message 16 [4; 4] TERMINATE_WORKER] sample_handler
  = None.
Proof.
  apply peer_closing_mid_message_is_not_noticed;
    [reflexivity | reflexivity | simpl; lia | repeat constructor; lia
    | vm_compute; reflexivity].
Defined.

Lemma read_message_complete (fuel : nat) (reads : list Z)
  (buffer_sz message_sz num_bytes_read : Z) :
  in_turn reads num_bytes_read message_sz ->
  num_bytes_read + bytes reads = message_sz ->
  message_sz <= buffer_sz ->
  (length reads < fuel)%nat ->
  read_message fuel reads buffer_sz message_sz num_bytes_read
  = Some (message_read message_sz).
Proof.
  revert reads num_bytes_read.
  induction fuel as [|fuel IH]; intros reads n Hturn Hsum Hbuf Hfuel; [lia|].
  cbn [read_message].
  destruct reads as [|r reads]; cbn [hd tl].
  - unfold bytes in Hsum. simpl in Hsum.
    destruct (Z.ltb_spec n message_sz); [lia|]. f_equal. f_equal. lia.
  - destruct Hturn as [Hr Hturn].
    unfold bytes in Hsum. simpl in Hsum. fold (bytes reads) in Hsum.
    destruct (Z.ltb_spec n message_sz) as [Hlt|Hge].
    + destruct (Z.eqb_spec r (-1)); [lia|].
      destruct (Z.ltb_spec buffer_sz (n + r)); [lia|].
      apply IH; [exact Hturn | lia | exact Hbuf | simpl in Hfuel; lia].
    + f_equal. f_equal. lia.
Qed.

Lemma serve_message_read
  (NDEBUG : bool) (buffer_sz thread_id : Z) (cfg_library_name : string)
  (i : Interface) (fuel : nat) (m : Message) (messages : list Message)
  (h : Handler) :
  m_terminate h = false ->
  recv_bytes m = 4 ->
  4 <= message_sz m ->
  message_sz m + 4 < buffer_sz ->
  read_message fuel (reads m) buffer_sz (message_sz m) 4
  = Some (message_read (message_sz m)) ->
  serve NDEBUG buffer_sz thread_id cfg_library_name i fuel (m :: messages) h
  = match handle_request NDEBUG cfg_library_name i (request m) h with
    | Return _ h' =>
        serve NDEBUG buffer_sz thread_id cfg_library_name i fuel messages h'
    | Throw what h' => Some (Escapes what h')
    | Abort h' => Some (Aborts h')
    | Undefined => Some NoBehaviour
    end.
Proof.
  intros Ht Hrecv Hmin Hsz Hread. cbn [serve].
  rewrite Ht, Hrecv. cbn [Z.eqb negb andb]. rewrite andb_false_r.
  destruct (Z.ltb_spec buffer_sz 4); [lia|].
  apply Z.ltb_lt in Hsz as Hsz'. rewrite Hsz'. cbn [negb]. rewrite andb_false_r.
  rewrite Hread, Z.eqb_refl. cbn [negb]. rewrite andb_false_r. reflexivity.
Qed.

(** X29.  A message that arrives whole reaches [handle_request], in however
    many pieces: when the size counts at least its own four bytes and fits
    the buffer, each [read] returns no more than it was asked for and the
    pieces add up to the size, the loop ends after at most one turn per piece
    with the whole message read, no [assert] of [execute] fails, and [execute]
    goes on with what [handle_request] does with the request: the next
    message if it returns, and the end of [execute] if it throws or an
    [assert] of it fails. *)
Theorem whole_message_is_handled
  (NDEBUG : bool) (buffer_sz thread_id : Z) (cfg_library_name : string)
  (i : Interface) (fuel : nat) (m : Message) (messages : list Message)
  (h : Handler) :
  m_terminate h = false ->
  recv_bytes m = 4 ->
  4 <= message_sz m ->
  message_sz m + 4 < buffer_sz ->
  in_turn (reads m) 4 (message_sz m) ->
  4 + bytes (reads m) = message_sz m ->
  (length (reads m) < fuel)%nat ->
  serve NDEBUG buffer_sz thread_id cfg_library_name i fuel (m :: messages) h
  = match handle_request NDEBUG cfg_library_name i (request m) h with
    | Return _ h' =>
        serve NDEBUG buffer_sz thread_id cfg_library_name i fuel messages h'
    | Throw what h' => Some (Escapes what h')
    | Abort h' => Some (Aborts h')
    | Undefined => Some NoBehaviour
    end.
Proof.
  intros Ht Hrecv Hmin Hsz Hturn Hsum Hfuel.
  apply serve_message_read; try assumption.
  apply read_message_complete; try assumption. lia.
Qed.

Lemma whole_message_is_handled_witness :
  exists h',
    serve false 1024 7 "sample" sample_interface 4
      [sample_message 16 [5; 0; 7] TERMINATE_WORKER] sample_handler
    = Some (Ends h')
    /\ sent h' = [{| response_type := OK; response_args := [] |}].
Proof.
  eexists. split.
  - rewrite whole_message_is_handled;
      [reflexivity | reflexivity | reflexivity | simpl; lia | simpl; lia
      | simpl; lia | vm_compute; reflexivity | simpl; lia].
  - reflexivity.
Defined.

(** X30.  A TERMINATE_WORKER or TERMINATE_SERVER request ends the connection.
    When it arrives whole on a connection that works, [execute] answers it
    with one OK, reads nothing of what the peer sent after it, and returns
    with the connection counted out; the library is not called, and the server
    is told to stop by TERMINATE_SERVER only. *)
Theorem terminate_request_ends_the_connection
  (NDEBUG : bool) (buffer_sz thread_id : Z) (cfg_library_name : string)
  (i : Interface) (fuel : nat) (m : Message) (messages : list Message)
  (h : Handler) :
  m_terminate h = false ->
  send_ok h = true ->
  recv_bytes m = 4 ->
  4 <= message_sz m ->
  message_sz m + 4 < buffer_sz ->
  in_turn (reads m) 4 (message_sz m) ->
  4 + bytes (reads m) = message_sz m ->
  (length (reads m) < fuel)%nat ->
  type (request m) = TERMINATE_WORKER \/ type (request m) = TERMINATE_SERVER ->
  exists h',
    execute NDEBUG buffer_sz thread_id cfg_library_name i fuel (m :: messages) h
    = Some (Ends h')
    /\ execute NDEBUG buffer_sz thread_id cfg_library_name i fuel [m] h
       = Some (Ends h')
    /\ sent h' = sent h ++ [{| response_type := OK; response_args := [] |}]
    /\ invoked h' = invoked h
    /\ connections h' = connections h
    /\ m_server_stop (m_instance h')
       = match type (request m) with
         | TERMINATE_SERVER => true
         | _ => m_server_stop (m_instance h)
         end.
Proof.
  intros Ht Hsend Hrecv Hmin Hsz Hturn Hsum Hfuel Htype.
  assert (Hread : read_message fuel (reads m) buffer_sz (message_sz m) 4
                  = Some (message_read (message_sz m))).
  { apply read_message_complete; try assumption. lia. }
  unfold execute.
  rewrite !serve_message_read by assumption.
  unfold handle_request, try_catch, dispatch.
  destruct Htype as [Htype|Htype]; rewrite Htype;
    unfold hbind, update; responses_go_out Hsend;
    (destruct messages as [|m' messages]; cbn [serve m_terminate set_terminate
       set_instance push_sent push_log next_delivery]);
    eexists; (split; [reflexivity|]); (split; [reflexivity|]);
    unfold connections; cbn; repeat split; try reflexivity; lia.
Qed.

Lemma terminate_request_ends_the_connection_witness :
  exists h',
    execute false 1024 7 "sample" sample_interface 4
      [sample_message 16 [12] TERMINATE_SERVER;
       sample_message 16 [12] NUM_EDGES] sample_handler
    = Some (Ends h')
    /\ length (sent h') = 1%nat
    /\ m_server_stop (m_instance h') = true.
Proof.
  destruct (terminate_request_ends_the_connection false 1024 7 "sample"
              sample_interface 4 (sample_message 16 [12] TERMINATE_SERVER)
              [sample_message 16 [12] NUM_EDGES] sample_handler)
    as (h' & Hrun & _ & Hsent & _ & _ & Hstop);
    [reflexivity | reflexivity | reflexivity | simpl; lia | simpl; lia
    | simpl; lia | vm_compute; reflexivity | simpl; lia | by right |].
  exists h'. split; [exact Hrun|]. split; [by rewrite Hsent | exact Hstop].
Defined.

End NetworkFacts.
